(** * iroAwase: statistical colour transfer in the Oklab working space

    A shallow embedding of the colour engine of the application: the
    sRGB/Oklab converter, the statistics extractor, the transfer
    coefficients and the per-pixel transform of [processImageBuffer], and
    the cache controller around them.

    Numbers.  A JavaScript [number] is modelled as an exact real: the
    arithmetic of the source is kept operation by operation, its rounding
    to binary64 (and the rounding of the gamma table to binary32) is not.
    An operation whose result would be [NaN] or an infinity (a division by
    zero, a root of a negative number, a table read outside the table)
    returns [None], and so does everything computed from it.  Division by
    a literal other than zero is written as the division of the reals.
    Bytes of a [Uint8ClampedArray] are integers of [Z] with the clamping
    store written out. *)

From Stdlib Require Import Reals Lra Lia ZArith.
From stdpp Require Import base option list strings gmap.

Open Scope R_scope.

(** ** The host's [Math] object and typed-array store *)

Module JS.

(** [x / y] for a divisor that is not a literal. *)
Definition div (x y : R) : option R :=
  if Req_dec_T y 0 then None else Some (x / y).

Definition Math_min (x y : R) : R := Rmin x y.
Definition Math_max (x y : R) : R := Rmax x y.

Definition Math_sqrt (x : R) : option R :=
  if Rle_dec 0 x then Some (sqrt x) else None.

(** [Math.pow x y]: the real power for a positive base; the integer power
    when [y] is an integer, unless it divides by zero; 0 for [0 ^ y] with
    [y] positive; [NaN] for a negative base with a fractional exponent. *)
Definition Math_pow (x y : R) : option R :=
  if Rlt_dec 0 x then Some (Rpower x y)
  else if Req_dec_T y (IZR (Zfloor y)) then
    if Req_dec_T x 0 then
      if Rlt_dec y 0 then None else Some (powerRZ x (Zfloor y))
    else Some (powerRZ x (Zfloor y))
  else if Req_dec_T x 0 then
    if Rlt_dec 0 y then Some 0 else None
  else None.

(** [Math.log10], defined for positive numbers. *)
Definition Math_log10 (x : R) : option R :=
  if Rlt_dec 0 x then Some (ln x / ln 10) else None.

(** [Math.cbrt], odd and defined on the whole line. *)
Definition Math_cbrt (x : R) : R :=
  if Rlt_dec 0 x then Rpower x (/ 3)
  else if Rlt_dec x 0 then - Rpower (- x) (/ 3)
  else 0.

(** [Math.round]: the integer nearest to [x], halves going up. *)
Definition Math_round (x : R) : Z := Zfloor (x + / 2).

(** Conversion applied by a store into a [Uint8ClampedArray]. *)
Definition ToUint8Clamp (z : Z) : Z := Z.max 0 (Z.min 255 z).

End JS.
Import JS.

(** ** Colour space converter *)

(** Entry [i] of the 256-entry gamma table, filled once at start-up; a
    read at any other index is [undefined]. *)
Definition TABLE_sRGBToLinear (i : Z) : option R :=
  guard (0 <= i < 256)%Z;;
  let x := IZR i / 255 in
  if Rle_dec x 0.04045 then Some (x / 12.92)
  else Math_pow ((x + 0.055) / 1.055) 2.4.

Definition sRGBToLinear (x : Z) : option R := TABLE_sRGBToLinear x.

Definition linearToSRGB (x : R) : option Z :=
  val ← (if Rle_dec x 0.0031308 then Some (x * 12.92)
         else p ← Math_pow x (1 / 2.4); Some (1.055 * p - 0.055));
  Some (Math_round (Math_min 255 (Math_max 0 (val * 255)))).

Definition rgb2oklab (r g b : Z) : option (R * R * R) :=
  rL ← TABLE_sRGBToLinear r;
  gL ← TABLE_sRGBToLinear g;
  bL ← TABLE_sRGBToLinear b;
  let l_ := 0.4122214708 * rL + 0.5363325363 * gL + 0.0514459929 * bL in
  let m_ := 0.2119034982 * rL + 0.6806995451 * gL + 0.1073969566 * bL in
  let s_ := 0.0883024619 * rL + 0.2817188376 * gL + 0.6299787005 * bL in
  let l__ := Math_cbrt l_ in
  let m__ := Math_cbrt m_ in
  let s__ := Math_cbrt s_ in
  let L := 0.2104542553 * l__ + 0.7936177850 * m__ - 0.0040720468 * s__ in
  let a := 1.9779984951 * l__ - 2.4285922050 * m__ + 0.4505937099 * s__ in
  let b_val := 0.0259040371 * l__ + 0.7827717662 * m__ - 0.8086757660 * s__ in
  Some (L, a, b_val).

Definition oklab2rgb (L a b : R) : option (Z * Z * Z) :=
  let l_ := L + 0.3963377774 * a + 0.2158037573 * b in
  let m_ := L - 0.1055613458 * a - 0.0638541728 * b in
  let s_ := L - 0.0894841775 * a - 1.2914855480 * b in
  let l__ := l_ * l_ * l_ in
  let m__ := m_ * m_ * m_ in
  let s__ := s_ * s_ * s_ in
  let rL := 4.0767416621 * l__ - 3.3077115913 * m__ + 0.2309699292 * s__ in
  let gL := -1.2684380046 * l__ + 2.6097574011 * m__ - 0.3413193965 * s__ in
  let bL := -0.0041960863 * l__ - 0.7034186147 * m__ + 1.7076147010 * s__ in
  r ← linearToSRGB rL;
  g ← linearToSRGB gL;
  b ← linearToSRGB bL;
  Some (r, g, b).

Definition rgb2lab := rgb2oklab.
Definition lab2rgb := oklab2rgb.

(** ** Typed arrays and the [for (i = 0; i < n; i += 4)] loops *)

(** Offsets visited by a loop that starts at 0 and steps by 4 below [n]. *)
Definition offsets (n : nat) : list nat :=
  (λ k, 4 * k)%nat <$> seq 0 ((n + 3) / 4).

(** [data[i]], [data[i + 1]], [data[i + 2]].  A read past the end is
    [undefined] in the host and poisons the arithmetic that follows; the
    model stops there with [None]. *)
Definition read_rgb (data : list Z) (i : nat) : option (Z * Z * Z) :=
  r ← data !! i;
  g ← data !! (i + 1)%nat;
  b ← data !! (i + 2)%nat;
  Some (r, g, b).

(** Runs [body] at every offset in turn, threading the loop state. *)
Fixpoint for_each {S : Type} (body : nat → S → option S)
    (offs : list nat) (s : S) : option S :=
  match offs with
  | [] => Some s
  | i :: offs' => s' ← body i s; for_each body offs' s'
  end.

(** [xs.reduce(f, init)] *)
Fixpoint reduce {A B : Type} (f : B → A → option B) (init : B) (xs : list A)
    : option B :=
  match xs with
  | [] => Some init
  | c :: xs' => a ← f init c; reduce f a xs'
  end.

(** ** Statistics extractor *)

Record ColorStats : Type := mkStats {
  mean : R * R * R;
  std : R * R * R
}.

(** Channel [i] of a three-element array; channels are 0, 1 and 2. *)
Definition at3 (v : R * R * R) (i : nat) : R :=
  match i with
  | O => v.1.1
  | S O => v.1.2
  | _ => v.2
  end.

(** The three growing arrays [lVals], [aVals] and [bVals]. *)
Record Vals : Type := mkVals {
  lVals : list R;
  aVals : list R;
  bVals : list R
}.

Definition push (v : Vals) (lab : R * R * R) : Vals :=
  let '(l, a, bb) := lab in
  mkVals (lVals v ++ [l]) (aVals v ++ [a]) (bVals v ++ [bb]).

Section Stats.

(** The converter in scope and the [continue] tests of the loop differ
    between revisions; the rest of [computeStats] is shared. *)
Variable rgb2lab_ : Z → Z → Z → option (R * R * R).
Variable skip : Z → Z → Z → bool.

Definition collect_body (data : list Z) (i : nat) (v : Vals) : option Vals :=
  '(r, g, b) ← read_rgb data i;
  if skip r g b then Some v
  else lab ← rgb2lab_ r g b; Some (push v lab).

Definition collect (data : list Z) : option Vals :=
  for_each (collect_body data) (offsets (length data)) (mkVals [] [] []).

Definition stats_of (v : Vals) : option ColorStats :=
  let n := length (lVals v) in
  if decide (n = 0%nat) then Some (mkStats (0, 0, 0) (1, 1, 1))
  else
    meanL ← reduce (λ a c, Some (a + c)) 0 (lVals v) ≫= λ s, div s (INR n);
    meanA ← reduce (λ a c, Some (a + c)) 0 (aVals v) ≫= λ s, div s (INR n);
    meanB ← reduce (λ a c, Some (a + c)) 0 (bVals v) ≫= λ s, div s (INR n);
    varL ← reduce (λ a c, p ← Math_pow (c - meanL) 2; Some (a + p)) 0 (lVals v)
           ≫= λ s, div s (INR n);
    varA ← reduce (λ a c, p ← Math_pow (c - meanA) 2; Some (a + p)) 0 (aVals v)
           ≫= λ s, div s (INR n);
    varB ← reduce (λ a c, p ← Math_pow (c - meanB) 2; Some (a + p)) 0 (bVals v)
           ≫= λ s, div s (INR n);
    stdL ← Math_sqrt varL;
    stdA ← Math_sqrt varA;
    stdB ← Math_sqrt varB;
    Some (mkStats (meanL, meanA, meanB) (stdL, stdA, stdB)).

Definition computeStats_with (data : list Z) : option ColorStats :=
  collect data ≫= stats_of.

End Stats.

(** [computeStats] of the current revision: both [continue] tests are
    commented out, every pixel is sampled. *)
Definition computeStats (data : list Z) : option ColorStats :=
  computeStats_with rgb2lab (λ _ _ _, false) data.

(** The two [continue] tests of the first revision. *)
Definition clipped (r g b : Z) : bool :=
  (bool_decide (r > 250)%Z && bool_decide (g > 250)%Z && bool_decide (b > 250)%Z)
  || (bool_decide (r < 5)%Z && bool_decide (g < 5)%Z && bool_decide (b < 5)%Z).

(** The converter of the first revision (log-domain cone space). *)
Module Rev1.

Definition sRGBToLinear (x : Z) : option R :=
  let x := IZR x / 255 in
  if Rle_dec x 0.04045 then Some (x / 12.92)
  else Math_pow ((x + 0.055) / 1.055) 2.4.

Definition rgb2lab (r g b : Z) : option (R * R * R) :=
  r ← sRGBToLinear r;
  g ← sRGBToLinear g;
  b ← sRGBToLinear b;
  let EPSILON := 0.0001 in
  let L := Math_max EPSILON (0.3811 * r + 0.5783 * g + 0.0402 * b) in
  let M := Math_max EPSILON (0.1967 * r + 0.7244 * g + 0.0782 * b) in
  let S := Math_max EPSILON (0.0241 * r + 0.1288 * g + 0.8444 * b) in
  l_ ← Math_log10 L;
  m_ ← Math_log10 M;
  s_ ← Math_log10 S;
  let l := 0.5774 * l_ + 0.5774 * m_ + 0.5774 * s_ in
  let a := 0.4082 * l_ + 0.4082 * m_ + -0.8165 * s_ in
  let b_ := 0.7071 * l_ + -0.7071 * m_ + 0.0000 * s_ in
  Some (l, a, b_).

(** [computeStats] of the first revision: clipped pixels are always
    skipped. *)
Definition computeStats (data : list Z) : option ColorStats :=
  computeStats_with rgb2lab clipped data.

End Rev1.

(** ** Transfer coefficients of [processImageBuffer] *)

Definition SCALE_CAP : R := 3.0.
Definition REF_STD_CAP : R := 0.18.
Definition BLEND_STD : R := 0.95.
Definition BLEND_MEAN_L : R := 0.8.
Definition BLEND_MEAN_C : R := 0.8.

(** [k = intensity / 114.0] *)
Definition k (intensity : R) : R := intensity / 114.0.

(** [crushMinFactor], after its clamp at 0. *)
Definition crushMinFactor (shadowStrength : R) : R :=
  let crushMinFactor := 1.0 - (shadowStrength / 100.0) * 1.4 in
  Math_max 0 crushMinFactor.

(** [effectiveRefStdL], [effectiveRefStdA], [effectiveRefStdB] for
    channels 0, 1, 2. *)
Definition effectiveRefStd (refStats : ColorStats) (i : nat) : R :=
  Math_min (at3 (std refStats) i) REF_STD_CAP.

(** [rawScaleL], [rawScaleA], [rawScaleB] *)
Definition rawScale (refStats tgtStats : ColorStats) (i : nat) : option R :=
  if Rgt_dec (at3 (std tgtStats) i) 0.01
  then q ← div (effectiveRefStd refStats i) (at3 (std tgtStats) i);
       Some (Math_min SCALE_CAP q)
  else Some 1.

Record Coefficients : Type := mkCoefficients {
  A_L : R; B_L : R;
  A_a : R; B_a : R;
  A_b : R; B_b : R;
  crush_min : R
}.

(** Everything [processImageBuffer] computes before its pixel loop. *)
Definition coefficients (refStats tgtStats : ColorStats)
    (intensity shadowStrength : R) : option Coefficients :=
  let k := k intensity in
  let crushMinFactor := crushMinFactor shadowStrength in
  rawScaleL ← rawScale refStats tgtStats 0;
  rawScaleA ← rawScale refStats tgtStats 1;
  rawScaleB ← rawScale refStats tgtStats 2;
  let scaleL_std := 1.0 + (rawScaleL - 1.0) * BLEND_STD in
  let scaleA_std := 1.0 + (rawScaleA - 1.0) * BLEND_STD in
  let scaleB_std := 1.0 + (rawScaleB - 1.0) * BLEND_STD in
  let A_L := 1 + (scaleL_std - 1) * k in
  let B_L := (at3 (mean refStats) 0 - at3 (mean tgtStats) 0 * scaleL_std)
             * k * BLEND_MEAN_L in
  let A_a := 1 + (scaleA_std - 1) * k in
  let B_a := (at3 (mean refStats) 1 - at3 (mean tgtStats) 1 * scaleA_std)
             * k * BLEND_MEAN_C in
  let A_b := 1 + (scaleB_std - 1) * k in
  let B_b := (at3 (mean refStats) 2 - at3 (mean tgtStats) 2 * scaleB_std)
             * k * BLEND_MEAN_C in
  Some (mkCoefficients A_L B_L A_a B_a A_b B_b crushMinFactor).

(** ** The body of the pixel loop *)

(** Contrast lift around 0.5. *)
Definition contrastLift (l_new : R) : R := (l_new - 0.5) * 1.1 + 0.5.

(** Shadow crush below 0.65. *)
Definition shadowCrush (crushMinFactor l_new : R) : R :=
  if Rlt_dec l_new 0.65 then
    let crush := crushMinFactor + (l_new / 0.65) * (1.0 - crushMinFactor) in
    l_new * crush
  else l_new.

(** Luminance-masking weight, from the lightness of the source pixel. *)
Definition maskWeight (l : R) : R :=
  if Rgt_dec l 0.90 then Math_max 0 (1.0 - (l - 0.90) * 10.0)
  else if Rlt_dec l 0.08 then Math_max 0 (l * 12.5)
  else 1.0.

Definition transformLab (c : Coefficients) (lab : R * R * R) : R * R * R :=
  let '(l, a, b) := lab in
  let l_new := l * A_L c + B_L c in
  let a_new_raw := a * A_a c + B_a c in
  let b_new_raw := b * A_b c + B_b c in
  let l_new := contrastLift l_new in
  let l_new := shadowCrush (crush_min c) l_new in
  let weight := maskWeight l in
  let a_final := a + (a_new_raw - a) * weight in
  let b_final := b + (b_new_raw - b) * weight in
  (l_new, a_final, b_final).

Definition transformPixel (c : Coefficients) (r g b : Z) : option (Z * Z * Z) :=
  lab ← rgb2lab r g b;
  let '(l_new, a_final, b_final) := transformLab c lab in
  lab2rgb l_new a_final b_final.

(** ** Pixel buffers *)

(** Typed arrays live in a store and are named by their address, so that
    two [ImageData] objects may or may not share their bytes. *)
Abbreviation store := (gmap nat (list Z)).

Record ImageData : Type := mkImageData {
  data : nat;
  width : nat;
  height : nat
}.

(** [new Uint8ClampedArray(src)]: a fresh array holding a copy. *)
Definition new_Uint8ClampedArray (src : list Z) (σ : store) : nat * store :=
  let a := fresh (dom σ) in (a, <[a := src]> σ).

(** [new ImageData(array, sw, sh)]; the constructor throws unless the array
    holds exactly [4 * sw * sh] bytes and is not empty. *)
Definition new_ImageData (a : nat) (sw sh : nat) (σ : store) : option ImageData :=
  arr ← σ !! a;
  guard (length arr = (4 * sw * sh)%nat ∧ length arr ≠ 0%nat);;
  Some (mkImageData a sw sh).

(** One turn of the loop over [outData]: three reads, three stores. *)
Definition pixel_body (c : Coefficients) (out : nat) (i : nat) (σ : store)
    : option store :=
  outData ← σ !! out;
  '(r0, g0, b0) ← read_rgb outData i;
  '(r, g, bb) ← transformPixel c r0 g0 b0;
  let outData := <[i := ToUint8Clamp r]> outData in
  let outData := <[(i + 1)%nat := ToUint8Clamp g]> outData in
  let outData := <[(i + 2)%nat := ToUint8Clamp bb]> outData in
  Some (<[out := outData]> σ).

(** [processImageBuffer]; [shadowStrength] is the optional fifth argument
    with default 50.  [None] stands for a thrown exception or a number
    that is not finite. *)
Definition processImageBuffer (imgData : ImageData)
    (refStats tgtStats : ColorStats) (intensity : R)
    (shadowStrength : option R) (σ : store) : option (ImageData * store) :=
  let shadowStrength := default 50 shadowStrength in
  src ← σ !! data imgData;
  let '(arr, σ) := new_Uint8ClampedArray src σ in
  output ← new_ImageData arr (width imgData) (height imgData) σ;
  let outData := data output in
  c ← coefficients refStats tgtStats intensity shadowStrength;
  n ← length <$> σ !! outData;
  σ ← for_each (pixel_body c outData) (offsets n) σ;
  Some (output, σ).

(** ** Batch and cache controller *)

Definition RESIZE_LONG_EDGE : nat := 3000.

Record ResultState : Type := mkResult {
  name : string;
  originalUrl : string;
  resultUrl : string;
  intensity : R;
  shadow : R;
  id : nat
}.

Definition set_intensity (val : R) (r : ResultState) : ResultState :=
  mkResult (name r) (originalUrl r) (resultUrl r) val (shadow r) (id r).

Definition set_shadow (val : R) (r : ResultState) : ResultState :=
  mkResult (name r) (originalUrl r) (resultUrl r) (intensity r) val (id r).

Definition set_resultUrl (u : string) (r : ResultState) : ResultState :=
  mkResult (name r) (originalUrl r) u (intensity r) (shadow r) (id r).

(** A 2D canvas with what was drawn on it. *)
Record Canvas : Type := mkCanvas {
  pixels : list Z;
  canvas_width : nat;
  canvas_height : nat
}.

(** An entry of [imageCache.current]. *)
Record CacheEntry : Type := mkEntry {
  entry_ctx : Canvas;
  entry_width : nat;
  entry_height : nat;
  entry_tgtStats : ColorStats;
  entry_refStats : ColorStats
}.

(** How the work of a slider handler ends: its timer callback returns, or
    an exception leaves the callback.  The handler itself has returned by
    then, so the exception is an unhandled rejection and nothing catches
    it: both ways carry the state and the store that are left behind. *)
Inductive completion (A : Type) : Type :=
  | Normal (a : A)
  | Throw (a : A).
Arguments Normal {A} a.
Arguments Throw {A} a.

(** What is left behind, however the work ended. *)
Definition left_behind {A : Type} (c : completion A) : A :=
  match c with
  | Normal a => a
  | Throw a => a
  end.

Section Controller.

(** What the browser provides: decoded images, drawing with resampling,
    JPEG encoding of a canvas, and two string operations (dropping a file
    extension, the part of a data URL after its comma). *)
Variable HTMLImageElement : Type.
Variable img_width img_height : HTMLImageElement → nat.
Variable drawImage : HTMLImageElement → nat → nat → list Z.
Variable toDataURL : list Z → nat → nat → R → string.
Variable strip_extension : string → string.
Variable after_comma : string → string.

Record ImageState : Type := mkImageState {
  file_name : string;
  url : string;
  element : HTMLImageElement
}.

(** The component's state and refs that the engine reads or writes. *)
Record AppState : Type := mkApp {
  reference : option ImageState;
  targets : list ImageState;
  results : list ResultState;
  errorMessage : option string;
  imageCache : gmap nat CacheEntry
}.

Definition setResults (f : list ResultState → list ResultState)
    (st : AppState) : AppState :=
  mkApp (reference st) (targets st) (f (results st)) (errorMessage st)
    (imageCache st).

Definition setErrorMessage (m : option string) (st : AppState) : AppState :=
  mkApp (reference st) (targets st) (results st) m (imageCache st).

(** [resizeImageCanvas].  The scaled side is the exact quotient and
    product, rounded.  The binary64 quotient and product of the source
    are within a relative 3e-16 of it, and for the 32-bit sides a browser
    reports an exact scaled side is a half-integer or at least 1e-10 away
    from one: the source rounds to the same integer, except at a
    half-integer, where it may go either way. *)
Definition resizeImageCanvas (img : HTMLImageElement) (longEdge : nat)
    : option Canvas :=
  let width := img_width img in
  let height := img_height img in
  '(width, height) ←
    (if decide (longEdge < width ∨ longEdge < height)%nat then
       if decide (height < width)%nat
       then q ← div (INR longEdge) (INR width);
            Some (longEdge, Z.to_nat (Math_round (INR height * q)))
       else q ← div (INR longEdge) (INR height);
            Some (Z.to_nat (Math_round (INR width * q)), longEdge)
     else Some (width, height));
  Some (mkCanvas (drawImage img width height) width height).

(** [ctx.getImageData(0, 0, sw, sh)]: a new [ImageData] over a copy of the
    canvas' pixels; the host throws when a side is 0. *)
Definition getImageData (c : Canvas) (sw sh : nat) (σ : store)
    : option (ImageData * store) :=
  guard (sw ≠ 0 ∧ sh ≠ 0)%nat;;
  let '(a, σ) := new_Uint8ClampedArray (pixels c) σ in
  Some (mkImageData a sw sh, σ).

(** [computeStats(ctx, width, height)] on a canvas: its first statement is
    the [getImageData] above, the rest works on the bytes read. *)
Definition computeStats_ctx (c : Canvas) (sw sh : nat) : option ColorStats :=
  guard (sw ≠ 0 ∧ sh ≠ 0)%nat;;
  computeStats (pixels c).

(** The same for [computeStats] of the first revision, which starts with
    the same [getImageData]. *)
Definition Rev1_computeStats_ctx (c : Canvas) (sw sh : nat)
    : option ColorStats :=
  guard (sw ≠ 0 ∧ sh ≠ 0)%nat;;
  Rev1.computeStats (pixels c).

(** The timer callback of the two slider handlers, which the source
    writes out twice: look the image up, process the cached preview with the
    given parameters, publish the new URL.  The guard returns silently when
    the target or its cache entry is missing.  [seen] is the state of the
    render that created the handler, [st] the state when the callback runs.
    When the processing throws, the state is left as the callback found it
    (the buffers allocated until then are garbage and the store is given
    back as it was).  The delay of the timer is not modelled. *)
Definition reprocess (id_ : nat) (intensity_ shadow_ : R)
    (seen : AppState) (st : AppState) (σ : store)
    : completion (AppState * store) :=
  match targets seen !! id_, imageCache st !! id_ with
  | Some target, Some e =>
      match
        '(imgData, σ) ← getImageData (entry_ctx e) (entry_width e) (entry_height e) σ;
        '(processed, σ) ← processImageBuffer imgData (entry_refStats e)
                            (entry_tgtStats e) intensity_ (Some shadow_) σ;
        px ← σ !! data processed;
        Some (toDataURL px (entry_width e) (entry_height e) 0.9, σ)
      with
      | Some (u, σ) =>
          Normal (setResults (fmap (λ r, if decide (id r = id_)
                                         then set_resultUrl u r else r)) st, σ)
      | None => Throw (st, σ)
      end
  | _, _ => Normal (st, σ)
  end.

Definition handleIntensityChange (id_ : nat) (val : R)
    (st : AppState) (σ : store) : completion (AppState * store) :=
  let st' := setResults (fmap (λ r, if decide (id r = id_)
                                    then set_intensity val r else r)) st in
  let resInfo := find (λ r, bool_decide (id r = id_)) (results st) in
  let currentShadow := default 50 (shadow <$> resInfo) in
  reprocess id_ val currentShadow st st' σ.

Definition handleShadowChange (id_ : nat) (val : R)
    (st : AppState) (σ : store) : completion (AppState * store) :=
  let st' := setResults (fmap (λ r, if decide (id r = id_)
                                    then set_shadow val r else r)) st in
  let resInfo := find (λ r, bool_decide (id r = id_)) (results st) in
  let currentIntensity := default 50 (intensity <$> resInfo) in
  reprocess id_ currentIntensity val st st' σ.

(** One turn of the loop of [handleDownloadZip]: target [i] is resized to
    the export edge and processed with the intensity of [results[i]];
    no shadow strength is passed. *)
Definition zipEntry (refStats : ColorStats) (st : AppState) (i : nat)
    (σ : store) : option (string * string * store) :=
  target ← targets st !! i;
  res ← results st !! i;
  tgtResized ← resizeImageCanvas (element target) RESIZE_LONG_EDGE;
  tgtStats ← computeStats_ctx tgtResized (canvas_width tgtResized)
               (canvas_height tgtResized);
  '(imgData, σ) ← getImageData tgtResized (canvas_width tgtResized)
                    (canvas_height tgtResized) σ;
  '(processed, σ) ← processImageBuffer imgData refStats tgtStats
                      (intensity res) None σ;
  px ← σ !! data processed;
  let fullResUrl := toDataURL px (canvas_width tgtResized)
                      (canvas_height tgtResized) 0.92 in
  Some (strip_extension (file_name target) +:+ "_adjusted.jpg",
        after_comma fullResUrl, σ).

(** [zip.file(name, data, { base64: true })].  JSZip is not part of the
    repository; by its documentation the call adds the entry, or replaces
    the entry that has this name. *)
Definition zip_file (name data : string) (zip : gmap string string)
    : gmap string string :=
  <[name := data]> zip.

Fixpoint zipEntries (refStats : ColorStats) (st : AppState) (is_ : list nat)
    (σ : store) (zip : gmap string string)
    : option (gmap string string * store) :=
  match is_ with
  | [] => Some (zip, σ)
  | i :: rest =>
      '(n, u, σ) ← zipEntry refStats st i σ;
      zipEntries refStats st rest σ (zip_file n u zip)
  end.

(** [handleDownloadZip]: the archive, or [msgZipFail] in [errorMessage]
    when anything in the [try] block throws (the buffers allocated until
    then are garbage and the store is given back as it was). *)
Definition handleDownloadZip (msgZipFail : string) (st : AppState) (σ : store)
    : AppState * store * option (gmap string string) :=
  match reference st with
  | None => (st, σ, None)
  | Some ref =>
      if decide (length (targets st) = 0 ∨ length (results st) = 0)%nat
      then (st, σ, None)
      else
        match
          refResized ← resizeImageCanvas (element ref) RESIZE_LONG_EDGE;
          refStats ← computeStats_ctx refResized (canvas_width refResized)
                       (canvas_height refResized);
          zipEntries refStats st (seq 0 (length (targets st))) σ ∅
        with
        | Some (zip, σ') => (st, σ', Some zip)
        | None => (setErrorMessage (Some msgZipFail) st, σ, None)
        end
  end.

End Controller.

(** ** The extractor as the specification words it

    [extract(image, exclude_extremes)]: the pixels of the image, those with
    all channels within a few counts of 0 or of 255 left out when the flag
    is set (the counts are those of [clipped]); per-channel mean from the
    sums, variance in a second pass, and the sentinel when nothing is
    left. *)

Fixpoint rgba_pixels (data : list Z) : list (Z * Z * Z) :=
  match data with
  | r :: g :: b :: _ :: rest => (r, g, b) :: rgba_pixels rest
  | _ => []
  end.

Definition Rsum (xs : list R) : R := foldr Rplus 0 xs.

Definition mean_of (xs : list R) : R := Rsum xs / INR (length xs).

Definition std_of (xs : list R) : R :=
  let m := mean_of xs in
  sqrt (Rsum ((λ x, (x - m) * (x - m)) <$> xs) / INR (length xs)).

Definition extract_with (to_working : Z → Z → Z → option (R * R * R))
    (data : list Z) (exclude_extremes : bool) : option ColorStats :=
  let population :=
    filter (λ p, ¬ (exclude_extremes ∧ clipped p.1.1 p.1.2 p.2))
           (rgba_pixels data) in
  labs ← mapM (λ p, to_working p.1.1 p.1.2 p.2) population;
  match labs with
  | [] => Some (mkStats (0, 0, 0) (1, 1, 1))
  | _ =>
      let ls := (λ t, t.1.1) <$> labs in
      let as_ := (λ t, t.1.2) <$> labs in
      let bs := (λ t, t.2) <$> labs in
      Some (mkStats (mean_of ls, mean_of as_, mean_of bs)
                    (std_of ls, std_of as_, std_of bs))
  end.

Definition extract : list Z → bool → option ColorStats := extract_with rgb2lab.

(** ** Auxiliary definitions for the proofs *)

(** A byte of a [Uint8ClampedArray]. *)
Definition byte (z : Z) : Prop := (0 <= z <= 255)%Z.

(** The three arrays after pushing a list of converted pixels. *)
Definition pushes (v : Vals) (labs : list (R * R * R)) : Vals :=
  foldl push v labs.

(** The converted pixels that [collect] keeps, in order. *)
Definition sampled (conv : Z → Z → Z → option (R * R * R))
    (skip : Z → Z → Z → bool) (data : list Z) : option (list (R * R * R)) :=
  mapM (λ p, conv p.1.1 p.1.2 p.2)
    (filter (λ p, ¬ skip p.1.1 p.1.2 p.2) (rgba_pixels data)).

(** The fallback statistics. *)
Definition sentinel : ColorStats := mkStats (0, 0, 0) (1, 1, 1).

Definition valid_stats (s : ColorStats) : Prop :=
  0 <= at3 (std s) 0 /\ 0 <= at3 (std s) 1 /\ 0 <= at3 (std s) 2.

(** The bytes of a buffer after the pixel loop, pixel by pixel. *)
Fixpoint map_pixels (c : Coefficients) (d : list Z) : option (list Z) :=
  match d with
  | r0 :: g0 :: b0 :: a :: rest =>
      '(r, g, bb) ← transformPixel c r0 g0 b0;
      rest' ← map_pixels c rest;
      Some (ToUint8Clamp r :: ToUint8Clamp g :: ToUint8Clamp bb :: a :: rest')
  | _ => Some d
  end.

(** ** Inputs used in examples *)

(** A nearly flat reference and a target with ten times its spread. *)
Definition flat_ref : ColorStats := mkStats (0.5, 0, 0) (0.01, 0.01, 0.01).
Definition wide_tgt : ColorStats := mkStats (0.5, 0, 0) (0.1, 0.1, 0.1).

(** A black reference and a target of mean lightness 1, both uniform. *)
Definition dark_ref : ColorStats := mkStats (0, 0, 0) (0, 0, 0).
Definition bright_tgt : ColorStats := mkStats (1, 0, 0) (0, 0, 0).

(** One target is loaded and no batch has run yet. *)
Definition not_yet_processed : AppState unit :=
  mkApp unit None [mkImageState unit "a.jpg" "blob:a" ()] [] None ∅.

(** An image of one opaque white pixel, and a store holding it at
    address 0. *)
Definition white_pixel : list Z := [255; 255; 255; 255]%Z.
Definition one_white : store := {[ 0%nat := white_pixel ]}.


(** ** The rest of the controller: batch processing and target list *)

Definition PREVIEW_EDGE : nat := 1000.
Definition MAX_TARGET_FILES : nat := 10.
Definition MAX_FILE_SIZE_MB : N := 15.

Section Batch.

Variable HTMLImageElement : Type.
Variable img_width img_height : HTMLImageElement → nat.
Variable drawImage : HTMLImageElement → nat → nat → list Z.
Variable toDataURL : list Z → nat → nat → R → string.

(** [setImageCache]: [imageCache.current = arg0]. *)
Definition setImageCache (c : gmap nat CacheEntry)
    (st : AppState HTMLImageElement) : AppState HTMLImageElement :=
  mkApp _ (reference _ st) (targets _ st) (results _ st) (errorMessage _ st) c.

Definition setTargets
    (f : list (ImageState HTMLImageElement) → list (ImageState HTMLImageElement))
    (st : AppState HTMLImageElement) : AppState HTMLImageElement :=
  mkApp _ (reference _ st) (f (targets _ st)) (results _ st) (errorMessage _ st)
    (imageCache _ st).

(** One turn of the loop of [executeColorTransfer], for target [i]: the
    preview canvas and its statistics, the cache entry written before the
    pixels are processed, then the result at intensity 50 and shadow
    strength 50.  [None] in the third place stands for an exception; the
    cache and the store are returned as they are at that point. *)
Definition processTarget (refStats : ColorStats) (i : nat)
    (target : ImageState HTMLImageElement)
    (cache : gmap nat CacheEntry) (σ : store)
    : gmap nat CacheEntry * store * option ResultState :=
  match
    previewResized ← resizeImageCanvas _ img_width img_height drawImage
                       (element _ target) PREVIEW_EDGE;
    tgtStats ← computeStats_ctx previewResized (canvas_width previewResized)
                 (canvas_height previewResized);
    Some (previewResized, tgtStats)
  with
  | None => (cache, σ, None)
  | Some (previewResized, tgtStats) =>
      let w := canvas_width previewResized in
      let h := canvas_height previewResized in
      let cache := <[i := mkEntry previewResized w h tgtStats refStats]> cache in
      match getImageData previewResized w h σ with
      | None => (cache, σ, None)
      | Some (imgData, σ1) =>
          match processImageBuffer imgData refStats tgtStats 50 (Some 50) σ1 with
          | None => (cache, σ1, None)
          | Some (processed, σ2) =>
              match σ2 !! data processed with
              | None => (cache, σ2, None)
              | Some px =>
                  (cache, σ2,
                   Some (mkResult (file_name _ target) (url _ target)
                           (toDataURL px w h 0.9) 50 50 i))
              end
          end
      end
  end.

(** The loop over the targets, from index [i] on; [newResults] grows by
    one result per turn. *)
Fixpoint processTargets (refStats : ColorStats) (i : nat)
    (ts : list (ImageState HTMLImageElement))
    (cache : gmap nat CacheEntry) (σ : store) (newResults : list ResultState)
    : gmap nat CacheEntry * store * option (list ResultState) :=
  match ts with
  | [] => (cache, σ, Some newResults)
  | target :: ts' =>
      match processTarget refStats i target cache σ with
      | (cache, σ, Some r) =>
          processTargets refStats (S i) ts' cache σ (newResults ++ [r])
      | (cache, σ, None) => (cache, σ, None)
      end
  end.

(** [executeColorTransfer]: nothing without a reference or without
    targets; otherwise the cache is emptied, the reference analysed, and
    the targets processed in order.  The results are replaced only when
    every target went through; an exception leaves ["Processing failed."]
    in [errorMessage]. *)
Definition executeColorTransfer (st : AppState HTMLImageElement) (σ : store)
    : AppState HTMLImageElement * store :=
  match reference _ st with
  | None => (st, σ)
  | Some ref =>
      if decide (length (targets _ st) = 0%nat) then (st, σ)
      else
        let st := setImageCache ∅ st in
        match
          refResized ← resizeImageCanvas _ img_width img_height drawImage
                         (element _ ref) RESIZE_LONG_EDGE;
          computeStats_ctx refResized (canvas_width refResized)
            (canvas_height refResized)
        with
        | None => (setErrorMessage _ (Some "Processing failed.") st, σ)
        | Some refStats =>
            match processTargets refStats 0 (targets _ st) ∅ σ [] with
            | (cache, σ, Some newResults) =>
                (setResults _ (λ _, newResults) (setImageCache cache st), σ)
            | (cache, σ, None) =>
                (setErrorMessage _ (Some "Processing failed.")
                   (setImageCache cache st), σ)
            end
        end
  end.

End Batch.

(** ** Adding targets *)

Section FileSelect.

(** What the browser provides for a dropped or selected file: its name and
    size, whether the lower-cased name ends in an accepted extension, and
    in [.heic] or [.heif]; whether the HEIC conversion goes through; the
    object URL made for it; and the image [loadImage] resolves to, if it
    does.  [heic_to_jpg] is [name.replace(/\.(heic|heif)$/i, '.jpg')]. *)
Variable HTMLImageElement : Type.
Variable img_width img_height : HTMLImageElement → nat.
Variable heic_to_jpg : string → string.

Record File : Type := mkFile {
  fname : string;
  fsize : N;
  hasValidExt : bool;
  isHeic : bool;
  heicConverts : bool;
  objectUrl : string;
  loadImage : option HTMLImageElement
}.

(** [validateAndProcessFile]: [None] is its [null]; otherwise the name
    the handler gives to [fileObj], which is the file itself, or the
    converted blob under the name with [.jpg]. *)
Definition validateAndProcessFile (file : File) : option string :=
  if negb (hasValidExt file) then None
  else if decide (MAX_FILE_SIZE_MB * 1024 * 1024 < fsize file)%N then None
  else if isHeic file
       then (if heicConverts file then Some (heic_to_jpg (fname file)) else None)
       else Some (fname file).

(** One turn of the loop over the candidates: what it pushes to
    [newTargets] and to [failedLoads]. *)
Definition loadTarget (file : File)
    : list (ImageState HTMLImageElement) * list string :=
  match validateAndProcessFile file with
  | None => ([], [])
  | Some name_ =>
      match loadImage file with
      | Some img =>
          if decide (img_width img = 0 ∨ img_height img = 0)%nat
          then ([], [fname file])
          else ([mkImageState _ name_ (objectUrl file) img], [])
      | None => ([], [fname file])
      end
  end.

(** A message that JavaScript takes as true: not [null] and not empty. *)
Definition truthy (m : option string) : bool :=
  match m with
  | Some EmptyString | None => false
  | Some _ => true
  end.

(** [handleFileSelect(e, 'target')] on the files of the event; the three
    strings are the messages of the current language.  [errorMessage] in
    the last test is the one of the render that created the handler. *)
Definition handleFileSelect_target (msgInvalidExt msgLoadFail msgNoValid : string)
    (filesArray : list File) (st : AppState HTMLImageElement)
    : AppState HTMLImageElement :=
  if decide (filesArray = []) then st
  else
    let seen := st in
    let st := setErrorMessage _ None st in
    let unsupportedFiles := filter (λ f, hasValidExt f = false) filesArray in
    let st :=
      if decide (unsupportedFiles = []) then st
      else let names := String.concat ", " (fname <$> unsupportedFiles) in
           setErrorMessage _ (Some (msgInvalidExt +:+ names)) st in
    let candidates := take MAX_TARGET_FILES filesArray in
    let newTargets := concat ((λ f, (loadTarget f).1) <$> candidates) in
    let failedLoads := concat ((λ f, (loadTarget f).2) <$> candidates) in
    let st :=
      if decide (failedLoads = []) then st
      else let msg := msgLoadFail +:+ ": " +:+ String.concat ", " failedLoads in
           setErrorMessage _
             (Some (match errorMessage _ st with
                    | Some prev => if truthy (Some prev)
                                   then prev +:+ " | " +:+ msg else msg
                    | None => msg
                    end)) st in
    if decide (newTargets = [] ∧ filesArray ≠ [] ∧ failedLoads = []
               ∧ unsupportedFiles = [])
    then (if truthy (errorMessage _ seen) then st
          else setErrorMessage _ (Some msgNoValid) st)
    else setTargets _ (λ prev, take MAX_TARGET_FILES (prev ++ newTargets)) st.

End FileSelect.

(** ** Overflow

    The definitions above compute with exact reals, which cannot overflow.
    The ones below follow the same source lines and check every variable
    the source assigns against the largest finite binary64 number: [None]
    stands for an overflow, that is for the infinity the computation
    delivers there and the NaN it becomes downstream.  Rounding is not
    modelled; the bounds proved and refuted below are many orders of
    magnitude away from the threshold. *)

(** [Number.MAX_VALUE] *)
Definition MAX_VALUE : R := 1.7976931348623157e308.

Definition fin (x : R) : option R :=
  if Rle_dec (Rabs x) MAX_VALUE then Some x else None.

Module Finite.

Definition linearToSRGB (x : R) : option Z :=
  val ← (if Rle_dec x 0.0031308 then fin (x * 12.92)
         else p ← Math_pow x (1 / 2.4); fin (1.055 * p - 0.055));
  scaled ← fin (val * 255);
  Some (Math_round (Math_min 255 (Math_max 0 scaled))).

Definition rgb2oklab (r g b : Z) : option (R * R * R) :=
  rL ← TABLE_sRGBToLinear r;
  gL ← TABLE_sRGBToLinear g;
  bL ← TABLE_sRGBToLinear b;
  l_ ← fin (0.4122214708 * rL + 0.5363325363 * gL + 0.0514459929 * bL);
  m_ ← fin (0.2119034982 * rL + 0.6806995451 * gL + 0.1073969566 * bL);
  s_ ← fin (0.0883024619 * rL + 0.2817188376 * gL + 0.6299787005 * bL);
  let l__ := Math_cbrt l_ in
  let m__ := Math_cbrt m_ in
  let s__ := Math_cbrt s_ in
  L ← fin (0.2104542553 * l__ + 0.7936177850 * m__ - 0.0040720468 * s__);
  a ← fin (1.9779984951 * l__ - 2.4285922050 * m__ + 0.4505937099 * s__);
  b_val ← fin (0.0259040371 * l__ + 0.7827717662 * m__ - 0.8086757660 * s__);
  Some (L, a, b_val).

Definition oklab2rgb (L a b : R) : option (Z * Z * Z) :=
  l_ ← fin (L + 0.3963377774 * a + 0.2158037573 * b);
  m_ ← fin (L - 0.1055613458 * a - 0.0638541728 * b);
  s_ ← fin (L - 0.0894841775 * a - 1.2914855480 * b);
  l__ ← fin (l_ * l_ * l_);
  m__ ← fin (m_ * m_ * m_);
  s__ ← fin (s_ * s_ * s_);
  rL ← fin (4.0767416621 * l__ - 3.3077115913 * m__ + 0.2309699292 * s__);
  gL ← fin (-1.2684380046 * l__ + 2.6097574011 * m__ - 0.3413193965 * s__);
  bL ← fin (-0.0041960863 * l__ - 0.7034186147 * m__ + 1.7076147010 * s__);
  r ← linearToSRGB rL;
  g ← linearToSRGB gL;
  b ← linearToSRGB bL;
  Some (r, g, b).

Definition rawScale (refStats tgtStats : ColorStats) (i : nat) : option R :=
  if Rgt_dec (at3 (std tgtStats) i) 0.01
  then q ← div (effectiveRefStd refStats i) (at3 (std tgtStats) i);
       q ← fin q;
       Some (Math_min SCALE_CAP q)
  else Some 1.

Definition coefficients (refStats tgtStats : ColorStats)
    (intensity shadowStrength : R) : option Coefficients :=
  k ← fin (intensity / 114.0);
  crushMinFactor ← fin (1.0 - (shadowStrength / 100.0) * 1.4);
  let crushMinFactor := Math_max 0 crushMinFactor in
  rawScaleL ← rawScale refStats tgtStats 0;
  rawScaleA ← rawScale refStats tgtStats 1;
  rawScaleB ← rawScale refStats tgtStats 2;
  scaleL_std ← fin (1.0 + (rawScaleL - 1.0) * BLEND_STD);
  scaleA_std ← fin (1.0 + (rawScaleA - 1.0) * BLEND_STD);
  scaleB_std ← fin (1.0 + (rawScaleB - 1.0) * BLEND_STD);
  A_L ← fin (1 + (scaleL_std - 1) * k);
  B_L ← fin ((at3 (mean refStats) 0 - at3 (mean tgtStats) 0 * scaleL_std)
             * k * BLEND_MEAN_L);
  A_a ← fin (1 + (scaleA_std - 1) * k);
  B_a ← fin ((at3 (mean refStats) 1 - at3 (mean tgtStats) 1 * scaleA_std)
             * k * BLEND_MEAN_C);
  A_b ← fin (1 + (scaleB_std - 1) * k);
  B_b ← fin ((at3 (mean refStats) 2 - at3 (mean tgtStats) 2 * scaleB_std)
             * k * BLEND_MEAN_C);
  Some (mkCoefficients A_L B_L A_a B_a A_b B_b crushMinFactor).

Definition transformLab (c : Coefficients) (lab : R * R * R)
    : option (R * R * R) :=
  let '(l, a, b) := lab in
  l_new ← fin (l * A_L c + B_L c);
  a_new_raw ← fin (a * A_a c + B_a c);
  b_new_raw ← fin (b * A_b c + B_b c);
  l_new ← fin ((l_new - 0.5) * 1.1 + 0.5);
  l_new ← (if Rlt_dec l_new 0.65 then
             crush ← fin (crush_min c + (l_new / 0.65) * (1.0 - crush_min c));
             fin (l_new * crush)
           else Some l_new);
  weight ← (if Rgt_dec l 0.90 then
              w ← fin (1.0 - (l - 0.90) * 10.0); Some (Math_max 0 w)
            else if Rlt_dec l 0.08 then
              w ← fin (l * 12.5); Some (Math_max 0 w)
            else Some 1.0);
  a_final ← fin (a + (a_new_raw - a) * weight);
  b_final ← fin (b + (b_new_raw - b) * weight);
  Some (l_new, a_final, b_final).

Definition transformPixel (c : Coefficients) (r g b : Z) : option (Z * Z * Z) :=
  lab ← rgb2oklab r g b;
  '(l_new, a_final, b_final) ← transformLab c lab;
  oklab2rgb l_new a_final b_final.

End Finite.

(** Statistics and parameters within what the rest of the program
    delivers: means of at most 3 and deviations of at most 6 in size (the
    statistics [computeStats] returns are within that), sliders between 0
    and 100. *)
Definition bounded_stats (s : ColorStats) : Prop :=
  forall i : nat,
    Rabs (at3 (mean s) i) <= 3 /\ 0 <= at3 (std s) i <= 6.

Definition slider (v : R) : Prop := 0 <= v <= 100.

(** Coefficients within what such statistics and parameters give. *)
Definition bounded_coefficients (c : Coefficients) : Prop :=
  (0 <= A_L c <= 3 /\ 0 <= A_a c <= 3 /\ 0 <= A_b c <= 3)
  /\ (-9 <= B_L c <= 9 /\ -9 <= B_a c <= 9 /\ -9 <= B_b c <= 9)
  /\ 0 <= crush_min c <= 1.

(** The range of the working space on bytes. *)
Definition bounded_lab (lab : R * R * R) : Prop :=
  -0.01 <= lab.1.1 <= 1.01 /\ -2.5 <= lab.1.2 <= 2.5 /\ -0.9 <= lab.2 <= 0.9.

(** A reference of mean lightness [1e200]. *)
Definition huge_ref : ColorStats := mkStats (1e200, 0, 0) (0.1, 0.1, 0.1).

(** ** The first revision: per-pixel transfer and download size *)

Module Rev1App.

(** [lab2rgb] of the first revision, each variable it assigns checked
    against overflow; its [linearToSRGB] is, character for character, the
    one of the current revision. *)
Definition lab2rgb (l a b : R) : option (Z * Z * Z) :=
  l_ ← fin (0.5774 * l + 0.4082 * a + 0.7071 * b);
  m_ ← fin (0.5774 * l + 0.4082 * a + -0.7071 * b);
  s_ ← fin (0.5774 * l + -0.8165 * a + 0.0000 * b);
  L ← Math_pow 10 l_ ≫= fin;
  M ← Math_pow 10 m_ ≫= fin;
  S ← Math_pow 10 s_ ≫= fin;
  rLine ← fin (4.4679 * L + -3.5873 * M + 0.1193 * S);
  gLine ← fin (-1.2186 * L + 2.3809 * M + -0.1624 * S);
  bLine ← fin (0.0497 * L + -0.2439 * M + 1.2045 * S);
  r ← Finite.linearToSRGB rLine;
  g ← Finite.linearToSRGB gLine;
  b ← Finite.linearToSRGB bLine;
  Some (r, g, b).

(** [scaleL] of the pixel loops of [executeColorTransfer] and
    [handleDownload]. *)
Definition scaleL (refStats tgtStats : ColorStats) : option R :=
  if Req_dec_T (at3 (std tgtStats) 0) 0 then Some 1
  else q ← div (at3 (std refStats) 0) (at3 (std tgtStats) 0);
       Some (Math_min 3.0 (Math_max 0.3 q)).

(** [globalSatScale], after its clamp. *)
Definition globalSatScale (refStats tgtStats : ColorStats) : option R :=
  let refSatLvl := (at3 (std refStats) 1 + at3 (std refStats) 2) / 2 in
  let tgtSatLvl := (at3 (std tgtStats) 1 + at3 (std tgtStats) 2) / 2 in
  globalSatScale ← (if Req_dec_T tgtSatLvl 0 then Some 1
                    else div refSatLvl tgtSatLvl);
  Some (Math_min 1.25 (Math_max 0.3 globalSatScale)).

(** The transfer of one pixel in the working space. *)
Definition transferLab (refStats tgtStats : ColorStats) (lab : R * R * R)
    : option (R * R * R) :=
  let '(l, a, bb) := lab in
  scaleL ← scaleL refStats tgtStats;
  let L_BOOST := 0.03 in
  let l_new := (l - at3 (mean tgtStats) 0) * scaleL + at3 (mean refStats) 0
               + L_BOOST in
  globalSatScale ← globalSatScale refStats tgtStats;
  let a_new := (a - at3 (mean tgtStats) 1) * globalSatScale
               + at3 (mean tgtStats) 1 in
  let b_new := (bb - at3 (mean tgtStats) 2) * globalSatScale
               + at3 (mean tgtStats) 2 in
  Some (l_new, a_new, b_new).

(** The body of both pixel loops: bytes in, bytes out.  The two
    saturation levels and the transferred coordinates are checked against
    overflow; the quotients of [scaleL] and [globalSatScale] are not, an
    infinite quotient being clamped to the same bound as the real one. *)
Definition transferPixel (refStats tgtStats : ColorStats) (r g b : Z)
    : option (Z * Z * Z) :=
  lab ← Rev1.rgb2lab r g b;
  _ ← fin ((at3 (std refStats) 1 + at3 (std refStats) 2) / 2);
  _ ← fin ((at3 (std tgtStats) 1 + at3 (std tgtStats) 2) / 2);
  '(l_new, a_new, b_new) ← transferLab refStats tgtStats lab;
  l_new ← fin l_new;
  a_new ← fin a_new;
  b_new ← fin b_new;
  lab2rgb l_new a_new b_new.

(** Statistics within what the first revision's [computeStats] delivers:
    means and deviations of at most 7 in size. *)
Definition bounded_stats (s : ColorStats) : Prop :=
  forall i : nat,
    Rabs (at3 (mean s) i) <= 7 /\ 0 <= at3 (std s) i <= 7.



End Rev1App.

(** ** Further auxiliary definitions *)

(** The bytes [processImageBuffer] writes for the bytes [src] of a
    [w] by [h] image, whatever the store. *)
Definition processed_bytes (src : list Z) (w h : nat)
    (refStats tgtStats : ColorStats) (intensity_ shadowStrength : R)
    : option (list Z) :=
  guard (length src = (4 * w * h)%nat ∧ length src ≠ 0%nat);;
  c ← coefficients refStats tgtStats intensity_ shadowStrength;
  map_pixels c src.

(** A canvas as the host draws it: bytes, four per pixel. *)
Definition canvas_ok (c : Canvas) : Prop :=
  Forall byte (pixels c)
  /\ length (pixels c) = (4 * canvas_width c * canvas_height c)%nat.

(** Name of the archive entry of a target. *)
Definition entry_name {HTMLImageElement : Type}
    (strip_extension : string → string) (t : ImageState HTMLImageElement)
    : string :=
  strip_extension (file_name _ t) +:+ "_adjusted.jpg".

(** An image of [m] pixels, all of the colour [(r, g, b)] with alpha [a]. *)
Definition solid (m : nat) (r g b a : Z) : list Z :=
  concat (replicate m [r; g; b; a]).

(** The bytes of the picture drawn from a canvas read as [w] by [h]
    pixels: what [getImageData] followed by [processImageBuffer] leaves in
    the new array. *)
Definition rendered (c : Canvas) (w h : nat) (refStats tgtStats : ColorStats)
    (intensity_ shadowStrength : R) : option (list Z) :=
  guard (w ≠ 0 ∧ h ≠ 0)%nat;;
  processed_bytes (pixels c) w h refStats tgtStats intensity_ shadowStrength.

(** [prev.map(r => r.id === id ? f(r) : r)] *)
Definition update_id (id_ : nat) (f : ResultState → ResultState)
    (rs : list ResultState) : list ResultState :=
  (λ r, if decide (id r = id_) then f r else r) <$> rs.

(** The host draws bytes, four for each pixel of the canvas. *)
Definition draws_bytes {HTMLImageElement : Type}
    (drawImage : HTMLImageElement → nat → nat → list Z) : Prop :=
  forall (img : HTMLImageElement) (w h : nat),
    canvas_ok (mkCanvas (drawImage img w h) w h).

(** An image with positive sides whose long side is at most [2 * L] times
    its short side. *)
Definition resizable {HTMLImageElement : Type}
    (img_width img_height : HTMLImageElement → nat) (L : nat)
    (img : HTMLImageElement) : Prop :=
  (0 < img_width img)%nat /\ (0 < img_height img)%nat
  /\ (Nat.max (img_width img) (img_height img)
      <= 2 * Nat.min (img_width img) (img_height img) * L)%nat.

(** An image as the loaders accept it. *)
Definition positive_sides {HTMLImageElement : Type}
    (img_width img_height : HTMLImageElement → nat)
    (t : ImageState HTMLImageElement) : Prop :=
  (0 < img_width (element _ t))%nat /\ (0 < img_height (element _ t))%nat.

(** An image that is [resizable] with room to spare: the exact scaled
    short side is at least [1/2 + 1/(2 * long side)], which the rounding
    of the binary64 quotient and product (a relative error below 3e-16)
    cannot bring below 1/2 for sides up to 10^9. *)
Definition clearly_resizable {HTMLImageElement : Type}
    (img_width img_height : HTMLImageElement → nat) (L : nat)
    (img : HTMLImageElement) : Prop :=
  (0 < img_width img)%nat /\ (0 < img_height img)%nat
  /\ (Nat.max (img_width img) (img_height img)
      < 2 * Nat.min (img_width img) (img_height img) * L)%nat
  /\ (Z.of_nat (Nat.max (img_width img) (img_height img)) <= 1000000000)%Z.

(** What a turn of the batch loop that went through leaves for target [t]
    at index [i]: the cache entry [e] and the result [r]. *)
Definition preview_of {HTMLImageElement : Type}
    (img_width img_height : HTMLImageElement → nat)
    (drawImage : HTMLImageElement → nat → nat → list Z)
    (toDataURL : list Z → nat → nat → R → string)
    (refStats : ColorStats) (i : nat) (t : ImageState HTMLImageElement)
    (e : CacheEntry) (r : ResultState) : Prop :=
  exists (c : Canvas) (s : ColorStats) (px : list Z),
    resizeImageCanvas _ img_width img_height drawImage (element _ t) PREVIEW_EDGE
      = Some c
    /\ computeStats_ctx c (canvas_width c) (canvas_height c) = Some s
    /\ rendered c (canvas_width c) (canvas_height c) refStats s 50 50 = Some px
    /\ e = mkEntry c (canvas_width c) (canvas_height c) s refStats
    /\ r = mkResult (file_name _ t) (url _ t)
             (toDataURL px (canvas_width c) (canvas_height c) 0.9) 50 50 i.

(** ** Further inputs used in examples *)

(** A host whose images are one pixel wide and high, drawn as transparent
    black, and whose encoder returns a constant. *)
Definition one_px (_ : unit) : nat := 1.
Definition blank (_ : unit) (w h : nat) : list Z := replicate (4 * w * h) 0%Z.
Definition data_url (_ : list Z) (_ _ : nat) (_ : R) : string := "data:".

(** Images of 1 by 2001 pixels. *)
Definition sliver_height (_ : unit) : nat := 2001.

Definition ref_image : ImageState unit := mkImageState unit "r.jpg" "blob:r" ().
Definition tgt_image : ImageState unit := mkImageState unit "a.jpg" "blob:a" ().

(** A reference and one target are loaded, nothing is processed. *)
Definition ready : AppState unit := mkApp unit (Some ref_image) [tgt_image] [] None ∅.

(** The same with a result for the target, and with a second target added
    after that. *)
Definition shown : AppState unit :=
  mkApp unit (Some ref_image) [tgt_image]
    [mkResult "a.jpg" "blob:a" "data:" 50 50 0] None ∅.
Definition one_more : AppState unit :=
  mkApp unit (Some ref_image) [tgt_image; tgt_image]
    [mkResult "a.jpg" "blob:a" "data:" 50 50 0] None ∅.


(** One target with its result and a cached preview of one white pixel. *)
Definition cached : AppState unit :=
  mkApp unit None [tgt_image] [mkResult "a.jpg" "blob:a" "data:" 50 50 0] None
    {[ 0%nat := mkEntry (mkCanvas white_pixel 1 1) 1 1 wide_tgt flat_ref ]}.


(** * Properties *)

(** ** The [Math] functions *)

Lemma Rmin_cases (x y : R) : (x <= y /\ Rmin x y = x) \/ (y <= x /\ Rmin x y = y).
Proof. unfold Rmin. destruct (Rle_dec x y); lra. Qed.

Lemma Rmax_cases (x y : R) : (x <= y /\ Rmax x y = y) \/ (y <= x /\ Rmax x y = x).
Proof. unfold Rmax. destruct (Rle_dec x y); lra. Qed.

Ltac minmax_step x y cases :=
  let H := fresh "Hle" in
  let E := fresh "Heq" in
  destruct (cases x y) as [[H E]|[H E]]; rewrite E in *; clear E.

(** Splits every [Math.min] and [Math.max] in sight into its two cases. *)
Ltac minmax :=
  unfold Math_min, Math_max in *;
  repeat match goal with
  | |- context [Rmin ?x ?y] => minmax_step x y Rmin_cases
  | |- context [Rmax ?x ?y] => minmax_step x y Rmax_cases
  | _ : context [Rmin ?x ?y] |- _ => minmax_step x y Rmin_cases
  | _ : context [Rmax ?x ?y] |- _ => minmax_step x y Rmax_cases
  end.

Lemma Math_round_eq (x : R) (z : Z) :
  IZR z - / 2 <= x < IZR z + / 2 -> Math_round x = z.
Proof. intros H. unfold Math_round. apply Zfloor_eq. lra. Qed.

Lemma Math_round_IZR (z : Z) : Math_round (IZR z) = z.
Proof. apply Math_round_eq. lra. Qed.

Lemma Math_round_le (x y : R) : x <= y -> (Math_round x <= Math_round y)%Z.
Proof. intros. unfold Math_round. apply Zfloor_le. lra. Qed.

Lemma div_Some (x y : R) : y <> 0 -> div x y = Some (x / y).
Proof. intros Hy. unfold div. by destruct (Req_dec_T y 0). Qed.

Lemma Math_sqrt_Some (x : R) : 0 <= x -> Math_sqrt x = Some (sqrt x).
Proof. intros Hx. unfold Math_sqrt. by destruct (Rle_dec 0 x). Qed.

Lemma Math_log10_Some (x : R) : 0 < x -> Math_log10 x = Some (ln x / ln 10).
Proof. intros Hx. unfold Math_log10. by destruct (Rlt_dec 0 x). Qed.

Lemma Math_pow_pos (x y : R) : 0 < x -> Math_pow x y = Some (Rpower x y).
Proof. intros. unfold Math_pow. destruct (Rlt_dec 0 x); [done|lra]. Qed.

Lemma Math_pow_2 (x : R) : Math_pow x 2 = Some (x * x).
Proof.
  unfold Math_pow. destruct (Rlt_dec 0 x) as [Hx|Hx].
  - f_equal. replace 2 with (INR 2) by (simpl; lra).
    rewrite Rpower_pow by done. simpl. lra.
  - change 2 with (IZR 2). rewrite ZfloorZ.
    destruct (Req_dec_T _ _) as [_|Hn]; [|done].
    destruct (Req_dec_T x 0) as [->|_].
    + destruct (Rlt_dec (IZR 2) 0); [lra|]. f_equal. simpl. lra.
    + f_equal. simpl. lra.
Qed.

Lemma Rpower_pos (x y : R) : 0 < Rpower x y.
Proof. unfold Rpower. apply exp_pos. Qed.

Lemma Rpower_1_l (y : R) : Rpower 1 y = 1.
Proof. unfold Rpower. rewrite ln_1, Rmult_0_r. apply exp_0. Qed.

(** ** Cubes and cube roots *)

Lemma Rpower_third_cube (x : R) :
  0 < x -> Rpower x (/ 3) * Rpower x (/ 3) * Rpower x (/ 3) = x.
Proof.
  intros Hx. rewrite <- !Rpower_plus. replace (/ 3 + / 3 + / 3) with 1 by lra.
  by apply Rpower_1.
Qed.

Lemma Math_cbrt_cube (x : R) : Math_cbrt x * Math_cbrt x * Math_cbrt x = x.
Proof.
  unfold Math_cbrt. destruct (Rlt_dec 0 x) as [Hx|Hx].
  - by apply Rpower_third_cube.
  - destruct (Rlt_dec x 0) as [Hn|Hn].
    + assert (H := Rpower_third_cube (- x) ltac:(lra)). nra.
    + lra.
Qed.

Lemma Math_cbrt_nonneg (x : R) : 0 <= x -> 0 <= Math_cbrt x.
Proof.
  intros Hx. unfold Math_cbrt. destruct (Rlt_dec 0 x).
  - left. apply Rpower_pos.
  - destruct (Rlt_dec x 0); lra.
Qed.

Lemma cube_le (x y : R) : 0 <= x <= y -> x * x * x <= y * y * y.
Proof.
  intros [H0 Hxy].
  assert (x * x <= y * y) by nra.
  assert (0 <= x * x) by nra.
  nra.
Qed.

(** Cubes of numbers in an interval. *)
Lemma cubes_in (lo hi x : R) :
  0 <= lo -> lo <= x <= hi -> lo * lo * lo <= x * x * x <= hi * hi * hi.
Proof. intros Hlo [Hl Hh]. split; apply cube_le; lra. Qed.

Lemma cube_lt (x y : R) : 0 <= x < y -> x * x * x < y * y * y.
Proof.
  intros [H0 Hxy].
  replace (y * y * y - 0) with (y * y * y) by lra.
  assert (0 < (y - x) * (y * y + y * x + x * x)) as H.
  { apply Rmult_lt_0_compat; [lra|nra]. }
  replace ((y - x) * (y * y + y * x + x * x)) with (y * y * y - x * x * x) in H by ring.
  lra.
Qed.

Lemma Math_cbrt_bounds (lo hi x : R) :
  0 <= lo -> 0 <= hi -> lo * lo * lo <= x <= hi * hi * hi ->
  lo <= Math_cbrt x <= hi.
Proof.
  intros Hlo Hhi [Hl Hh].
  assert (0 <= x) as Hx.
  { assert (0 <= lo * lo * lo); [|lra]. apply Rmult_le_pos; [apply Rmult_le_pos|]; lra. }
  pose proof (Math_cbrt_nonneg x Hx) as Hc. pose proof (Math_cbrt_cube x) as Hcube.
  set (c := Math_cbrt x) in *. split.
  - destruct (Rle_lt_dec lo c) as [|Hlt]; [done|].
    pose proof (cube_lt c lo ltac:(lra)). lra.
  - destruct (Rle_lt_dec c hi) as [|Hlt]; [done|].
    pose proof (cube_lt hi c ltac:(lra)). lra.
Qed.

Lemma Math_cbrt_unit (x : R) : 0 <= x <= 1 -> 0 <= Math_cbrt x <= 1.
Proof. intros Hx. apply Math_cbrt_bounds; lra. Qed.

(** ** The gamma table *)

Lemma TABLE_low (i : Z) :
  (0 <= i <= 255)%Z -> IZR i / 255 <= 0.04045 ->
  TABLE_sRGBToLinear i = Some (IZR i / 255 / 12.92).
Proof.
  intros Hi H. unfold TABLE_sRGBToLinear. rewrite option_guard_True by lia.
  cbn zeta. by destruct (Rle_dec _ _).
Qed.

Lemma TABLE_high (i : Z) :
  (0 <= i <= 255)%Z -> 0.04045 < IZR i / 255 ->
  TABLE_sRGBToLinear i = Some (Rpower ((IZR i / 255 + 0.055) / 1.055) 2.4).
Proof.
  intros Hi H. unfold TABLE_sRGBToLinear. rewrite option_guard_True by lia.
  cbn zeta. destruct (Rle_dec _ _); [lra|]. apply Math_pow_pos.
  apply Rdiv_lt_0_compat; lra.
Qed.

Lemma TABLE_1 : TABLE_sRGBToLinear 1 = Some (1 / 255 / 12.92).
Proof. rewrite TABLE_low; [done | lia | lra]. Qed.

Lemma TABLE_255 : TABLE_sRGBToLinear 255 = Some 1.
Proof.
  rewrite TABLE_high; [|lia|lra]. f_equal.
  replace ((255 / 255 + 0.055) / 1.055) with 1 by lra. apply Rpower_1_l.
Qed.

(** ** Powers with exponents 2.4 and 1/2.4 *)

Lemma Rpower_nat_2 (x : R) : 0 < x -> Rpower x 2 = x * x.
Proof.
  intros Hx. replace 2 with (INR 2) by (simpl; lra).
  rewrite Rpower_pow by done. simpl. lra.
Qed.

Lemma Rpower_nat_5 (x : R) : 0 < x -> Rpower x 5 = x * x * x * x * x.
Proof.
  intros Hx. replace 5 with (INR 5) by (simpl; lra).
  rewrite Rpower_pow by done. simpl. lra.
Qed.

Lemma Rpower_gamma_inv (m : R) : 0 < m -> Rpower (Rpower m 2.4) (1 / 2.4) = m.
Proof.
  intros Hm. rewrite Rpower_mult. replace (2.4 * (1 / 2.4)) with 1 by lra.
  by apply Rpower_1.
Qed.

(** [c <= s ^ 0.4] follows from [c ^ 5 <= s ^ 2]. *)
Lemma Rpower_04_ge (c s : R) :
  0 < c -> 0 < s -> c * c * c * c * c <= s * s -> c <= Rpower s 0.4.
Proof.
  intros Hc Hs Hle.
  replace c with (Rpower (Rpower c 5) (1 / 5)).
  2:{ rewrite Rpower_mult. replace (5 * (1 / 5)) with 1 by lra. by apply Rpower_1. }
  replace (Rpower s 0.4) with (Rpower (Rpower s 2) (1 / 5)).
  2:{ rewrite Rpower_mult. f_equal. lra. }
  apply Rle_Rpower_l; [lra|]. split; [apply Rpower_pos|].
  rewrite Rpower_nat_5, Rpower_nat_2 by done. done.
Qed.

Lemma Rpower_24_split (m : R) : 0 < m -> Rpower m 2.4 = m * m * Rpower m 0.4.
Proof.
  intros Hm. replace 2.4 with (2 + 0.4) by lra.
  by rewrite Rpower_plus, Rpower_nat_2.
Qed.

(** Growth of [x ^ 2.4] from [s] to [t], away from 0. *)
Lemma Rpower_24_growth (s t : R) :
  0.09 <= s -> s <= t ->
  0.38 * (t * t - s * s) <= Rpower t 2.4 - Rpower s 2.4.
Proof.
  intros Hs Hst. rewrite !Rpower_24_split by lra.
  assert (0.38 <= Rpower s 0.4) as H38 by (apply Rpower_04_ge; nra).
  assert (Rpower s 0.4 <= Rpower t 0.4) as Hmono by (apply Rle_Rpower_l; lra).
  assert (s * s <= t * t) by nra.
  assert (0 <= s * s) by nra.
  set (ps := Rpower s 0.4) in *. set (pt := Rpower t 0.4) in *.
  assert ((t * t - s * s) * 0.38 <= (t * t - s * s) * ps)
    by (apply Rmult_le_compat_l; lra).
  assert (t * t * ps <= t * t * pt) by (apply Rmult_le_compat_l; lra).
  lra.
Qed.

Lemma Rpower_24_ge_0033 (m : R) : 0.093 <= m -> 0.0033 <= Rpower m 2.4.
Proof.
  intros Hm. rewrite Rpower_24_split by lra.
  assert (0.386 <= Rpower m 0.4) as H by (apply Rpower_04_ge; nra).
  assert (0.093 * 0.093 <= m * m) by nra.
  assert (0.093 * 0.093 * 0.386 <= m * m * Rpower m 0.4).
  { apply Rmult_le_compat; lra. }
  lra.
Qed.

Lemma Rpower_24_le_1 (m : R) : 0 < m <= 1 -> Rpower m 2.4 <= 1.
Proof.
  intros Hm. pose proof (Rle_Rpower_l m 1 2.4) as H. rewrite Rpower_1_l in H.
  apply H; lra.
Qed.

(** ** [linearToSRGB] *)

(** The branch of [linearToSRGB] that calls [Math.pow] has a positive
    base. *)
Lemma linearToSRGB_pow (x : R) :
  0.0031308 < x ->
  linearToSRGB x
  = Some (Math_round (Math_min 255
            (Math_max 0 ((1.055 * Rpower x (1 / 2.4) - 0.055) * 255)))).
Proof.
  intros Hx. unfold linearToSRGB. destruct (Rle_dec x 0.0031308); [lra|].
  by rewrite Math_pow_pos by lra.
Qed.

Lemma linearToSRGB_lin (x : R) :
  x <= 0.0031308 ->
  linearToSRGB x
  = Some (Math_round (Math_min 255 (Math_max 0 (x * 12.92 * 255)))).
Proof.
  intros Hx. unfold linearToSRGB. by destruct (Rle_dec x 0.0031308); [|lra].
Qed.

Lemma Math_round_clamped (v : R) :
  (0 <= Math_round (Math_min 255 (Math_max 0 v)) <= 255)%Z.
Proof.
  assert (0 <= Math_min 255 (Math_max 0 v) <= 255) as [H0 H255] by (minmax; lra).
  apply Math_round_le in H0, H255.
  rewrite (Math_round_IZR 0) in H0. rewrite (Math_round_IZR 255) in H255. done.
Qed.

(** [linearToSRGB] is defined on every real and returns a byte. *)
Lemma linearToSRGB_byte (x : R) : exists z : Z, linearToSRGB x = Some z /\ byte z.
Proof.
  destruct (Rle_lt_dec x 0.0031308) as [Hx|Hx].
  - rewrite linearToSRGB_lin by done. eexists. split; [done|]. apply Math_round_clamped.
  - rewrite linearToSRGB_pow by done. eexists. split; [done|]. apply Math_round_clamped.
Qed.

Lemma linearToSRGB_dark (x : R) : x <= 0.00015 -> linearToSRGB x = Some 0%Z.
Proof.
  intros Hx. rewrite linearToSRGB_lin by lra. f_equal.
  apply Math_round_eq. minmax; lra.
Qed.

Lemma linearToSRGB_linear_le (x : R) :
  x <= 0.0031308 -> exists z : Z, linearToSRGB x = Some z /\ (z <= 10)%Z.
Proof.
  intros Hx. rewrite linearToSRGB_lin by done. eexists. split; [done|].
  match goal with |- (Math_round ?t <= _)%Z =>
    assert (t <= 10.4) as Ht by (minmax; lra); apply Math_round_le in Ht end.
  by rewrite (Math_round_eq 10.4 10) in Ht by lra.
Qed.

Lemma linearToSRGB_bright (x : R) : 1 <= x -> linearToSRGB x = Some 255%Z.
Proof.
  intros Hx. rewrite linearToSRGB_pow by lra. f_equal.
  assert (1 <= Rpower x (1 / 2.4)).
  { pose proof (Rle_Rpower_l 1 x (1 / 2.4)) as H. rewrite Rpower_1_l in H.
    apply H; lra. }
  apply Math_round_eq. minmax; lra.
Qed.

(** Every byte has a table entry in [0, 1], and [linearToSRGB] takes
    every real within 0.00001 of that entry back to the byte. *)
Lemma TABLE_byte (i : Z) :
  byte i ->
  exists v : R,
    TABLE_sRGBToLinear i = Some v
    /\ 0 <= v <= 1
    /\ forall x : R, v - 0.00001 <= x <= v + 0.00001 -> linearToSRGB x = Some i.
Proof.
  intros [H0 H255].
  destruct (Z_le_gt_dec i 10) as [Hi|Hi].
  - pose proof (IZR_le _ _ H0) as H0'. pose proof (IZR_le _ _ Hi) as Hi'.
    eexists. split; [apply TABLE_low; [done|lra]|]. split; [lra|].
    intros x Hx. rewrite linearToSRGB_lin by lra. f_equal.
    apply Math_round_eq. minmax; lra.
  - assert (11 <= i)%Z as Hi' by lia.
    pose proof (IZR_le _ _ Hi') as Hi''. pose proof (IZR_le _ _ H255) as H255'.
    eexists. split; [apply TABLE_high; [done|lra]|].
    set (h := 0.5 / 255 / 1.055).
    set (mid := (IZR i / 255 + 0.055) / 1.055).
    assert (0.093 <= mid <= 1) as Hmid by (unfold mid; lra).
    split; [split; [left; apply Rpower_pos | apply Rpower_24_le_1; lra]|].
    intros x Hx.
    pose proof (Rpower_24_ge_0033 mid ltac:(lra)) as Hbig.
    pose proof (Rpower_24_growth (mid - h) mid
                  ltac:(unfold h; lra) ltac:(unfold h; lra)) as Hlo.
    pose proof (Rpower_24_growth mid (mid + h)
                  ltac:(lra) ltac:(unfold h; lra)) as Hhi.
    assert (0.00002 <= 0.38 * (mid * mid - (mid - h) * (mid - h))) as Hlo'
      by (unfold h; nra).
    assert (0.00002 <= 0.38 * ((mid + h) * (mid + h) - mid * mid)) as Hhi'
      by (unfold h; nra).
    assert (Rpower (mid - h) 2.4 <= x < Rpower (mid + h) 2.4) as [Hxl Hxh] by lra.
    assert (mid - h <= Rpower x (1 / 2.4)) as Hpl.
    { rewrite <- (Rpower_gamma_inv (mid - h)) by (unfold h; lra).
      apply Rle_Rpower_l; [lra|]. split; [apply Rpower_pos|done]. }
    assert (Rpower x (1 / 2.4) < mid + h) as Hph.
    { rewrite <- (Rpower_gamma_inv (mid + h)) by (unfold h; lra).
      apply Rlt_Rpower_l; [lra|]. split; [lra|done]. }
    rewrite linearToSRGB_pow by lra. f_equal.
    set (p := Rpower x (1 / 2.4)) in *.
    unfold mid, h in Hpl, Hph.
    apply Math_round_eq. minmax; lra.
Qed.

(** [lab2rgb] is defined on every triple of reals and returns bytes. *)
Lemma lab2rgb_bytes (L a b : R) :
  exists r g bb : Z, lab2rgb L a b = Some (r, g, bb) /\ byte r /\ byte g /\ byte bb.
Proof.
  unfold lab2rgb, oklab2rgb. cbn zeta.
  repeat match goal with |- context [linearToSRGB ?x] =>
    let z := fresh "z" in let E := fresh "E" in let Hz := fresh "Hz" in
    destruct (linearToSRGB_byte x) as (z & E & Hz); rewrite E; clear E end.
  cbn. eauto 10.
Qed.

(** ** The two matrix pairs are inverse up to a small error *)

Lemma cube_perturb (c d : R) :
  0 <= c <= 1 -> -0.0000001 <= d <= 0.0000001 ->
  -0.0000004 <= (c + d) * (c + d) * (c + d) - c * c * c <= 0.0000004.
Proof.
  intros Hc Hd.
  replace ((c + d) * (c + d) * (c + d) - c * c * c)
    with (d * (3 * (c * c) + 3 * c * d + d * d)) by ring.
  assert (0 <= c * c <= 1) by nra.
  assert (-0.0000001 <= c * d <= 0.0000001) by nra.
  assert (0 <= d * d <= 0.0000001) by nra.
  set (q := 3 * (c * c) + 3 * c * d + d * d).
  assert (-0.000001 <= q <= 3.000001) as Hq by (unfold q; lra).
  nra.
Qed.

(** Linear light survives the trip through the working space up to
    0.00001. *)
Lemma oklab_roundtrip_linear (rL gL bL : R) :
  0 <= rL <= 1 -> 0 <= gL <= 1 -> 0 <= bL <= 1 ->
  let l_ := 0.4122214708 * rL + 0.5363325363 * gL + 0.0514459929 * bL in
  let m_ := 0.2119034982 * rL + 0.6806995451 * gL + 0.1073969566 * bL in
  let s_ := 0.0883024619 * rL + 0.2817188376 * gL + 0.6299787005 * bL in
  let l__ := Math_cbrt l_ in
  let m__ := Math_cbrt m_ in
  let s__ := Math_cbrt s_ in
  let L := 0.2104542553 * l__ + 0.7936177850 * m__ - 0.0040720468 * s__ in
  let a := 1.9779984951 * l__ - 2.4285922050 * m__ + 0.4505937099 * s__ in
  let b := 0.0259040371 * l__ + 0.7827717662 * m__ - 0.8086757660 * s__ in
  let l2 := L + 0.3963377774 * a + 0.2158037573 * b in
  let m2 := L - 0.1055613458 * a - 0.0638541728 * b in
  let s2 := L - 0.0894841775 * a - 1.2914855480 * b in
  let l3 := l2 * l2 * l2 in
  let m3 := m2 * m2 * m2 in
  let s3 := s2 * s2 * s2 in
  rL - 0.00001 <= 4.0767416621 * l3 - 3.3077115913 * m3 + 0.2309699292 * s3
     <= rL + 0.00001
  /\ gL - 0.00001 <= -1.2684380046 * l3 + 2.6097574011 * m3 - 0.3413193965 * s3
     <= gL + 0.00001
  /\ bL - 0.00001 <= -0.0041960863 * l3 - 0.7034186147 * m3 + 1.7076147010 * s3
     <= bL + 0.00001.
Proof.
  intros Hr Hg Hb l_ m_ s_ l__ m__ s__ L a b l2 m2 s2 l3 m3 s3.
  assert (0 <= l_ <= 1) as Hl_ by (unfold l_; lra).
  assert (0 <= m_ <= 1) as Hm_ by (unfold m_; lra).
  assert (0 <= s_ <= 1) as Hs_ by (unfold s_; lra).
  pose proof (Math_cbrt_unit l_ Hl_) as Hcl. fold l__ in Hcl.
  pose proof (Math_cbrt_unit m_ Hm_) as Hcm. fold m__ in Hcm.
  pose proof (Math_cbrt_unit s_ Hs_) as Hcs. fold s__ in Hcs.
  pose proof (Math_cbrt_cube l_) as Hl3. fold l__ in Hl3.
  pose proof (Math_cbrt_cube m_) as Hm3. fold m__ in Hm3.
  pose proof (Math_cbrt_cube s_) as Hs3. fold s__ in Hs3.
  assert (-0.0000001 <= l2 - l__ <= 0.0000001) as Hdl by (unfold l2, L, a, b; lra).
  assert (-0.0000001 <= m2 - m__ <= 0.0000001) as Hdm by (unfold m2, L, a, b; lra).
  assert (-0.0000001 <= s2 - s__ <= 0.0000001) as Hds by (unfold s2, L, a, b; lra).
  pose proof (cube_perturb l__ (l2 - l__) Hcl Hdl) as Hpl.
  pose proof (cube_perturb m__ (m2 - m__) Hcm Hdm) as Hpm.
  pose proof (cube_perturb s__ (s2 - s__) Hcs Hds) as Hps.
  replace (l__ + (l2 - l__)) with l2 in Hpl by lra.
  replace (m__ + (m2 - m__)) with m2 in Hpm by lra.
  replace (s__ + (s2 - s__)) with s2 in Hps by lra.
  fold l3 in Hpl. fold m3 in Hpm. fold s3 in Hps.
  rewrite Hl3 in Hpl. rewrite Hm3 in Hpm. rewrite Hs3 in Hps.
  clearbody l3 m3 s3. unfold l_, m_, s_ in Hpl, Hpm, Hps. lra.
Qed.

(** [rgb2lab] is defined on every triple of bytes. *)
Lemma rgb2lab_bytes (r g b : Z) :
  byte r -> byte g -> byte b -> is_Some (rgb2lab r g b).
Proof.
  intros Hr Hg Hb. unfold rgb2lab, rgb2oklab.
  destruct (TABLE_byte r Hr) as (rL & -> & _).
  destruct (TABLE_byte g Hg) as (gL & -> & _).
  destruct (TABLE_byte b Hb) as (bL & -> & _). by eexists.
Qed.

(** C3: for every 8-bit triple, the conversion to the working space is
    defined, and converting its result back returns the same triple. *)
Theorem lab2rgb_rgb2lab (r g b : Z) :
  (0 <= r <= 255)%Z -> (0 <= g <= 255)%Z -> (0 <= b <= 255)%Z ->
  exists L a b_val : R,
    rgb2lab r g b = Some (L, a, b_val) /\ lab2rgb L a b_val = Some (r, g, b).
Proof.
  intros Hr Hg Hb. unfold rgb2lab, rgb2oklab, lab2rgb, oklab2rgb.
  destruct (TABLE_byte r Hr) as (rL & -> & HrL & Hrback).
  destruct (TABLE_byte g Hg) as (gL & -> & HgL & Hgback).
  destruct (TABLE_byte b Hb) as (bL & -> & HbL & Hbback).
  cbn [mbind option_bind]. eexists _, _, _. split; [reflexivity|].
  pose proof (oklab_roundtrip_linear rL gL bL HrL HgL HbL) as Hclose.
  cbn zeta in Hclose. destruct Hclose as (Hcr & Hcg & Hcb).
  cbn zeta. rewrite (Hrback _ Hcr), (Hgback _ Hcg), (Hbback _ Hcb). done.
Qed.

Lemma lab2rgb_rgb2lab_witness :
  exists L a b_val : R,
    rgb2lab 200 100 50 = Some (L, a, b_val)
    /\ lab2rgb L a b_val = Some (200, 100, 50)%Z.
Proof. apply (lab2rgb_rgb2lab 200 100 50); lia. Defined.

(** ** Transfer coefficients *)

(** The division in [rawScale] is guarded: the raw scale is always
    defined, and never above the cap. *)
Lemma rawScale_Some (refStats tgtStats : ColorStats) (i : nat) :
  exists s : R,
    rawScale refStats tgtStats i = Some s
    /\ s <= 3
    /\ s = if Rgt_dec (at3 (std tgtStats) i) 0.01
           then Rmin 3 (Rmin (at3 (std refStats) i) 0.18 / at3 (std tgtStats) i)
           else 1.
Proof.
  unfold rawScale, effectiveRefStd, SCALE_CAP, REF_STD_CAP, Math_min.
  destruct (Rgt_dec _ _) as [Ht|Ht].
  - rewrite div_Some by lra. cbn [mbind option_bind]. eexists. split; [done|].
    split; [|f_equal; lra].
    match goal with |- Rmin _ ?q <= _ => generalize q end. intros q. minmax; lra.
  - eexists. split; [done|]. split; [lra|done].
Qed.

Lemma rawScale_flat_ref : rawScale flat_ref wide_tgt 0 = Some 0.1.
Proof.
  unfold rawScale, effectiveRefStd, flat_ref, wide_tgt, SCALE_CAP, REF_STD_CAP.
  cbn [at3 std fst snd].
  destruct (Rgt_dec 0.1 0.01) as [_|H]; [|lra].
  rewrite div_Some by lra. cbn [mbind option_bind]. f_equal. minmax; lra.
Qed.

(** C4, as stated, fails: with reference deviation 0.01 and target
    deviation 0.1 the raw lightness scale is 0.1, below 1/3; nothing
    clamps the raw scale from below. *)
Lemma rawScale_lower_bound_fails :
  exists s : R, rawScale flat_ref wide_tgt 0 = Some s /\ ~ (1 / 3 <= s <= 3).
Proof. exists 0.1. split; [apply rawScale_flat_ref | lra]. Qed.

(** C4, amended: for a reference deviation that is not negative, the raw
    scale of every channel is defined and lies in [0, 3]; it is the capped
    reference deviation over the target deviation, cut at 3 from above
    only, when the target deviation exceeds 0.01, and 1 otherwise. *)
Theorem rawScale_range (refStats tgtStats : ColorStats) (i : nat) :
  0 <= at3 (std refStats) i ->
  exists s : R,
    rawScale refStats tgtStats i = Some s
    /\ 0 <= s <= 3
    /\ s = if Rgt_dec (at3 (std tgtStats) i) 0.01
           then Rmin 3 (Rmin (at3 (std refStats) i) 0.18 / at3 (std tgtStats) i)
           else 1.
Proof.
  intros Href. destruct (rawScale_Some refStats tgtStats i) as (s & Hs & Hle & Heq).
  exists s. split; [done|]. split; [|done]. split; [|done].
  rewrite Heq. destruct (Rgt_dec _ _) as [Ht|Ht]; [|lra].
  assert (0 <= Rmin (at3 (std refStats) i) 0.18) as Hcap by (minmax; lra).
  assert (0 <= Rmin (at3 (std refStats) i) 0.18 / at3 (std tgtStats) i) as Hq.
  { apply Rmult_le_pos; [done|]. left. apply Rinv_0_lt_compat. lra. }
  revert Hq. generalize (Rmin (at3 (std refStats) i) 0.18 / at3 (std tgtStats) i).
  intros q Hq. minmax; lra.
Qed.

Lemma rawScale_range_witness :
  exists s : R,
    rawScale flat_ref wide_tgt 0 = Some s
    /\ 0 <= s <= 3
    /\ s = if Rgt_dec (at3 (std wide_tgt) 0) 0.01
           then Rmin 3 (Rmin (at3 (std flat_ref) 0) 0.18 / at3 (std wide_tgt) 0)
           else 1.
Proof.
  apply (rawScale_range flat_ref wide_tgt 0). cbn [at3 std fst snd flat_ref]. lra.
Defined.

(** The coefficients are always defined; the shadow factor depends on the
    shadow strength only, and the lightness pair on nothing else than the
    statistics and the intensity. *)
Lemma coefficients_Some (refStats tgtStats : ColorStats) (intensity_ : R) :
  exists aL bL aa ba ab bb : R,
    forall s : R,
      coefficients refStats tgtStats intensity_ s
      = Some (mkCoefficients aL bL aa ba ab bb (crushMinFactor s)).
Proof.
  unfold coefficients.
  destruct (rawScale_Some refStats tgtStats 0) as (sL & -> & _).
  destruct (rawScale_Some refStats tgtStats 1) as (sA & -> & _).
  destruct (rawScale_Some refStats tgtStats 2) as (sB & -> & _).
  cbn [mbind option_bind]. eexists _, _, _, _, _, _. intros s. reflexivity.
Qed.

Lemma k_0 : k 0 = 0.
Proof. unfold k. lra. Qed.

Lemma coefficients_intensity_0 (refStats tgtStats : ColorStats) (shadowStrength : R) :
  coefficients refStats tgtStats 0 shadowStrength
  = Some (mkCoefficients 1 0 1 0 1 0 (crushMinFactor shadowStrength)).
Proof.
  unfold coefficients.
  destruct (rawScale_Some refStats tgtStats 0) as (sL & -> & _).
  destruct (rawScale_Some refStats tgtStats 1) as (sA & -> & _).
  destruct (rawScale_Some refStats tgtStats 2) as (sB & -> & _).
  cbn [mbind option_bind]. rewrite k_0. do 2 f_equal; lra.
Qed.

Lemma transformLab_identity_coefficients (cm l a b : R) :
  transformLab (mkCoefficients 1 0 1 0 1 0 cm) (l, a, b)
  = (shadowCrush cm (contrastLift l), a, b).
Proof.
  unfold transformLab. cbn [A_L A_a A_b B_L B_a B_b crush_min].
  replace (l * 1 + 0) with l by lra.
  replace (a + (a * 1 + 0 - a) * maskWeight l) with a by lra.
  replace (b + (b * 1 + 0 - b) * maskWeight l) with b by lra.
  done.
Qed.

(** C1, amended: at intensity 0, for every pair of statistics and every
    shadow strength, the linear coefficients are the identity (every scale
    is 1, every offset 0) and both chroma channels of every pixel are kept;
    the lightness still goes through the contrast lift and the shadow
    curve. *)
Theorem zero_intensity_keeps_chroma (refStats tgtStats : ColorStats)
    (shadowStrength : R) :
  exists c : Coefficients,
    coefficients refStats tgtStats 0 shadowStrength = Some c
    /\ (A_L c, A_a c, A_b c) = (1, 1, 1)
    /\ (B_L c, B_a c, B_b c) = (0, 0, 0)
    /\ forall l a b : R,
         transformLab c (l, a, b)
         = (shadowCrush (crushMinFactor shadowStrength) (contrastLift l), a, b).
Proof.
  eexists. split; [apply coefficients_intensity_0|].
  cbn [A_L A_a A_b B_L B_a B_b]. split_and!; try done.
  intros l a b. apply transformLab_identity_coefficients.
Qed.

Lemma crushMinFactor_0 : crushMinFactor 0 = 1.
Proof. unfold crushMinFactor. minmax; lra. Qed.



Lemma shadowCrush_1 (l : R) : shadowCrush 1 l = l.
Proof. unfold shadowCrush. destruct (Rlt_dec l 0.65); lra. Qed.

Lemma shadowCrush_above (c l : R) : 0.65 <= l -> shadowCrush c l = l.
Proof. intros H. unfold shadowCrush. destruct (Rlt_dec l 0.65); lra. Qed.


(** ** Intensity 0 and the dark end *)

(** The working-space value of the pixel (1, 1, 1). *)
Lemma rgb2lab_111 :
  exists L a b : R,
    rgb2lab 1 1 1 = Some (L, a, b)
    /\ 0.0671 <= L <= 0.0674
    /\ -0.0003 <= a <= 0.0003
    /\ -0.0001 <= b <= 0.0001.
Proof.
  unfold rgb2lab, rgb2oklab. rewrite TABLE_1. cbn [mbind option_bind]. cbn zeta.
  set (t := 1 / 255 / 12.92).
  pose proof (Math_cbrt_bounds 0.0672 0.0673
    (0.4122214708 * t + 0.5363325363 * t + 0.0514459929 * t)) as Hl.
  pose proof (Math_cbrt_bounds 0.0672 0.0673
    (0.2119034982 * t + 0.6806995451 * t + 0.1073969566 * t)) as Hm.
  pose proof (Math_cbrt_bounds 0.0672 0.0673
    (0.0883024619 * t + 0.2817188376 * t + 0.6299787005 * t)) as Hs.
  unfold t in Hl, Hm, Hs.
  specialize (Hl ltac:(lra) ltac:(lra) ltac:(lra)).
  specialize (Hm ltac:(lra) ltac:(lra) ltac:(lra)).
  specialize (Hs ltac:(lra) ltac:(lra) ltac:(lra)).
  fold t in Hl, Hm, Hs.
  eexists _, _, _. split; [reflexivity|]. lra.
Qed.

Lemma lab2rgb_dark (L a b : R) :
  0.0236 <= L + 0.3963377774 * a + 0.2158037573 * b <= 0.0243 ->
  0.0236 <= L - 0.1055613458 * a - 0.0638541728 * b <= 0.0243 ->
  0.0236 <= L - 0.0894841775 * a - 1.2914855480 * b <= 0.0243 ->
  lab2rgb L a b = Some (0, 0, 0)%Z.
Proof.
  intros Hl Hm Hs. unfold lab2rgb, oklab2rgb. cbn zeta.
  apply cubes_in in Hl, Hm, Hs; try lra.
  rewrite !linearToSRGB_dark; [done|lra..].
Qed.

(** C1, as stated, fails: at intensity 0 and shadow strength 0 the pixel
    (1, 1, 1) comes out as (0, 0, 0); the contrast lift alone moves it. *)
Lemma dark_pixel_changes :
  exists c : Coefficients,
    coefficients flat_ref wide_tgt 0 0 = Some c
    /\ transformPixel c 1 1 1 = Some (0, 0, 0)%Z.
Proof.
  eexists. split; [apply coefficients_intensity_0|].
  unfold transformPixel.
  destruct rgb2lab_111 as (L & a & b & -> & HL & Ha & Hb). cbn [mbind option_bind].
  rewrite transformLab_identity_coefficients, crushMinFactor_0, shadowCrush_1.
  unfold contrastLift. apply lab2rgb_dark; lra.
Qed.

(** ** The white pixel *)

Lemma rgb2lab_white :
  exists L a b : R,
    rgb2lab 255 255 255 = Some (L, a, b)
    /\ 0.9999999934 <= L <= 0.9999999935
    /\ 0 <= a <= 0.000000001
    /\ 0 <= b <= 0.0000001.
Proof.
  unfold rgb2lab, rgb2oklab. rewrite TABLE_255. cbn [mbind option_bind]. cbn zeta.
  pose proof (Math_cbrt_bounds 1 1
    (0.4122214708 * 1 + 0.5363325363 * 1 + 0.0514459929 * 1)) as Hl.
  pose proof (Math_cbrt_bounds 0.9999999999 1
    (0.2119034982 * 1 + 0.6806995451 * 1 + 0.1073969566 * 1)) as Hm.
  pose proof (Math_cbrt_bounds 1 1
    (0.0883024619 * 1 + 0.2817188376 * 1 + 0.6299787005 * 1)) as Hs.
  specialize (Hl ltac:(lra) ltac:(lra) ltac:(lra)).
  specialize (Hm ltac:(lra) ltac:(lra) ltac:(lra)).
  specialize (Hs ltac:(lra) ltac:(lra) ltac:(lra)).
  eexists _, _, _. split; [reflexivity|]. lra.
Qed.

Lemma maskWeight_highlight (l : R) :
  0.9999999934 <= l <= 0.9999999935 -> 0 < maskWeight l <= 0.00000007.
Proof.
  intros Hl. unfold maskWeight. destruct (Rgt_dec l 0.90); [|lra]. minmax; lra.
Qed.

Lemma lab2rgb_bright (L a b : R) :
  1.0499 <= L + 0.3963377774 * a + 0.2158037573 * b <= 1.0501 ->
  1.0499 <= L - 0.1055613458 * a - 0.0638541728 * b <= 1.0501 ->
  1.0499 <= L - 0.0894841775 * a - 1.2914855480 * b <= 1.0501 ->
  lab2rgb L a b = Some (255, 255, 255)%Z.
Proof.
  intros Hl Hm Hs. unfold lab2rgb, oklab2rgb. cbn zeta.
  apply cubes_in in Hl, Hm, Hs; try lra.
  rewrite !linearToSRGB_bright; [done|lra..].
Qed.

(** C2, amended: at intensity 0 a white pixel stays (255, 255, 255) for
    every pair of statistics and every shadow strength.  The masking weight
    of a white pixel is positive and at most 7e-8: it damps the change of
    chroma almost to nothing and does not act on lightness. *)
Theorem white_pixel_protection (refStats tgtStats : ColorStats) (shadowStrength : R) :
  exists (c : Coefficients) (L a b : R),
    coefficients refStats tgtStats 0 shadowStrength = Some c
    /\ transformPixel c 255 255 255 = Some (255, 255, 255)%Z
    /\ rgb2lab 255 255 255 = Some (L, a, b)
    /\ 0 < maskWeight L <= 0.00000007.
Proof.
  destruct rgb2lab_white as (L & a & b & Hlab & HL & Ha & Hb).
  eexists _, L, a, b. split; [apply coefficients_intensity_0|].
  split; [|split; [done|by apply maskWeight_highlight]].
  unfold transformPixel. rewrite Hlab. cbn [mbind option_bind].
  rewrite transformLab_identity_coefficients, shadowCrush_above
    by (unfold contrastLift; lra).
  unfold contrastLift. apply lab2rgb_bright; lra.
Qed.

Lemma coefficients_dark_bright :
  coefficients dark_ref bright_tgt 100 100
  = Some (mkCoefficients 1 (- (80 / 114)) 1 0 1 0 0).
Proof.
  assert (forall i, rawScale dark_ref bright_tgt i = Some 1) as Hs.
  { intros i. unfold rawScale.
    assert (at3 (std bright_tgt) i = 0) as -> by (by destruct i as [|[|i]]).
    destruct (Rgt_dec 0 0.01); [lra|done]. }
  unfold coefficients. rewrite !Hs. cbn [mbind option_bind].
  unfold k, BLEND_STD, BLEND_MEAN_L, BLEND_MEAN_C, crushMinFactor, dark_ref, bright_tgt.
  cbn [mean at3 fst snd].
  do 2 f_equal; try lra. minmax; lra.
Qed.

Lemma lab2rgb_dim (L a b : R) :
  0.1189 <= L + 0.3963377774 * a + 0.2158037573 * b <= 0.1190 ->
  0.1189 <= L - 0.1055613458 * a - 0.0638541728 * b <= 0.1190 ->
  0.1189 <= L - 0.0894841775 * a - 1.2914855480 * b <= 0.1190 ->
  exists r g bb : Z, lab2rgb L a b = Some (r, g, bb) /\ (r <= 10)%Z.
Proof.
  intros Hl Hm Hs.
  destruct (lab2rgb_bytes L a b) as (r & g & bb & Heq & _).
  exists r, g, bb. split; [done|].
  unfold lab2rgb, oklab2rgb in Heq. cbn zeta in Heq.
  apply cubes_in in Hl, Hm, Hs; try lra.
  match type of Heq with context [linearToSRGB ?x ≫= _] =>
    destruct (linearToSRGB_linear_le x) as (z & Ez & Hz); [lra|];
    rewrite Ez in Heq end.
  cbn [mbind option_bind] in Heq.
  repeat match type of Heq with context [linearToSRGB ?x] =>
    destruct (linearToSRGB x); [|done] end.
  cbn in Heq. by simplify_eq.
Qed.

(** C2, as stated, fails: with a black reference, a target of mean
    lightness 1, intensity 100 and shadow strength 100, the white pixel
    leaves the transform with a red channel of at most 10. *)
Lemma white_pixel_darkens :
  exists (c : Coefficients) (r g bb : Z),
    coefficients dark_ref bright_tgt 100 100 = Some c
    /\ transformPixel c 255 255 255 = Some (r, g, bb)
    /\ (r <= 10)%Z.
Proof.
  destruct rgb2lab_white as (L & a & b & Hlab & HL & Ha & Hb).
  assert (exists r g bb : Z,
            transformPixel (mkCoefficients 1 (- (80 / 114)) 1 0 1 0 0) 255 255 255
            = Some (r, g, bb) /\ (r <= 10)%Z) as (r & g & bb & Htp & Hr).
  { unfold transformPixel. rewrite Hlab. cbn [mbind option_bind].
    unfold transformLab. cbn [A_L A_a A_b B_L B_a B_b crush_min].
    unfold contrastLift, shadowCrush.
    set (l1 := (L * 1 + - (80 / 114) - 0.5) * 1.1 + 0.5).
    assert (0.27807 <= l1 <= 0.278071) as Hl1 by (unfold l1; lra).
    destruct (Rlt_dec l1 0.65); [|lra].
    assert (0.27807 * 0.27807 <= l1 * l1 <= 0.278071 * 0.278071) as Hsq by nra.
    replace (a + (a * 1 + 0 - a) * maskWeight L) with a by lra.
    replace (b + (b * 1 + 0 - b) * maskWeight L) with b by lra.
    replace (l1 * (0 + l1 / 0.65 * (1.0 - 0))) with (l1 * l1 / 0.65) by lra.
    apply lab2rgb_dim; lra. }
  eexists _, r, g, bb. split; [apply coefficients_dark_bright|]. done.
Qed.

(** ** Statistics extractor *)

Lemma offsets_mul4 (m : nat) : offsets (4 * m) = (λ k, 4 * k)%nat <$> seq 0 m.
Proof.
  unfold offsets. do 2 f_equal.
  replace (4 * m + 3)%nat with (3 + m * 4)%nat by lia.
  rewrite Nat.div_add by lia. done.
Qed.

Lemma read_rgb_app (pre : list Z) (r g b a : Z) (suf : list Z) :
  read_rgb (pre ++ r :: g :: b :: a :: suf) (length pre) = Some (r, g, b).
Proof.
  unfold read_rgb.
  rewrite !lookup_app_r by lia.
  replace (length pre - length pre)%nat with 0%nat by lia.
  replace (length pre + 1 - length pre)%nat with 1%nat by lia.
  replace (length pre + 2 - length pre)%nat with 2%nat by lia.
  done.
Qed.

Section Collect.

Variable conv : Z → Z → Z → option (R * R * R).
Variable skip : Z → Z → Z → bool.

Lemma sampled_cons (r g b a : Z) (suf : list Z) :
  sampled conv skip (r :: g :: b :: a :: suf)
  = if skip r g b then sampled conv skip suf
    else lab ← conv r g b; labs ← sampled conv skip suf; Some (lab :: labs).
Proof.
  unfold sampled. cbn [rgba_pixels]. rewrite filter_cons. cbn [fst snd].
  destruct (skip r g b).
  - rewrite decide_False; [done|]. intros H. by apply H.
  - rewrite decide_True; [done|]. by intros [].
Qed.

Lemma collect_body_app (pre : list Z) (r g b a : Z) (suf : list Z) (v : Vals) :
  collect_body conv skip (pre ++ r :: g :: b :: a :: suf) (length pre) v
  = if skip r g b then Some v else lab ← conv r g b; Some (push v lab).
Proof. unfold collect_body. by rewrite read_rgb_app. Qed.

Lemma collect_from (m : nat) : ∀ (pre suf : list Z) (j : nat) (v : Vals),
  length pre = (4 * j)%nat -> length suf = (4 * m)%nat ->
  for_each (collect_body conv skip (pre ++ suf))
           ((λ k, 4 * k)%nat <$> seq j m) v
  = labs ← sampled conv skip suf; Some (pushes v labs).
Proof.
  induction m as [|m IH]; intros pre suf j v Hpre Hsuf.
  - destruct suf; [done | cbn [length] in Hsuf; lia].
  - destruct suf as [|r [|g [|b [|a suf]]]]; cbn [length] in Hsuf; try lia.
    cbn [seq fmap list_fmap for_each].
    rewrite <- Hpre, collect_body_app, sampled_cons.
    replace (pre ++ r :: g :: b :: a :: suf) with ((pre ++ [r; g; b; a]) ++ suf)
      by (by rewrite <- app_assoc).
    destruct (skip r g b).
    + cbn [mbind option_bind].
      rewrite IH; [done | rewrite length_app; cbn [length]; lia | lia].
    + destruct (conv r g b) as [lab|]; [|done]. cbn [mbind option_bind].
      rewrite IH; [| rewrite length_app; cbn [length]; lia | lia].
      by destruct (sampled conv skip suf).
Qed.

Lemma collect_spec (data : list Z) (m : nat) :
  length data = (4 * m)%nat ->
  collect conv skip data
  = labs ← sampled conv skip data; Some (pushes (mkVals [] [] []) labs).
Proof.
  intros Hlen. unfold collect. rewrite Hlen, offsets_mul4.
  by apply (collect_from m [] data 0).
Qed.

End Collect.

Lemma pushes_lVals (labs : list (R * R * R)) : ∀ v,
  lVals (pushes v labs) = lVals v ++ ((λ t, t.1.1) <$> labs).
Proof.
  induction labs as [|[[l a] b] labs IH]; intros v; cbn.
  - by rewrite app_nil_r.
  - unfold pushes in IH. rewrite IH. cbn. by rewrite <- app_assoc.
Qed.

Lemma pushes_aVals (labs : list (R * R * R)) : ∀ v,
  aVals (pushes v labs) = aVals v ++ ((λ t, t.1.2) <$> labs).
Proof.
  induction labs as [|[[l a] b] labs IH]; intros v; cbn.
  - by rewrite app_nil_r.
  - unfold pushes in IH. rewrite IH. cbn. by rewrite <- app_assoc.
Qed.

Lemma pushes_bVals (labs : list (R * R * R)) : ∀ v,
  bVals (pushes v labs) = bVals v ++ ((λ t, t.2) <$> labs).
Proof.
  induction labs as [|[[l a] b] labs IH]; intros v; cbn.
  - by rewrite app_nil_r.
  - unfold pushes in IH. rewrite IH. cbn. by rewrite <- app_assoc.
Qed.

Lemma reduce_sum (xs : list R) : ∀ init,
  reduce (λ a c, Some (a + c)) init xs = Some (init + Rsum xs).
Proof.
  unfold Rsum. induction xs as [|x xs IH]; intros init; cbn [reduce foldr].
  - f_equal. lra.
  - cbn [mbind option_bind]. rewrite IH. f_equal. lra.
Qed.

Lemma reduce_squares (m : R) (xs : list R) : ∀ init,
  reduce (λ a c, p ← Math_pow (c - m) 2; Some (a + p)) init xs
  = Some (init + Rsum ((λ x, (x - m) * (x - m)) <$> xs)).
Proof.
  unfold Rsum.
  induction xs as [|x xs IH]; intros init; cbn [reduce foldr fmap list_fmap].
  - f_equal. lra.
  - rewrite Math_pow_2. cbn [mbind option_bind]. rewrite IH. f_equal. lra.
Qed.

Lemma Rsum_squares_nonneg (m : R) (xs : list R) :
  0 <= Rsum ((λ x, (x - m) * (x - m)) <$> xs).
Proof.
  unfold Rsum. induction xs as [|x xs IH]; cbn [foldr fmap list_fmap]; [lra|].
  assert (0 <= (x - m) * (x - m)) by apply Rle_0_sqr. lra.
Qed.

(** Mean and variance of one channel, as [stats_of] computes them: both
    divisions are defined, and the variance is not negative. *)
Lemma channel_mean (xs : list R) :
  xs ≠ [] ->
  (reduce (λ a c, Some (a + c)) 0 xs ≫= λ s, div s (INR (length xs)))
  = Some (mean_of xs).
Proof.
  intros Hne.
  assert (0 < INR (length xs)) as Hn.
  { apply lt_0_INR. destruct xs; [done|cbn; lia]. }
  rewrite reduce_sum. cbn [mbind option_bind].
  rewrite div_Some by lra. by rewrite Rplus_0_l.
Qed.

Lemma channel_variance (xs : list R) (m : R) :
  xs ≠ [] ->
  exists var : R,
    (reduce (λ a c, p ← Math_pow (c - m) 2; Some (a + p)) 0 xs
     ≫= λ s, div s (INR (length xs))) = Some var
    /\ 0 <= var
    /\ var = Rsum ((λ x, (x - m) * (x - m)) <$> xs) / INR (length xs).
Proof.
  intros Hne.
  assert (0 < INR (length xs)) as Hn.
  { apply lt_0_INR. destruct xs; [done|cbn; lia]. }
  rewrite reduce_squares. cbn [mbind option_bind].
  rewrite div_Some by lra. rewrite Rplus_0_l. eexists. split; [done|].
  split; [|done].
  apply Rmult_le_pos; [apply Rsum_squares_nonneg|].
  left. by apply Rinv_0_lt_compat.
Qed.

Lemma stats_of_pushes (labs : list (R * R * R)) :
  stats_of (pushes (mkVals [] [] []) labs) =
  match labs with
  | [] => Some (mkStats (0, 0, 0) (1, 1, 1))
  | _ =>
      let ls := (λ t, t.1.1) <$> labs in
      let as_ := (λ t, t.1.2) <$> labs in
      let bs := (λ t, t.2) <$> labs in
      Some (mkStats (mean_of ls, mean_of as_, mean_of bs)
                    (std_of ls, std_of as_, std_of bs))
  end.
Proof.
  unfold stats_of. rewrite pushes_lVals, pushes_aVals, pushes_bVals.
  cbn [lVals aVals bVals app].
  destruct labs as [|t labs]; [done|].
  rewrite decide_False by (cbn; lia). cbn zeta.
  set (ls := (λ t, t.1.1) <$> t :: labs).
  set (as_ := (λ t, t.1.2) <$> t :: labs).
  set (bs := (λ t, t.2) <$> t :: labs).
  assert (length as_ = length ls) as Ea by (unfold as_, ls; by rewrite !length_fmap).
  assert (length bs = length ls) as Eb by (unfold bs, ls; by rewrite !length_fmap).
  pose proof (channel_mean ls ltac:(done)) as HmL.
  pose proof (channel_mean as_ ltac:(done)) as HmA.
  pose proof (channel_mean bs ltac:(done)) as HmB.
  destruct (channel_variance ls (mean_of ls) ltac:(done)) as (vL & HvL & HL0 & EL).
  destruct (channel_variance as_ (mean_of as_) ltac:(done)) as (vA & HvA & HA0 & EA).
  destruct (channel_variance bs (mean_of bs) ltac:(done)) as (vB & HvB & HB0 & EB).
  rewrite Ea in HmA, HvA. rewrite Eb in HmB, HvB.
  rewrite HmL. cbn [mbind option_bind]. rewrite HmA. cbn [mbind option_bind].
  rewrite HmB. cbn [mbind option_bind].
  rewrite HvL. cbn [mbind option_bind]. rewrite HvA. cbn [mbind option_bind].
  rewrite HvB. cbn [mbind option_bind].
  rewrite !Math_sqrt_Some by done. cbn [mbind option_bind].
  unfold std_of. by rewrite EL, EA, EB.
Qed.

Lemma computeStats_with_spec (conv : Z → Z → Z → option (R * R * R))
    (skip : Z → Z → Z → bool) (data : list Z) (m : nat) :
  length data = (4 * m)%nat ->
  computeStats_with conv skip data
  = labs ← sampled conv skip data; stats_of (pushes (mkVals [] [] []) labs).
Proof.
  intros Hlen. unfold computeStats_with. rewrite (collect_spec _ _ data m Hlen).
  by destruct (sampled conv skip data).
Qed.

Lemma rgba_pixels_bytes (n : nat) : ∀ data : list Z,
  (length data <= n)%nat -> Forall byte data ->
  Forall (λ p, byte p.1.1 /\ byte p.1.2 /\ byte p.2) (rgba_pixels data).
Proof.
  induction n as [|n IH]; intros data Hn Hb.
  - destruct data; [constructor | cbn in Hn; lia].
  - destruct data as [|r [|g [|b [|a data]]]]; try constructor.
    + cbn [fst snd]. inversion Hb as [|? ? ? Hb1]; subst.
      inversion Hb1 as [|? ? ? Hb2]; subst. inversion Hb2; subst. done.
    + apply IH; [cbn [length] in Hn; lia|].
      by do 4 (apply Forall_cons in Hb as [_ Hb]).
Qed.

Lemma sampled_is_Some (conv : Z → Z → Z → option (R * R * R))
    (skip : Z → Z → Z → bool) (data : list Z) :
  (forall r g b : Z, byte r -> byte g -> byte b -> is_Some (conv r g b)) ->
  Forall byte data -> is_Some (sampled conv skip data).
Proof.
  intros Hconv Hb. unfold sampled. apply mapM_is_Some.
  pose proof (rgba_pixels_bytes (length data) data ltac:(done) Hb) as Hpx.
  induction Hpx as [|p ps Hp _ IH]; [constructor|].
  rewrite filter_cons. destruct (decide _); [|done].
  constructor; [|done]. destruct Hp as (? & ? & ?). by apply Hconv.
Qed.

Lemma sampled_none (conv : Z → Z → Z → option (R * R * R))
    (skip : Z → Z → Z → bool) (data : list Z) :
  Forall (λ p, skip p.1.1 p.1.2 p.2 = true) (rgba_pixels data) ->
  sampled conv skip data = Some [].
Proof.
  unfold sampled. induction 1 as [|p ps Hp _ IH]; [done|].
  rewrite filter_cons, decide_False; [done|]. rewrite Hp. intros H. by apply H.
Qed.

Lemma Rev1_sRGBToLinear_byte (x : Z) :
  byte x -> exists v : R, Rev1.sRGBToLinear x = Some v /\ 0 <= v.
Proof.
  intros [H0 _]. apply IZR_le in H0. unfold Rev1.sRGBToLinear. cbn zeta.
  destruct (Rle_dec _ _).
  - eexists. split; [done|]. lra.
  - rewrite Math_pow_pos by (apply Rdiv_lt_0_compat; lra).
    eexists. split; [done|]. left. apply Rpower_pos.
Qed.

Lemma Rev1_rgb2lab_bytes (r g b : Z) :
  byte r -> byte g -> byte b -> is_Some (Rev1.rgb2lab r g b).
Proof.
  intros Hr Hg Hb. unfold Rev1.rgb2lab.
  destruct (Rev1_sRGBToLinear_byte r Hr) as (rL & -> & HrL).
  destruct (Rev1_sRGBToLinear_byte g Hg) as (gL & -> & HgL).
  destruct (Rev1_sRGBToLinear_byte b Hb) as (bL & -> & HbL).
  cbn [mbind option_bind]. cbn zeta.
  rewrite !Math_log10_Some by (minmax; lra). by eexists.
Qed.

(** The loop of [computeStats] is the extractor of the specification:
    the same filter followed by the same means and deviations. *)
Lemma computeStats_with_extract (conv : Z → Z → Z → option (R * R * R))
    (data : list Z) (m : nat) :
  length data = (4 * m)%nat ->
  computeStats_with conv (λ _ _ _, false) data = extract_with conv data false
  /\ computeStats_with conv clipped data = extract_with conv data true.
Proof.
  intros Hlen. rewrite !(computeStats_with_spec _ _ data m Hlen).
  unfold extract_with, sampled. split.
  - rewrite (list_filter_iff (λ _ : Z * Z * Z, ¬ false)
               (λ p, ¬ (false ∧ clipped p.1.1 p.1.2 p.2)));
      [|intros p; cbn; tauto].
    destruct (mapM _ _) as [labs|]; [|done]. cbn [mbind option_bind].
    apply stats_of_pushes.
  - rewrite (list_filter_iff (λ p : Z * Z * Z, ¬ clipped p.1.1 p.1.2 p.2)
               (λ p, ¬ (true ∧ clipped p.1.1 p.1.2 p.2)));
      [|intros p; cbn; tauto].
    destruct (mapM _ _) as [labs|]; [|done]. cbn [mbind option_bind].
    apply stats_of_pushes.
Qed.

Lemma stats_of_valid (v : Vals) (s : ColorStats) :
  stats_of v = Some s -> valid_stats s.
Proof.
  unfold stats_of, valid_stats. destruct (decide _).
  - intros [= <-]. cbn [std at3 fst snd]. lra.
  - intros Hs.
    repeat match type of Hs with
    | (?m ≫= _) = Some _ =>
        let x := fresh "x" in let E := fresh "E" in
        destruct m as [x|] eqn:E; [cbn [mbind option_bind] in Hs|done]
    end.
    injection Hs as <-. cbn [std at3 fst snd].
    repeat match goal with
    | E : Math_sqrt ?v = Some ?x |- _ =>
        unfold Math_sqrt in E; destruct (Rle_dec 0 v); [|done];
        injection E as <-
    end.
    split_and!; apply sqrt_pos.
Qed.

(** With a converter defined on bytes, [computeStats] is defined on every
    RGBA buffer of bytes; its deviations are not negative, and it returns
    the sentinel when every pixel is skipped. *)
Lemma computeStats_with_defined (conv : Z → Z → Z → option (R * R * R))
    (skip : Z → Z → Z → bool) (data : list Z) (m : nat) :
  (forall r g b : Z, byte r -> byte g -> byte b -> is_Some (conv r g b)) ->
  Forall byte data ->
  length data = (4 * m)%nat ->
  exists s : ColorStats,
    computeStats_with conv skip data = Some s
    /\ valid_stats s
    /\ (Forall (λ p, skip p.1.1 p.1.2 p.2 = true) (rgba_pixels data)
        -> s = sentinel).
Proof.
  intros Hconv Hb Hlen. rewrite (computeStats_with_spec _ _ data m Hlen).
  destruct (sampled_is_Some conv skip data Hconv Hb) as [labs Hlabs].
  rewrite Hlabs. cbn [mbind option_bind].
  destruct (stats_of _) as [s|] eqn:Hs.
  2:{ rewrite stats_of_pushes in Hs. by destruct labs. }
  exists s. split; [done|]. split; [by eapply stats_of_valid|].
  intros Hall. rewrite sampled_none in Hlabs by done. injection Hlabs as <-.
  cbn in Hs. by injection Hs.
Qed.

(** C5, amended: no revision of the extractor has a switch.  On every
    RGBA buffer of bytes the current [computeStats] returns what the
    extractor of the specification returns with exclusion off (the full
    population), and the one of the first revision what that extractor
    returns with exclusion on. *)
Theorem extractor_has_no_switch (data : list Z) (m : nat) :
  Forall byte data ->
  length data = (4 * m)%nat ->
  exists s s1 : ColorStats,
    computeStats data = Some s
    /\ extract data false = Some s
    /\ Rev1.computeStats data = Some s1
    /\ extract_with Rev1.rgb2lab data true = Some s1.
Proof.
  intros Hb Hlen. unfold computeStats, Rev1.computeStats, extract.
  destruct (computeStats_with_extract rgb2lab data m Hlen) as [<- _].
  destruct (computeStats_with_extract Rev1.rgb2lab data m Hlen) as [_ <-].
  destruct (computeStats_with_defined rgb2lab (λ _ _ _, false) data m
              rgb2lab_bytes Hb Hlen) as (s & -> & _).
  destruct (computeStats_with_defined Rev1.rgb2lab clipped data m
              Rev1_rgb2lab_bytes Hb Hlen) as (s1 & -> & _).
  by exists s, s1.
Qed.

Lemma extractor_has_no_switch_witness :
  exists s s1 : ColorStats,
    computeStats white_pixel = Some s
    /\ extract white_pixel false = Some s
    /\ Rev1.computeStats white_pixel = Some s1
    /\ extract_with Rev1.rgb2lab white_pixel true = Some s1.
Proof.
  apply (extractor_has_no_switch white_pixel 1).
  - unfold white_pixel, byte. repeat constructor; lia.
  - reflexivity.
Defined.

Lemma std_of_singleton (x : R) : std_of [x] = 0.
Proof.
  unfold std_of, mean_of, Rsum. cbn [foldr fmap list_fmap length INR].
  replace ((x - (x + 0) / 1) * (x - (x + 0) / 1) + 0) with 0 by (field_simplify; lra).
  replace (0 / 1) with 0 by lra. apply sqrt_0.
Qed.

(** C5, as stated, fails: on an image of one white pixel the current
    [computeStats], which takes nothing but the image, does not return what
    extraction with the exclusion set returns; the white pixel is
    sampled. *)
Lemma white_pixel_is_sampled :
  computeStats white_pixel <> extract white_pixel true
  /\ extract white_pixel true = Some sentinel.
Proof.
  assert (extract white_pixel true = Some sentinel) as Hex.
  { unfold extract, extract_with, white_pixel. cbn [rgba_pixels].
    rewrite filter_cons, decide_False.
    2:{ intros H. apply H. split; [done|]. by vm_compute. }
    by rewrite filter_nil. }
  split; [|done]. rewrite Hex.
  unfold computeStats. rewrite (computeStats_with_spec _ _ white_pixel 1) by done.
  unfold white_pixel. rewrite sampled_cons.
  destruct (rgb2lab_bytes 255 255 255) as [lab ->]; [done..|].
  cbn [mbind option_bind sampled rgba_pixels filter list_filter mapM mret option_ret].
  rewrite stats_of_pushes. cbn [fmap list_fmap].
  intros Heq.
  apply (f_equal (λ o, from_option (λ s, at3 (std s) 0) 0 o)) in Heq.
  cbn [from_option std at3 fst sentinel] in Heq.
  rewrite std_of_singleton in Heq. lra.
Qed.

(** On every RGBA buffer of bytes the extraction after [getImageData]
    returns statistics with deviations that are not negative, and the
    sentinel when every pixel is skipped. *)
Lemma computeStats_bytes (data : list Z) (m : nat) :
  Forall byte data ->
  length data = (4 * m)%nat ->
  (exists s, computeStats data = Some s /\ valid_stats s)
  /\ (exists s, Rev1.computeStats data = Some s /\ valid_stats s
              /\ (Forall (λ p, clipped p.1.1 p.1.2 p.2 = true) (rgba_pixels data)
                  -> s = sentinel)).
Proof.
  intros Hb Hlen. unfold computeStats, Rev1.computeStats. split.
  - destruct (computeStats_with_defined rgb2lab (λ _ _ _, false) data m
                rgb2lab_bytes Hb Hlen) as (s & Hs & Hvalid & _).
    by exists s.
  - destruct (computeStats_with_defined Rev1.rgb2lab clipped data m
                Rev1_rgb2lab_bytes Hb Hlen) as (s & Hs & Hvalid & Hsent).
    by exists s.
Qed.

(** C6, as stated, fails: a canvas with a side of 0 has no pixel that
    qualifies, and [computeStats] throws on it, in both revisions: its
    first statement is [ctx.getImageData(0, 0, width, height)], which
    rejects a width or height of 0. *)
Lemma computeStats_throws_on_empty_canvas :
  computeStats_ctx (mkCanvas [] 0 1000) 0 1000 = None
  /\ Rev1_computeStats_ctx (mkCanvas [] 0 1000) 0 1000 = None.
Proof. split; reflexivity. Qed.

(** C6, amended: on every canvas of bytes with positive sides
    [computeStats] does not throw and returns statistics whose deviations
    are not negative, in both revisions.  On such a canvas the current
    revision samples every pixel, and there is at least one; the first
    revision returns the sentinel when every pixel is clipped. *)
Theorem computeStats_never_fails (c : Canvas) :
  canvas_ok c ->
  canvas_width c ≠ 0%nat ->
  canvas_height c ≠ 0%nat ->
  (exists s, computeStats_ctx c (canvas_width c) (canvas_height c) = Some s
             /\ valid_stats s
             /\ extract (pixels c) false = Some s
             /\ rgba_pixels (pixels c) ≠ [])
  /\ (exists s, Rev1_computeStats_ctx c (canvas_width c) (canvas_height c)
                = Some s
              /\ valid_stats s
              /\ (Forall (λ p, clipped p.1.1 p.1.2 p.2 = true)
                    (rgba_pixels (pixels c))
                  -> s = sentinel)).
Proof.
  intros [Hb Hlen] Hw Hh. unfold computeStats_ctx, Rev1_computeStats_ctx.
  rewrite !option_guard_True by done. cbn [mbind option_bind].
  assert (length (pixels c) = (4 * (canvas_width c * canvas_height c))%nat)
    as Hlen' by lia.
  destruct (computeStats_bytes (pixels c) _ Hb Hlen')
    as [(s & Hs & Hvalid) (s1 & Hs1 & Hvalid1 & Hsent)].
  split; [|by exists s1].
  exists s. split; [done|]. split; [done|]. split.
  - unfold computeStats in Hs. unfold extract.
    by destruct (computeStats_with_extract rgb2lab (pixels c) _ Hlen') as [<- _].
  - assert (0 < canvas_width c * canvas_height c)%nat as Hpos by nia.
    destruct (pixels c) as [|r [|g [|b [|a rest]]]]; cbn [length] in Hlen';
      try lia. done.
Qed.

Lemma computeStats_never_fails_witness :
  (exists s, computeStats_ctx (mkCanvas white_pixel 1 1) 1 1 = Some s
             /\ valid_stats s
             /\ extract white_pixel false = Some s
             /\ rgba_pixels white_pixel ≠ [])
  /\ (exists s, Rev1_computeStats_ctx (mkCanvas white_pixel 1 1) 1 1 = Some s
              /\ valid_stats s
              /\ (Forall (λ p, clipped p.1.1 p.1.2 p.2 = true)
                    (rgba_pixels white_pixel)
                  -> s = sentinel)).
Proof.
  apply (computeStats_never_fails (mkCanvas white_pixel 1 1)).
  - split; [|reflexivity]. cbn. unfold byte. repeat constructor; lia.
  - cbn. lia.
  - cbn. lia.
Defined.

(** ** The pixel loop of [processImageBuffer] *)

Lemma ToUint8Clamp_id (z : Z) : byte z -> ToUint8Clamp z = z.
Proof. unfold ToUint8Clamp, byte. lia. Qed.

(** The pixel transform is defined on every triple of bytes, and returns
    bytes. *)
Lemma transformPixel_bytes (c : Coefficients) (r0 g0 b0 : Z) :
  byte r0 -> byte g0 -> byte b0 ->
  exists r g bb : Z,
    transformPixel c r0 g0 b0 = Some (r, g, bb) /\ byte r /\ byte g /\ byte bb.
Proof.
  intros Hr Hg Hb. unfold transformPixel.
  destruct (rgb2lab_bytes r0 g0 b0 Hr Hg Hb) as [lab ->]. cbn [mbind option_bind].
  destruct (transformLab c lab) as [[l a] b]. apply lab2rgb_bytes.
Qed.

Lemma pixel_body_app (c : Coefficients) (out : nat) (σ : store)
    (pre : list Z) (r0 g0 b0 a : Z) (suf : list Z) :
  σ !! out = Some (pre ++ r0 :: g0 :: b0 :: a :: suf) ->
  pixel_body c out (length pre) σ
  = '(r, g, bb) ← transformPixel c r0 g0 b0;
    Some (<[out := (pre ++ [ToUint8Clamp r; ToUint8Clamp g; ToUint8Clamp bb; a])
                   ++ suf]> σ).
Proof.
  intros Hout. unfold pixel_body. rewrite Hout. cbn [mbind option_bind].
  rewrite read_rgb_app. cbn [mbind option_bind].
  destruct (transformPixel c r0 g0 b0) as [[[r g] bb]|]; [|done].
  cbn [mbind option_bind]. do 2 f_equal.
  rewrite !insert_app_r_alt by (rewrite ?length_insert, ?length_app; lia).
  replace (length pre - length pre)%nat with 0%nat by lia.
  replace (length pre + 1 - length pre)%nat with 1%nat by lia.
  replace (length pre + 2 - length pre)%nat with 2%nat by lia.
  cbn. by rewrite <- app_assoc.
Qed.

Lemma pixel_loop_from (c : Coefficients) (out : nat) (m : nat) :
  ∀ (pre suf : list Z) (j : nat) (σ : store),
    length pre = (4 * j)%nat -> length suf = (4 * m)%nat ->
    σ !! out = Some (pre ++ suf) ->
    for_each (pixel_body c out) ((λ k, 4 * k)%nat <$> seq j m) σ
    = new ← map_pixels c suf; Some (<[out := pre ++ new]> σ).
Proof.
  induction m as [|m IH]; intros pre suf j σ Hpre Hsuf Hout.
  - destruct suf; [|cbn [length] in Hsuf; lia]. cbn.
    by rewrite insert_id.
  - destruct suf as [|r0 [|g0 [|b0 [|a suf]]]]; cbn [length] in Hsuf; try lia.
    cbn [seq fmap list_fmap for_each map_pixels].
    rewrite <- Hpre, (pixel_body_app c out σ pre r0 g0 b0 a suf Hout).
    destruct (transformPixel c r0 g0 b0) as [[[r g] bb]|]; [|done].
    cbn [mbind option_bind].
    rewrite (IH (pre ++ [ToUint8Clamp r; ToUint8Clamp g; ToUint8Clamp bb; a])
               suf (S j)).
    + destruct (map_pixels c suf) as [new|]; [|done]. cbn [mbind option_bind].
      rewrite insert_insert_eq. do 2 f_equal. by rewrite <- app_assoc.
    + rewrite length_app. cbn [length]. lia.
    + lia.
    + by rewrite lookup_insert_eq.
Qed.

(** What [processImageBuffer] returns on a well-formed image: a new image
    at a fresh address, holding the transformed bytes. *)
Lemma processImageBuffer_spec (imgData : ImageData) (refStats tgtStats : ColorStats)
    (intensity_ : R) (shadowStrength : option R) (σ : store) (src : list Z) :
  σ !! data imgData = Some src ->
  length src = (4 * width imgData * height imgData)%nat ->
  length src ≠ 0%nat ->
  processImageBuffer imgData refStats tgtStats intensity_ shadowStrength σ
  = c ← coefficients refStats tgtStats intensity_ (default 50 shadowStrength);
    new ← map_pixels c src;
    Some (mkImageData (fresh (dom σ)) (width imgData) (height imgData),
          <[fresh (dom σ) := new]> σ).
Proof.
  intros Hsrc Hlen Hne. unfold processImageBuffer. rewrite Hsrc.
  cbn [mbind option_bind new_Uint8ClampedArray].
  unfold new_ImageData. rewrite lookup_insert_eq. cbn [mbind option_bind].
  rewrite option_guard_True by done. cbn [mbind option_bind data].
  destruct (coefficients _ _ _ _) as [c|]; [|done]. cbn [mbind option_bind].
  rewrite lookup_insert_eq. cbn [fmap option_fmap option_map mbind option_bind].
  replace (length src) with (4 * (width imgData * height imgData))%nat by lia.
  rewrite offsets_mul4.
  rewrite (pixel_loop_from _ _ (width imgData * height imgData) [] src 0);
    [| done | lia | by rewrite lookup_insert_eq].
  destruct (map_pixels c src) as [new|]; [|done].
  cbn [mbind option_bind app]. by rewrite insert_insert_eq.
Qed.

(** On a buffer of [m] pixels of bytes the loop is defined; it keeps the
    length and every alpha byte, and puts the transform of each pixel, a
    triple of bytes, in its place. *)
Lemma map_pixels_bytes (c : Coefficients) (m : nat) : ∀ d : list Z,
  Forall byte d -> length d = (4 * m)%nat ->
  exists new : list Z,
    map_pixels c d = Some new
    /\ length new = length d
    /\ (forall p : nat, new !! (4 * p + 3)%nat = d !! (4 * p + 3)%nat)
    /\ forall p : nat, (p < m)%nat ->
       exists r0 g0 b0 r g bb : Z,
         d !! (4 * p)%nat = Some r0
         /\ d !! (4 * p + 1)%nat = Some g0
         /\ d !! (4 * p + 2)%nat = Some b0
         /\ transformPixel c r0 g0 b0 = Some (r, g, bb)
         /\ new !! (4 * p)%nat = Some r
         /\ new !! (4 * p + 1)%nat = Some g
         /\ new !! (4 * p + 2)%nat = Some bb
         /\ byte r /\ byte g /\ byte bb.
Proof.
  induction m as [|m IH]; intros d Hb Hlen.
  - destruct d; [|cbn in Hlen; lia]. exists []. split_and!; try done. lia.
  - destruct d as [|r0 [|g0 [|b0 [|a d]]]]; cbn [length] in Hlen; try lia.
    apply Forall_cons in Hb as [Hr0 Hb]. apply Forall_cons in Hb as [Hg0 Hb].
    apply Forall_cons in Hb as [Hb0 Hb]. apply Forall_cons in Hb as [_ Hb].
    destruct (IH d Hb ltac:(lia)) as (new & Hnew & Hlen' & Halpha & Hpx).
    destruct (transformPixel_bytes c r0 g0 b0 Hr0 Hg0 Hb0)
      as (r & g & bb & Htp & Hr & Hg & Hbb).
    cbn [map_pixels]. rewrite Htp, Hnew. cbn [mbind option_bind].
    rewrite !ToUint8Clamp_id by done.
    eexists. split; [done|]. split; [cbn [length]; lia|]. split.
    + intros [|p]; [done|].
      replace (4 * S p + 3)%nat with (S (S (S (S (4 * p + 3))))) by lia.
      cbn [lookup list_lookup]. apply Halpha.
    + intros [|p] Hp.
      * exists r0, g0, b0, r, g, bb. by split_and!.
      * destruct (Hpx p ltac:(lia))
          as (r1 & g1 & b1 & r' & g' & bb' & H1 & H2 & H3 & H4 & H5 & H6 & H7
              & H8 & H9 & H10).
        exists r1, g1, b1, r', g', bb'.
        replace (4 * S p)%nat with (S (S (S (S (4 * p))))) by lia.
        cbn [lookup list_lookup plus]. by split_and!.
Qed.

(** C8: on an image whose array holds its [4 * width * height] bytes,
    [processImageBuffer] returns an image over an array that did not exist
    before; every array of the store before the call, the input among them,
    is found unchanged after it; the output has the width, height and
    length of the input, and the alpha byte of every pixel is the one of the
    input. *)
Theorem processImageBuffer_frame (imgData : ImageData)
    (refStats tgtStats : ColorStats) (intensity_ : R)
    (shadowStrength : option R) (σ : store) (src : list Z) :
  σ !! data imgData = Some src ->
  Forall byte src ->
  length src = (4 * width imgData * height imgData)%nat ->
  length src ≠ 0%nat ->
  exists (output : ImageData) (σ' : store) (outData : list Z),
    processImageBuffer imgData refStats tgtStats intensity_ shadowStrength σ
      = Some (output, σ')
    /\ σ !! data output = None
    /\ (forall (a : nat) (arr : list Z), σ !! a = Some arr -> σ' !! a = Some arr)
    /\ σ' !! data imgData = Some src
    /\ width output = width imgData
    /\ height output = height imgData
    /\ σ' !! data output = Some outData
    /\ length outData = length src
    /\ forall p : nat, outData !! (4 * p + 3)%nat = src !! (4 * p + 3)%nat.
Proof.
  intros Hsrc Hb Hlen Hne.
  assert (σ !! fresh (dom σ) = None) as Hfresh.
  { apply not_elem_of_dom, is_fresh. }
  destruct (coefficients_Some refStats tgtStats intensity_)
    as (aL & bL & aa & ba & ab & bb & Hc).
  specialize (Hc (default 50 shadowStrength)).
  destruct (map_pixels_bytes
              (mkCoefficients aL bL aa ba ab bb
                 (crushMinFactor (default 50 shadowStrength)))
              (width imgData * height imgData) src Hb ltac:(lia))
    as (new & Hnew & Hlen' & Halpha & _).
  exists (mkImageData (fresh (dom σ)) (width imgData) (height imgData)),
         (<[fresh (dom σ) := new]> σ), new.
  split.
  { rewrite (processImageBuffer_spec _ _ _ _ _ _ src) by done.
    rewrite Hc. cbn [mbind option_bind]. by rewrite Hnew. }
  cbn [data width height]. split_and!; try done.
  - intros a arr Ha. rewrite lookup_insert_ne; [done|]. intros <-. congruence.
  - rewrite lookup_insert_ne; [done|]. intros E. congruence.
  - by rewrite lookup_insert_eq.
Qed.

Lemma processImageBuffer_frame_witness :
  exists (output : ImageData) (σ' : store) (outData : list Z),
    processImageBuffer (mkImageData 0 1 1) flat_ref wide_tgt 50 None one_white
      = Some (output, σ')
    /\ one_white !! data output = None
    /\ (forall (a : nat) (arr : list Z),
          one_white !! a = Some arr -> σ' !! a = Some arr)
    /\ σ' !! 0%nat = Some white_pixel
    /\ width output = 1%nat
    /\ height output = 1%nat
    /\ σ' !! data output = Some outData
    /\ length outData = 4%nat
    /\ forall p : nat, outData !! (4 * p + 3)%nat = white_pixel !! (4 * p + 3)%nat.
Proof.
  apply (processImageBuffer_frame (mkImageData 0 1 1) flat_ref wide_tgt 50 None
           one_white white_pixel).
  - reflexivity.
  - unfold white_pixel, byte. repeat constructor; lia.
  - reflexivity.
  - cbn. lia.
Defined.

(** Over exact reals [processImageBuffer] returns on every image of
    bytes, and each colour channel of each pixel of the output is the
    channel computed by the pixel transform, a byte. *)
Lemma processImageBuffer_pixels (imgData : ImageData)
    (refStats tgtStats : ColorStats) (intensity_ : R)
    (shadowStrength : option R) (σ : store) (src : list Z) :
  σ !! data imgData = Some src ->
  Forall byte src ->
  length src = (4 * width imgData * height imgData)%nat ->
  length src ≠ 0%nat ->
  exists (c : Coefficients) (output : ImageData) (σ' : store) (outData : list Z),
    coefficients refStats tgtStats intensity_ (default 50 shadowStrength) = Some c
    /\ processImageBuffer imgData refStats tgtStats intensity_ shadowStrength σ
       = Some (output, σ')
    /\ σ' !! data output = Some outData
    /\ forall p : nat, (p < width imgData * height imgData)%nat ->
       exists r0 g0 b0 r g bb : Z,
         src !! (4 * p)%nat = Some r0
         /\ src !! (4 * p + 1)%nat = Some g0
         /\ src !! (4 * p + 2)%nat = Some b0
         /\ transformPixel c r0 g0 b0 = Some (r, g, bb)
         /\ outData !! (4 * p)%nat = Some r
         /\ outData !! (4 * p + 1)%nat = Some g
         /\ outData !! (4 * p + 2)%nat = Some bb
         /\ (0 <= r <= 255 /\ 0 <= g <= 255 /\ 0 <= bb <= 255)%Z.
Proof.
  intros Hsrc Hb Hlen Hne.
  destruct (coefficients_Some refStats tgtStats intensity_)
    as (aL & bL & aa & ba & ab & bb & Hc).
  specialize (Hc (default 50 shadowStrength)).
  destruct (map_pixels_bytes
              (mkCoefficients aL bL aa ba ab bb
                 (crushMinFactor (default 50 shadowStrength)))
              (width imgData * height imgData) src Hb ltac:(lia))
    as (new & Hnew & Hlen' & _ & Hpx).
  eexists _, (mkImageData (fresh (dom σ)) (width imgData) (height imgData)),
         (<[fresh (dom σ) := new]> σ), new.
  split; [exact Hc|]. split.
  { rewrite (processImageBuffer_spec _ _ _ _ _ _ src) by done.
    rewrite Hc. cbn [mbind option_bind]. by rewrite Hnew. }
  cbn [data]. split; [by rewrite lookup_insert_eq|].
  intros p Hp.
  destruct (Hpx p Hp)
    as (r0 & g0 & b0 & r & g & bb' & H1 & H2 & H3 & H4 & H5 & H6 & H7
        & H8 & H9 & H10).
  unfold byte in H8, H9, H10.
  exists r0, g0, b0, r, g, bb'. split_and!; try done; lia.
Qed.

(** ** Overflow *)

Lemma fin_in (x : R) : -1e300 <= x <= 1e300 -> fin x = Some x.
Proof.
  intros H. unfold fin, MAX_VALUE. destruct (Rle_dec _ _) as [|Hn]; [done|].
  exfalso. apply Hn. apply Rabs_le. lra.
Qed.

Lemma fin_big (x : R) : 1e309 <= x -> fin x = None.
Proof.
  intros H. unfold fin, MAX_VALUE. destruct (Rle_dec _ _) as [Hle|]; [|done].
  rewrite Rabs_right in Hle by lra. lra.
Qed.

(** A computation that overflows after a checked step overflows with the
    check in place. *)
Lemma fin_bind_None {B : Type} (x : R) (f : R → option B) :
  f x = None -> fin x ≫= f = None.
Proof. intros H. unfold fin. by destruct (Rle_dec _ _). Qed.

Lemma fin_bind_Some {B : Type} (x : R) (f : R → option B) (v : B) :
  fin x ≫= f = Some v -> f x = Some v.
Proof. unfold fin. by destruct (Rle_dec _ _). Qed.

Lemma cube_within (h x : R) :
  - h <= x <= h -> - (h * h * h) <= x * x * x <= h * h * h.
Proof.
  intros [Hl Hh]. destruct (Rle_lt_dec 0 x) as [Hx|Hx].
  - pose proof (cube_le x h ltac:(lra)).
    pose proof (cube_le 0 x ltac:(lra)). lra.
  - pose proof (cube_le (- x) h ltac:(lra)) as H.
    pose proof (cube_le 0 (- x) ltac:(lra)) as H0.
    replace (- x * - x * - x) with (- (x * x * x)) in H, H0 by ring. lra.
Qed.

Lemma Rpower_le_max (x y : R) : 0 < x -> 0 <= y <= 1 -> Rpower x y <= Rmax 1 x.
Proof.
  intros Hx [Hy0 Hy1]. destruct (Rle_lt_dec x 1) as [Hle|Hlt].
  - rewrite Rmax_left by done. rewrite <- (Rpower_1_l y).
    apply Rle_Rpower_l; [done|lra].
  - rewrite Rmax_right by lra. rewrite <- (Rpower_1 x) at 2 by done.
    apply Rle_Rpower; lra.
Qed.

(** Up to [1e100] the checked [linearToSRGB] is the exact one. *)
Lemma Finite_linearToSRGB_exact (x : R) :
  -1e100 <= x <= 1e100 -> Finite.linearToSRGB x = linearToSRGB x.
Proof.
  intros Hx. unfold Finite.linearToSRGB, linearToSRGB.
  destruct (Rle_dec x 0.0031308) as [Hle|Hgt].
  - rewrite (fin_in (x * 12.92)) by lra. cbn [mbind option_bind].
    by rewrite fin_in by lra.
  - rewrite Math_pow_pos by lra. cbn [mbind option_bind].
    pose proof (Rpower_pos x (1 / 2.4)) as Hp0.
    pose proof (Rpower_le_max x (1 / 2.4) ltac:(lra) ltac:(lra)) as Hp1.
    assert (Rmax 1 x <= 1e100) by (apply Rmax_lub; lra).
    set (p := Rpower x (1 / 2.4)) in *.
    rewrite (fin_in (1.055 * p - 0.055)) by lra. cbn [mbind option_bind].
    by rewrite fin_in by lra.
Qed.

(** So is the checked [oklab2rgb], on a lightness of at most 400 and
    chroma coordinates of at most 17 in size. *)
Lemma Finite_oklab2rgb_exact (L a b : R) :
  -400 <= L <= 400 -> -17 <= a <= 17 -> -17 <= b <= 17 ->
  Finite.oklab2rgb L a b = oklab2rgb L a b.
Proof.
  intros HL Ha Hb. unfold Finite.oklab2rgb, oklab2rgb. cbn zeta.
  set (l_ := L + 0.3963377774 * a + 0.2158037573 * b).
  set (m_ := L - 0.1055613458 * a - 0.0638541728 * b).
  set (s_ := L - 0.0894841775 * a - 1.2914855480 * b).
  assert (-430 <= l_ <= 430) as Hl_ by (unfold l_; lra).
  assert (-430 <= m_ <= 430) as Hm_ by (unfold m_; lra).
  assert (-430 <= s_ <= 430) as Hs_ by (unfold s_; lra).
  pose proof (cube_within 430 l_ Hl_) as Hl3.
  pose proof (cube_within 430 m_ Hm_) as Hm3.
  pose proof (cube_within 430 s_ Hs_) as Hs3.
  clearbody l_ m_ s_.
  rewrite (fin_in l_), (fin_in m_), (fin_in s_) by lra. cbn [mbind option_bind].
  set (l__ := l_ * l_ * l_) in *. set (m__ := m_ * m_ * m_) in *.
  set (s__ := s_ * s_ * s_) in *. clearbody l__ m__ s__.
  rewrite (fin_in l__), (fin_in m__), (fin_in s__) by lra. cbn [mbind option_bind].
  rewrite !fin_in by lra. cbn [mbind option_bind].
  by rewrite !Finite_linearToSRGB_exact by lra.
Qed.

Lemma Rabs_within (x h : R) : Rabs x <= h -> - h <= x <= h.
Proof. unfold Rabs. destruct (Rcase_abs x); lra. Qed.

Lemma blend_within (h a x w : R) :
  - h <= a <= h -> - h <= x <= h -> 0 <= w <= 1 ->
  - h <= a + (x - a) * w <= h.
Proof. intros Ha Hx Hw. nra. Qed.

Lemma maskWeight_unit (l : R) : -0.01 <= l <= 1.01 -> 0 <= maskWeight l <= 1.
Proof.
  intros Hl. unfold maskWeight.
  destruct (Rgt_dec l 0.90); [minmax; lra|].
  destruct (Rlt_dec l 0.08); [minmax; lra|lra].
Qed.

Lemma Finite_maskWeight (l : R) :
  -0.01 <= l <= 1.01 ->
  (if Rgt_dec l 0.90 then
     w ← fin (1.0 - (l - 0.90) * 10.0); Some (Math_max 0 w)
   else if Rlt_dec l 0.08 then
     w ← fin (l * 12.5); Some (Math_max 0 w)
   else Some 1.0) = Some (maskWeight l).
Proof.
  intros Hl. unfold maskWeight.
  destruct (Rgt_dec l 0.90); [by rewrite fin_in by lra|].
  destruct (Rlt_dec l 0.08); [by rewrite fin_in by lra|done].
Qed.

Lemma shadowCrush_within (cm l : R) :
  0 <= cm <= 1 -> -15 <= l <= 15 -> -400 <= shadowCrush cm l <= 400.
Proof.
  intros Hcm Hl. unfold shadowCrush. destruct (Rlt_dec l 0.65); [|lra].
  assert (-24 <= l / 0.65 <= 24) as Hq by lra.
  set (q := l / 0.65) in *. clearbody q.
  assert (-24 <= q * (1.0 - cm) <= 24) as Hp by nra.
  set (p := q * (1.0 - cm)) in *. clearbody p.
  assert (-25 <= cm + p <= 25) as Hc by lra.
  set (crush := cm + p) in *. clearbody crush. nra.
Qed.

Lemma Finite_shadowCrush (cm l : R) :
  0 <= cm <= 1 -> -15 <= l <= 15 ->
  (if Rlt_dec l 0.65 then
     crush ← fin (cm + (l / 0.65) * (1.0 - cm)); fin (l * crush)
   else Some l) = Some (shadowCrush cm l).
Proof.
  intros Hcm Hl. pose proof (shadowCrush_within cm l Hcm Hl) as H.
  unfold shadowCrush in *. destruct (Rlt_dec l 0.65); [|done].
  assert (-24 <= l / 0.65 <= 24) as Hq by lra.
  set (q := l / 0.65) in *. clearbody q.
  assert (-24 <= q * (1.0 - cm) <= 24) as Hp by nra.
  rewrite (fin_in (cm + _)) by lra. cbn [mbind option_bind]. by rewrite fin_in by lra.
Qed.

(** On the working-space image of a byte triple and bounded coefficients
    the checked [transformLab] is the exact one, and what it returns is
    within the domain on which [oklab2rgb] is. *)
Lemma Finite_transformLab_exact (c : Coefficients) (lab : R * R * R) :
  bounded_coefficients c -> bounded_lab lab ->
  Finite.transformLab c lab = Some (transformLab c lab)
  /\ -400 <= (transformLab c lab).1.1 <= 400
  /\ -17 <= (transformLab c lab).1.2 <= 17
  /\ -17 <= (transformLab c lab).2 <= 17.
Proof.
  destruct lab as [[l a] b].
  intros ((HAL & HAa & HAb) & (HBL & HBa & HBb) & Hcm) (Hl & Ha & Hb).
  cbn [fst snd] in Hl, Ha, Hb.
  unfold Finite.transformLab, transformLab. cbn zeta.
  assert (-13 <= l * A_L c + B_L c <= 13) as Hl0 by nra.
  assert (-17 <= a * A_a c + B_a c <= 17) as Ha0 by nra.
  assert (-17 <= b * A_b c + B_b c <= 17) as Hb0 by nra.
  set (l0 := l * A_L c + B_L c) in *. set (a0 := a * A_a c + B_a c) in *.
  set (b0 := b * A_b c + B_b c) in *. clearbody l0 a0 b0.
  rewrite (fin_in l0), (fin_in a0), (fin_in b0) by lra. cbn [mbind option_bind].
  unfold contrastLift.
  assert (-15 <= (l0 - 0.5) * 1.1 + 0.5 <= 15) as Hl1 by lra.
  set (l1 := (l0 - 0.5) * 1.1 + 0.5) in *. clearbody l1.
  rewrite (fin_in l1) by lra. cbn [mbind option_bind].
  rewrite Finite_shadowCrush by done. cbn [mbind option_bind].
  rewrite Finite_maskWeight by done. cbn [mbind option_bind].
  pose proof (maskWeight_unit l Hl) as Hw.
  pose proof (shadowCrush_within (crush_min c) l1 Hcm Hl1) as Hl2.
  pose proof (blend_within 17 a a0 (maskWeight l) ltac:(lra) ltac:(lra) Hw) as Haf.
  pose proof (blend_within 17 b b0 (maskWeight l) ltac:(lra) ltac:(lra) Hw) as Hbf.
  rewrite !fin_in by lra. cbn [mbind option_bind fst snd]. done.
Qed.

Lemma quotient_within (x y : R) :
  0 <= x <= 0.18 -> 0.01 < y -> 0 <= x / y <= 18.
Proof.
  intros Hx Hy. assert (0 < / y) as Hi by (apply Rinv_0_lt_compat; lra).
  assert (y * / y = 1) as H1 by (apply Rinv_r; lra).
  assert (/ y < 100) by nra. unfold Rdiv. nra.
Qed.

(** On bounded statistics the scale of a channel is found without
    overflow, and lies between 0 and the cap. *)
Lemma Finite_rawScale_exact (refStats tgtStats : ColorStats) (i : nat) :
  bounded_stats refStats -> bounded_stats tgtStats ->
  exists s : R,
    rawScale refStats tgtStats i = Some s
    /\ Finite.rawScale refStats tgtStats i = Some s
    /\ 0 <= s <= 3.
Proof.
  intros Href Htgt. unfold Finite.rawScale, rawScale.
  destruct (Rgt_dec _ _) as [Hgt|_]; [|exists 1; split_and!; try done; lra].
  rewrite div_Some by lra. cbn [mbind option_bind].
  destruct (Href i) as [_ Hs].
  assert (0 <= effectiveRefStd refStats i <= 0.18) as He.
  { unfold effectiveRefStd, REF_STD_CAP. minmax; lra. }
  pose proof (quotient_within _ _ He Hgt) as Hq.
  rewrite fin_in by lra. cbn [mbind option_bind].
  eexists. split_and!; try done; unfold SCALE_CAP; minmax; lra.
Qed.

Lemma gain_within (s k : R) :
  0 <= s <= 3 -> 0 <= k <= 0.88 ->
  0 <= 1 + (1.0 + (s - 1.0) * BLEND_STD - 1) * k <= 3.
Proof. intros Hs Hk. unfold BLEND_STD. nra. Qed.

Lemma offset_within (mr mt s k : R) :
  -3 <= mr <= 3 -> -3 <= mt <= 3 -> 0 <= s <= 3 -> 0 <= k <= 0.88 ->
  -9 <= (mr - mt * (1.0 + (s - 1.0) * BLEND_STD)) * k * 0.8 <= 9.
Proof.
  intros Hr Ht Hs Hk. unfold BLEND_STD.
  assert (0.05 <= 1.0 + (s - 1.0) * 0.95 <= 2.9) as Hsc by lra.
  set (sc := 1.0 + (s - 1.0) * 0.95) in *. clearbody sc.
  assert (-8.7 <= mt * sc <= 8.7) as Hp by nra.
  set (p := mt * sc) in *. clearbody p.
  assert (-11.7 <= mr - p <= 11.7) as Hd by lra.
  set (d := mr - p) in *. clearbody d. nra.
Qed.

(** On bounded statistics and slider values nothing overflows on the way
    to the coefficients, and they are bounded. *)
Lemma Finite_coefficients_exact (refStats tgtStats : ColorStats)
    (intensity_ shadowStrength : R) :
  bounded_stats refStats -> bounded_stats tgtStats ->
  slider intensity_ -> slider shadowStrength ->
  exists c : Coefficients,
    coefficients refStats tgtStats intensity_ shadowStrength = Some c
    /\ Finite.coefficients refStats tgtStats intensity_ shadowStrength = Some c
    /\ bounded_coefficients c.
Proof.
  intros Href Htgt Hi Hs. unfold slider in *.
  unfold Finite.coefficients, coefficients. cbn zeta.
  destruct (Finite_rawScale_exact refStats tgtStats 0 Href Htgt) as (sL & -> & -> & HsL).
  destruct (Finite_rawScale_exact refStats tgtStats 1 Href Htgt) as (sA & -> & -> & HsA).
  destruct (Finite_rawScale_exact refStats tgtStats 2 Href Htgt) as (sB & -> & -> & HsB).
  assert (0 <= k intensity_ <= 0.88) as Hk by (unfold k; lra). unfold k in *.
  set (kk := intensity_ / 114.0) in *. clearbody kk.
  assert (0 <= crushMinFactor shadowStrength <= 1) as Hcm.
  { unfold crushMinFactor. cbn zeta. minmax; lra. }
  unfold crushMinFactor in *. cbn zeta in Hcm.
  rewrite (fin_in kk) by lra. cbn [mbind option_bind].
  rewrite (fin_in (1.0 - _)) by lra. cbn [mbind option_bind].
  pose proof (gain_within sL kk HsL Hk) as HAL.
  pose proof (gain_within sA kk HsA Hk) as HAa.
  pose proof (gain_within sB kk HsB Hk) as HAb.
  destruct (Href 0%nat) as [Hr0%Rabs_within _].
  destruct (Href 1%nat) as [Hr1%Rabs_within _].
  destruct (Href 2%nat) as [Hr2%Rabs_within _].
  destruct (Htgt 0%nat) as [Ht0%Rabs_within _].
  destruct (Htgt 1%nat) as [Ht1%Rabs_within _].
  destruct (Htgt 2%nat) as [Ht2%Rabs_within _].
  pose proof (offset_within _ _ sL kk Hr0 Ht0 HsL Hk) as HBL.
  pose proof (offset_within _ _ sA kk Hr1 Ht1 HsA Hk) as HBa.
  pose proof (offset_within _ _ sB kk Hr2 Ht2 HsB Hk) as HBb.
  unfold BLEND_STD, BLEND_MEAN_L, BLEND_MEAN_C in *.
  rewrite !(fin_in (1.0 + _)) by lra. cbn [mbind option_bind].
  rewrite (fin_in (1 + _)) by lra. cbn [mbind option_bind].
  rewrite (fin_in (_ * 0.8)) by lra. cbn [mbind option_bind].
  rewrite (fin_in (1 + _)) by lra. cbn [mbind option_bind].
  rewrite (fin_in (_ * 0.8)) by lra. cbn [mbind option_bind].
  rewrite (fin_in (1 + _)) by lra. cbn [mbind option_bind].
  rewrite (fin_in (_ * 0.8)) by lra. cbn [mbind option_bind].
  eexists. split; [done|]. split; [done|].
  exact (conj (conj HAL (conj HAa HAb)) (conj (conj HBL (conj HBa HBb)) Hcm)).
Qed.

(** On bytes nothing overflows on the way into the working space. *)
Lemma Finite_rgb2oklab_exact (r g b : Z) :
  byte r -> byte g -> byte b ->
  exists lab : R * R * R,
    rgb2oklab r g b = Some lab
    /\ Finite.rgb2oklab r g b = Some lab
    /\ bounded_lab lab.
Proof.
  intros Hr Hg Hb. unfold Finite.rgb2oklab, rgb2oklab.
  destruct (TABLE_byte r Hr) as (rL & -> & HrL & _).
  destruct (TABLE_byte g Hg) as (gL & -> & HgL & _).
  destruct (TABLE_byte b Hb) as (bL & -> & HbL & _).
  cbn [mbind option_bind]. cbn zeta.
  set (l_ := 0.4122214708 * rL + 0.5363325363 * gL + 0.0514459929 * bL).
  set (m_ := 0.2119034982 * rL + 0.6806995451 * gL + 0.1073969566 * bL).
  set (s_ := 0.0883024619 * rL + 0.2817188376 * gL + 0.6299787005 * bL).
  assert (0 <= l_ <= 1) as Hl by (unfold l_; lra).
  assert (0 <= m_ <= 1) as Hm by (unfold m_; lra).
  assert (0 <= s_ <= 1) as Hs by (unfold s_; lra).
  clearbody l_ m_ s_.
  rewrite (fin_in l_), (fin_in m_), (fin_in s_) by lra. cbn [mbind option_bind].
  pose proof (Math_cbrt_unit l_ Hl) as Hl'.
  pose proof (Math_cbrt_unit m_ Hm) as Hm'.
  pose proof (Math_cbrt_unit s_ Hs) as Hs'.
  set (l__ := Math_cbrt l_) in *. set (m__ := Math_cbrt m_) in *.
  set (s__ := Math_cbrt s_) in *. clearbody l__ m__ s__.
  rewrite !fin_in by lra. cbn [mbind option_bind].
  eexists. split; [done|]. split; [done|].
  unfold bounded_lab. cbn [fst snd]. lra.
Qed.

(** The pixel transform of a byte triple, under bounded coefficients:
    nothing overflows, and the result is the one over exact reals. *)
Lemma Finite_transformPixel_exact (c : Coefficients) (r g b : Z) :
  bounded_coefficients c -> byte r -> byte g -> byte b ->
  Finite.transformPixel c r g b = transformPixel c r g b.
Proof.
  intros Hc Hr Hg Hb. unfold Finite.transformPixel, transformPixel, rgb2lab, lab2rgb.
  destruct (Finite_rgb2oklab_exact r g b Hr Hg Hb) as (lab & -> & -> & Hlab).
  cbn [mbind option_bind].
  destruct (Finite_transformLab_exact c lab Hc Hlab) as (-> & Hl & Ha & Hb').
  cbn [mbind option_bind].
  destruct (transformLab c lab) as [[l' a'] b']. cbn [fst snd] in *.
  by apply Finite_oklab2rgb_exact.
Qed.

(** Whatever the arguments, a result of the checked functions is the
    result over exact reals. *)
Lemma fin_Some (x y : R) : fin x = Some y -> y = x.
Proof. unfold fin. destruct (Rle_dec _ _); congruence. Qed.

Ltac fin_step H :=
  match type of H with
  | context [fin ?x] =>
      let E := fresh "E" in
      let y := fresh "y" in
      destruct (fin x) as [y|] eqn:E;
      [apply fin_Some in E; subst y|];
      cbn [mbind option_bind] in H; try discriminate H
  end.

Lemma Finite_linearToSRGB_refines (x : R) (z : Z) :
  Finite.linearToSRGB x = Some z -> linearToSRGB x = Some z.
Proof.
  unfold Finite.linearToSRGB, linearToSRGB. intros H.
  destruct (Rle_dec x 0.0031308).
  - repeat fin_step H. exact H.
  - destruct (Math_pow x (1 / 2.4)); cbn [mbind option_bind] in *; [|done].
    repeat fin_step H. exact H.
Qed.

Lemma Finite_rgb2oklab_refines (r g b : Z) (lab : R * R * R) :
  Finite.rgb2oklab r g b = Some lab -> rgb2oklab r g b = Some lab.
Proof.
  unfold Finite.rgb2oklab, rgb2oklab. intros H.
  destruct (TABLE_sRGBToLinear r); cbn [mbind option_bind] in *; [|done].
  destruct (TABLE_sRGBToLinear g); cbn [mbind option_bind] in *; [|done].
  destruct (TABLE_sRGBToLinear b); cbn [mbind option_bind] in *; [|done].
  repeat fin_step H. exact H.
Qed.

Lemma Finite_oklab2rgb_refines (L a b : R) (v : Z * Z * Z) :
  Finite.oklab2rgb L a b = Some v -> oklab2rgb L a b = Some v.
Proof.
  unfold Finite.oklab2rgb, oklab2rgb. intros H. repeat fin_step H. cbn zeta.
  repeat match type of H with
  | context [Finite.linearToSRGB ?x] =>
      let E := fresh "E" in
      destruct (Finite.linearToSRGB x) eqn:E;
      [rewrite (Finite_linearToSRGB_refines _ _ E)|];
      cbn [mbind option_bind] in H |- *; try discriminate H
  end.
  exact H.
Qed.

Lemma Finite_transformLab_refines (c : Coefficients) (lab v : R * R * R) :
  Finite.transformLab c lab = Some v -> transformLab c lab = v.
Proof.
  destruct lab as [[l a] b]. unfold Finite.transformLab, transformLab.
  unfold contrastLift, shadowCrush, maskWeight. intros H.
  repeat fin_step H;
    destruct (Rlt_dec _ 0.65); (destruct (Rgt_dec l 0.90); [|destruct (Rlt_dec l 0.08)]);
    cbn [mbind option_bind] in H; repeat fin_step H;
    first [discriminate H | by injection H].
Qed.

Lemma Finite_transformPixel_refines (c : Coefficients) (r g b : Z) (v : Z * Z * Z) :
  Finite.transformPixel c r g b = Some v -> transformPixel c r g b = Some v.
Proof.
  unfold Finite.transformPixel, transformPixel, rgb2lab, lab2rgb. intros H.
  destruct (Finite.rgb2oklab r g b) as [lab|] eqn:Elab;
    cbn [mbind option_bind] in H; [|done].
  rewrite (Finite_rgb2oklab_refines _ _ _ _ Elab). cbn [mbind option_bind].
  destruct (Finite.transformLab c lab) as [[[l' a'] b']|] eqn:El;
    cbn [mbind option_bind] in H; [|done].
  rewrite (Finite_transformLab_refines _ _ _ El).
  by apply Finite_oklab2rgb_refines.
Qed.

(** *** A pixel that overflows *)

Lemma Math_cbrt_0 : Math_cbrt 0 = 0.
Proof.
  unfold Math_cbrt. destruct (Rlt_dec 0 0); [lra|]. destruct (Rlt_dec 0 0); [lra|done].
Qed.

Lemma Finite_rgb2oklab_black : Finite.rgb2oklab 0 0 0 = Some (0, 0, 0).
Proof.
  unfold Finite.rgb2oklab. rewrite TABLE_low by (first [lia|lra]).
  cbn [mbind option_bind].
  replace (0 / 255 / 12.92) with 0 by lra.
  replace (0.4122214708 * 0 + 0.5363325363 * 0 + 0.0514459929 * 0) with 0 by lra.
  replace (0.2119034982 * 0 + 0.6806995451 * 0 + 0.1073969566 * 0) with 0 by lra.
  replace (0.0883024619 * 0 + 0.2817188376 * 0 + 0.6299787005 * 0) with 0 by lra.
  rewrite (fin_in 0) by lra. cbn [mbind option_bind]. rewrite Math_cbrt_0.
  rewrite !fin_in by lra. cbn [mbind option_bind].
  do 2 f_equal; [f_equal|]; lra.
Qed.

(** With a lightness offset of [1e104] or more the cube of [oklab2rgb]
    overflows on the black pixel. *)
Lemma Finite_transformPixel_black (c : Coefficients) :
  1e104 <= B_L c -> Finite.transformPixel c 0 0 0 = None.
Proof.
  intros HB. unfold Finite.transformPixel. rewrite Finite_rgb2oklab_black.
  cbn [mbind option_bind].
  destruct (Finite.transformLab c (0, 0, 0)) as [[[l' a'] b']|] eqn:E;
    cbn [mbind option_bind]; [|done].
  apply Finite_transformLab_refines in E. unfold transformLab in E. cbn zeta in E.
  assert (maskWeight 0 = 0) as Hw.
  { unfold maskWeight. destruct (Rgt_dec 0 0.90); [lra|].
    destruct (Rlt_dec 0 0.08); [|lra]. minmax; lra. }
  rewrite Hw in E. unfold contrastLift, shadowCrush in E.
  destruct (Rlt_dec _ 0.65) in E; [lra|]. injection E as <- <- <-.
  unfold Finite.oklab2rgb. do 3 apply fin_bind_None.
  set (l_ := _ + 0.3963377774 * _ + 0.2158037573 * _).
  assert (1e103 <= l_) as Hl_ by (unfold l_; lra).
  rewrite (fin_big (l_ * l_ * l_)); [reflexivity|].
  clearbody l_. pose proof (cube_le 1e103 l_ ltac:(lra)). lra.
Qed.

Lemma rawScale_unit (refStats tgtStats : ColorStats) (i : nat) :
  at3 (std refStats) i = 0.1 -> at3 (std tgtStats) i = 0.1 ->
  rawScale refStats tgtStats i = Some 1
  /\ Finite.rawScale refStats tgtStats i = Some 1.
Proof.
  intros Hr Ht. unfold Finite.rawScale, rawScale, effectiveRefStd, REF_STD_CAP, SCALE_CAP.
  rewrite Hr, Ht. destruct (Rgt_dec 0.1 0.01); [|lra].
  rewrite div_Some by lra. cbn [mbind option_bind].
  assert (Math_min 0.1 0.18 / 0.1 = 1) as -> by (minmax; lra).
  rewrite fin_in by lra. cbn [mbind option_bind].
  assert (Math_min 3.0 1 = 1) as -> by (minmax; lra). done.
Qed.

Lemma huge_coefficients :
  exists c : Coefficients,
    coefficients huge_ref wide_tgt 100 50 = Some c
    /\ Finite.coefficients huge_ref wide_tgt 100 50 = Some c
    /\ 1e104 <= B_L c.
Proof.
  unfold Finite.coefficients, coefficients. cbn zeta.
  destruct (rawScale_unit huge_ref wide_tgt 0 eq_refl eq_refl) as [-> ->].
  destruct (rawScale_unit huge_ref wide_tgt 1 eq_refl eq_refl) as [-> ->].
  destruct (rawScale_unit huge_ref wide_tgt 2 eq_refl eq_refl) as [-> ->].
  cbn [mbind option_bind at3 mean huge_ref wide_tgt fst snd].
  unfold k, crushMinFactor, BLEND_STD, BLEND_MEAN_L, BLEND_MEAN_C. cbn zeta.
  repeat (rewrite !fin_in by lra; cbn [mbind option_bind]).
  eexists. split; [done|]. split; [done|]. cbn [B_L]. lra.
Qed.

(** *** The statistics [computeStats] returns are bounded *)

Lemma Rsum_within (lo hi : R) (xs : list R) :
  Forall (λ x, lo <= x <= hi) xs ->
  INR (length xs) * lo <= Rsum xs <= INR (length xs) * hi.
Proof.
  unfold Rsum. induction 1 as [|x xs Hx _ IH]; [cbn; lra|].
  cbn [foldr]. rewrite length_cons, S_INR. lra.
Qed.

Lemma mean_of_within (lo hi : R) (xs : list R) :
  xs ≠ [] -> Forall (λ x, lo <= x <= hi) xs -> lo <= mean_of xs <= hi.
Proof.
  intros Hne Hxs. pose proof (Rsum_within lo hi xs Hxs) as Hs.
  assert (0 < INR (length xs)) as Hn.
  { apply lt_0_INR. destruct xs; [done|cbn; lia]. }
  unfold mean_of. set (n := INR (length xs)) in *. clearbody n.
  assert (0 < / n) as Hi by (by apply Rinv_0_lt_compat).
  assert (n * / n = 1) as H1 by (apply Rinv_r; lra).
  unfold Rdiv. split.
  - replace lo with (n * lo * / n) by (rewrite Rmult_assoc, (Rmult_comm lo),
      <- Rmult_assoc, H1; lra).
    apply Rmult_le_compat_r; lra.
  - replace hi with (n * hi * / n) by (rewrite Rmult_assoc, (Rmult_comm hi),
      <- Rmult_assoc, H1; lra).
    apply Rmult_le_compat_r; lra.
Qed.

Lemma std_of_within (lo hi : R) (xs : list R) :
  xs ≠ [] -> Forall (λ x, lo <= x <= hi) xs -> 0 <= std_of xs <= hi - lo.
Proof.
  intros Hne Hxs. pose proof (mean_of_within lo hi xs Hne Hxs) as Hm.
  unfold std_of. cbn zeta. set (m := mean_of xs) in *. clearbody m.
  split; [apply sqrt_pos|].
  set (sq := (λ x, (x - m) * (x - m)) <$> xs).
  assert (Forall (λ y, 0 <= y <= (hi - lo) * (hi - lo)) sq) as Hsq.
  { unfold sq. apply Forall_fmap. eapply Forall_impl; [exact Hxs|].
    intros x Hx. cbn.
    pose proof (Rle_0_sqr (x - m)) as H0. unfold Rsqr in H0.
    pose proof (Rmult_le_pos (hi - lo - (x - m)) (hi - lo + (x - m))
                  ltac:(lra) ltac:(lra)).
    lra. }
  assert (sq ≠ []) as Hne' by (unfold sq; by destruct xs).
  pose proof (mean_of_within _ _ sq Hne' Hsq) as Hv. unfold mean_of in Hv.
  assert (length sq = length xs) as El by (unfold sq; by rewrite length_fmap).
  rewrite El in Hv.
  assert (lo <= hi) by lra.
  rewrite <- (sqrt_square (hi - lo)) by lra. apply sqrt_le_1_alt. lra.
Qed.

Lemma sampled_Forall (conv : Z → Z → Z → option (R * R * R))
    (skip : Z → Z → Z → bool) (P : R * R * R → Prop)
    (data : list Z) (labs : list (R * R * R)) :
  (forall (r g b : Z) (lab : R * R * R),
     byte r -> byte g -> byte b -> conv r g b = Some lab -> P lab) ->
  Forall byte data ->
  sampled conv skip data = Some labs ->
  Forall P labs.
Proof.
  intros Hconv Hb. unfold sampled. intros H%mapM_Some.
  pose proof (rgba_pixels_bytes (length data) data ltac:(done) Hb) as Hpx.
  assert (Forall (λ p, byte p.1.1 /\ byte p.1.2 /\ byte p.2)
            (filter (λ p : Z * Z * Z, ¬ skip p.1.1 p.1.2 p.2)
               (rgba_pixels data))) as Hpx'.
  { apply Forall_forall. intros p [_ Hp]%list_elem_of_filter.
    by apply (proj1 (Forall_forall _ _) Hpx). }
  clear Hpx. induction H as [|p lab ps labs Hp _ IH]; [constructor|].
  apply Forall_cons in Hpx' as [(Hr & Hg & Hb') Hpx']. constructor; [|by apply IH].
  by apply (Hconv p.1.1 p.1.2 p.2).
Qed.

(** Statistics of an image of bytes, for a converter that takes bytes
    into a box: the sentinel, or means within the box and deviations of
    at most its sides. *)
Lemma computeStats_with_within (conv : Z → Z → Z → option (R * R * R))
    (skip : Z → Z → Z → bool) (l0 l1 a0 a1 b0 b1 : R)
    (data : list Z) (m : nat) (s : ColorStats) :
  (forall (r g b : Z) (lab : R * R * R),
     byte r -> byte g -> byte b -> conv r g b = Some lab ->
     l0 <= lab.1.1 <= l1 /\ a0 <= lab.1.2 <= a1 /\ b0 <= lab.2 <= b1) ->
  Forall byte data -> length data = (4 * m)%nat ->
  computeStats_with conv skip data = Some s ->
  s = sentinel
  \/ (l0 <= at3 (mean s) 0 <= l1 /\ 0 <= at3 (std s) 0 <= l1 - l0)
     /\ (a0 <= at3 (mean s) 1 <= a1 /\ 0 <= at3 (std s) 1 <= a1 - a0)
     /\ (b0 <= at3 (mean s) 2 <= b1 /\ 0 <= at3 (std s) 2 <= b1 - b0).
Proof.
  intros Hconv Hb Hlen.
  rewrite (computeStats_with_spec _ _ data m Hlen).
  destruct (sampled conv skip data) as [labs|] eqn:Hs; [|done].
  cbn [mbind option_bind]. rewrite stats_of_pushes.
  pose proof (sampled_Forall conv skip _ data labs Hconv Hb Hs) as Hlabs.
  destruct labs as [|t labs]; [intros [= <-]; by left|].
  cbn zeta. intros [= <-]. right.
  set (all := t :: labs) in *.
  assert (Forall (λ x, l0 <= x <= l1) ((λ t, t.1.1) <$> all)) as HL.
  { apply Forall_fmap. eapply Forall_impl; [exact Hlabs|]. by intros ? (? & ? & ?). }
  assert (Forall (λ x, a0 <= x <= a1) ((λ t, t.1.2) <$> all)) as HA.
  { apply Forall_fmap. eapply Forall_impl; [exact Hlabs|]. by intros ? (? & ? & ?). }
  assert (Forall (λ x, b0 <= x <= b1) ((λ t, t.2) <$> all)) as HB.
  { apply Forall_fmap. eapply Forall_impl; [exact Hlabs|]. by intros ? (? & ? & ?). }
  assert (forall f : R * R * R → R, f <$> all ≠ []) as Hne by done.
  pose proof (mean_of_within _ _ _ (Hne _) HL) as HmL.
  pose proof (mean_of_within _ _ _ (Hne _) HA) as HmA.
  pose proof (mean_of_within _ _ _ (Hne _) HB) as HmB.
  pose proof (std_of_within _ _ _ (Hne _) HL) as HsL.
  pose proof (std_of_within _ _ _ (Hne _) HA) as HsA.
  pose proof (std_of_within _ _ _ (Hne _) HB) as HsB.
  clear HL HA HB Hne. unfold all in *. cbn [fmap list_fmap] in *.
  cbn [at3 mean std fst snd]. change (list_fmap _ _ ?f ?l) with (f <$> l). done.
Qed.

(** The statistics of an image of bytes: means of at most 3 and
    deviations of at most 6. *)
Lemma computeStats_bounded (data : list Z) (m : nat) (s : ColorStats) :
  Forall byte data -> length data = (4 * m)%nat ->
  computeStats data = Some s -> bounded_stats s.
Proof.
  intros Hb Hlen Hs.
  destruct (computeStats_with_within rgb2lab (λ _ _ _, false)
              (-0.01) 1.01 (-2.5) 2.5 (-0.9) 0.9 data m s) as [->|H]; try done.
  - intros r g b lab Hr Hg Hb' Hlab.
    destruct (Finite_rgb2oklab_exact r g b Hr Hg Hb') as (lab' & Hlab' & _ & Hbd).
    unfold rgb2lab in Hlab. assert (lab' = lab) as <- by congruence. exact Hbd.
  - intros [|[|i]]; cbn; rewrite ?Rabs_R0; lra.
  - destruct H as ((? & ?) & (? & ?) & (? & ?)).
    intros [|[|i]]; (split; [apply Rabs_le|]);
      try change (at3 ?v (S (S ?j))) with (at3 v 2); lra.
Qed.

Lemma flat_ref_bounded : bounded_stats flat_ref.
Proof.
  intros [|[|i]]; cbn [at3 mean std flat_ref fst snd];
    (split; [apply Rabs_le|]); lra.
Qed.

Lemma wide_tgt_bounded : bounded_stats wide_tgt.
Proof.
  intros [|[|i]]; cbn [at3 mean std wide_tgt fst snd];
    (split; [apply Rabs_le|]); lra.
Qed.

(** C7, as stated, fails: for a reference of mean lightness [1e200] (the
    target statistics of a usual image, intensity 100, shadow strength 50)
    the coefficients are found without overflow, and on the black pixel
    the cube [l_ * l_ * l_] of [oklab2rgb] overflows. *)
Lemma transformPixel_overflows :
  exists c : Coefficients,
    coefficients huge_ref wide_tgt 100 50 = Some c
    /\ Finite.coefficients huge_ref wide_tgt 100 50 = Some c
    /\ Finite.transformPixel c 0 0 0 = None.
Proof.
  destruct huge_coefficients as (c & Hc & Hc' & HB).
  exists c. split_and!; try done. by apply Finite_transformPixel_black.
Qed.

(** C7, amended: for statistics with means of at most 3 and deviations of
    at most 6 in size (those of every image of bytes are) and slider
    values between 0 and 100, on every image of bytes, nothing overflows
    and nothing is NaN on the way to the coefficients and in the
    transform of any pixel, [processImageBuffer] returns, and each colour
    channel of each pixel of the output is the channel computed by the
    pixel transform and lies in [0, 255]. *)
Theorem processImageBuffer_in_range (imgData : ImageData)
    (refStats tgtStats : ColorStats) (intensity_ : R)
    (shadowStrength : option R) (σ : store) (src : list Z) :
  bounded_stats refStats ->
  bounded_stats tgtStats ->
  slider intensity_ ->
  slider (default 50 shadowStrength) ->
  σ !! data imgData = Some src ->
  Forall byte src ->
  length src = (4 * width imgData * height imgData)%nat ->
  length src ≠ 0%nat ->
  exists (c : Coefficients) (output : ImageData) (σ' : store) (outData : list Z),
    Finite.coefficients refStats tgtStats intensity_ (default 50 shadowStrength)
    = Some c
    /\ processImageBuffer imgData refStats tgtStats intensity_ shadowStrength σ
       = Some (output, σ')
    /\ σ' !! data output = Some outData
    /\ forall p : nat, (p < width imgData * height imgData)%nat ->
       exists r0 g0 b0 r g bb : Z,
         src !! (4 * p)%nat = Some r0
         /\ src !! (4 * p + 1)%nat = Some g0
         /\ src !! (4 * p + 2)%nat = Some b0
         /\ Finite.transformPixel c r0 g0 b0 = Some (r, g, bb)
         /\ outData !! (4 * p)%nat = Some r
         /\ outData !! (4 * p + 1)%nat = Some g
         /\ outData !! (4 * p + 2)%nat = Some bb
         /\ (0 <= r <= 255 /\ 0 <= g <= 255 /\ 0 <= bb <= 255)%Z.
Proof.
  intros Href Htgt Hi Hs Hsrc Hb Hlen Hne.
  destruct (Finite_coefficients_exact refStats tgtStats intensity_
              (default 50 shadowStrength) Href Htgt Hi Hs)
    as (c & Hc & HcF & Hbd).
  destruct (processImageBuffer_pixels imgData refStats tgtStats intensity_
              shadowStrength σ src Hsrc Hb Hlen Hne)
    as (c' & output & σ' & outData & Hc' & Hrun & Hout & Hpx).
  assert (c' = c) as -> by congruence.
  exists c, output, σ', outData. split_and!; try done.
  intros p Hp.
  destruct (Hpx p Hp)
    as (r0 & g0 & b0 & r & g & bb & H1 & H2 & H3 & H4 & H5 & H6 & H7 & H8).
  pose proof (Forall_lookup_1 byte _ _ _ Hb H1) as Hr0.
  pose proof (Forall_lookup_1 byte _ _ _ Hb H2) as Hg0.
  pose proof (Forall_lookup_1 byte _ _ _ Hb H3) as Hb0.
  exists r0, g0, b0, r, g, bb.
  rewrite Finite_transformPixel_exact by done. done.
Qed.

Lemma processImageBuffer_in_range_witness :
  exists (c : Coefficients) (output : ImageData) (σ' : store) (outData : list Z),
    Finite.coefficients flat_ref wide_tgt 50 50 = Some c
    /\ processImageBuffer (mkImageData 0 1 1) flat_ref wide_tgt 50 None one_white
       = Some (output, σ')
    /\ σ' !! data output = Some outData
    /\ forall p : nat, (p < 1 * 1)%nat ->
       exists r0 g0 b0 r g bb : Z,
         white_pixel !! (4 * p)%nat = Some r0
         /\ white_pixel !! (4 * p + 1)%nat = Some g0
         /\ white_pixel !! (4 * p + 2)%nat = Some b0
         /\ Finite.transformPixel c r0 g0 b0 = Some (r, g, bb)
         /\ outData !! (4 * p)%nat = Some r
         /\ outData !! (4 * p + 1)%nat = Some g
         /\ outData !! (4 * p + 2)%nat = Some bb
         /\ (0 <= r <= 255 /\ 0 <= g <= 255 /\ 0 <= bb <= 255)%Z.
Proof.
  apply (processImageBuffer_in_range (mkImageData 0 1 1) flat_ref wide_tgt 50
           None one_white white_pixel).
  - exact flat_ref_bounded.
  - exact wide_tgt_bounded.
  - unfold slider. lra.
  - unfold slider. cbn. lra.
  - reflexivity.
  - unfold white_pixel, byte. repeat constructor; lia.
  - reflexivity.
  - cbn. lia.
Defined.

(** ** Cache controller *)

Section ZipExport.

Context {HTMLImageElement : Type}.
Variable img_width img_height : HTMLImageElement → nat.
Variable drawImage : HTMLImageElement → nat → nat → list Z.
Variable toDataURL : list Z → nat → nat → R → string.
Variable strip_extension after_comma : string → string.


End ZipExport.

(** C9, as stated, fails: with a target loaded but nothing in the cache,
    both slider handlers return normally, leaving the state (and its error
    message) and the store as they were. *)
Lemma cache_miss_signals_nothing :
  handleIntensityChange unit (λ _ _ _ _, "data:") 0 80 not_yet_processed ∅
    = Normal (not_yet_processed, ∅)
  /\ handleShadowChange unit (λ _ _ _ _, "data:") 0 80 not_yet_processed ∅
    = Normal (not_yet_processed, ∅).
Proof. split; reflexivity. Qed.

(** C9, amended: for an identifier with no cache entry, both slider
    handlers return normally without signalling anything: the slider value
    is recorded on the results carrying that identifier, no result image
    changes, the error message and the store are untouched. *)
Theorem cache_miss_returns_silently {HTMLImageElement : Type}
    (toDataURL : list Z → nat → nat → R → string)
    (id_ : nat) (val : R) (st : AppState HTMLImageElement) (σ : store) :
  imageCache _ st !! id_ = None ->
  handleIntensityChange HTMLImageElement toDataURL id_ val st σ
    = Normal (setResults _ (fmap (λ r, if decide (id r = id_)
                                       then set_intensity val r else r)) st, σ)
  /\ handleShadowChange HTMLImageElement toDataURL id_ val st σ
    = Normal (setResults _ (fmap (λ r, if decide (id r = id_)
                                       then set_shadow val r else r)) st, σ).
Proof.
  intros Hmiss. unfold handleIntensityChange, handleShadowChange, reprocess.
  cbn [setResults imageCache]. rewrite Hmiss.
  by destruct (targets _ st !! id_).
Qed.

Lemma cache_miss_returns_silently_witness :
  handleIntensityChange unit (λ _ _ _ _, "data:") 0 80 not_yet_processed ∅
    = Normal (setResults _ (fmap (λ r, if decide (id r = 0%nat)
                                       then set_intensity 80 r else r))
                not_yet_processed, ∅).
Proof.
  apply (cache_miss_returns_silently (λ _ _ _ _, "data:") 0 80 not_yet_processed ∅).
  reflexivity.
Defined.

(** ** Further properties of the pixel transform *)

Lemma maskWeight_range (l : R) : 0 <= maskWeight l <= 1.
Proof.
  unfold maskWeight. destruct (Rgt_dec _ _); [|destruct (Rlt_dec _ _)];
    minmax; lra.
Qed.

Lemma maskWeight_midtone (l : R) : 0.08 <= l <= 0.90 -> maskWeight l = 1.
Proof.
  intros Hl. unfold maskWeight.
  destruct (Rgt_dec _ _); [lra|]. destruct (Rlt_dec _ _); lra.
Qed.

Lemma maskWeight_ends (l : R) : l <= 0 \/ 1 <= l -> maskWeight l = 0.
Proof.
  intros Hl. unfold maskWeight.
  destruct (Rgt_dec _ _); [|destruct (Rlt_dec _ _)]; minmax; lra.
Qed.

Lemma blend_between (x y w : R) :
  0 <= w <= 1 -> Rmin x y <= x + (y - x) * w <= Rmax x y.
Proof. intros Hw. minmax; nra. Qed.

(** X1: the chroma a pixel ends with lies between its own chroma and the
    transferred one on both axes; it is the transferred chroma when the
    lightness of the source pixel is in [0.08, 0.90], and the pixel's own
    when that lightness is at most 0 or at least 1. *)
Theorem chroma_mask_blend (c : Coefficients) (l a b : R) :
  let t := transformLab c (l, a, b) in
  Rmin a (a * A_a c + B_a c) <= t.1.2 <= Rmax a (a * A_a c + B_a c)
  /\ Rmin b (b * A_b c + B_b c) <= t.2 <= Rmax b (b * A_b c + B_b c)
  /\ (0.08 <= l <= 0.90 ->
      t.1.2 = a * A_a c + B_a c /\ t.2 = b * A_b c + B_b c)
  /\ (l <= 0 \/ 1 <= l -> t.1.2 = a /\ t.2 = b).
Proof.
  cbn [transformLab fst snd]. pose proof (maskWeight_range l) as Hw.
  split; [by apply blend_between|]. split; [by apply blend_between|]. split.
  - intros Hl. rewrite (maskWeight_midtone l Hl). lra.
  - intros Hl. rewrite (maskWeight_ends l Hl). lra.
Qed.

Lemma crushMinFactor_range (s : R) : 0 <= s -> 0 <= crushMinFactor s <= 1.
Proof. intros Hs. unfold crushMinFactor. minmax; lra. Qed.

Lemma crushMinFactor_antitone (s1 s2 : R) :
  s1 <= s2 -> crushMinFactor s2 <= crushMinFactor s1.
Proof. intros Hs. unfold crushMinFactor. minmax; lra. Qed.

(** X2: for a shadow strength that is not negative, the shadow curve
    never brightens a lightness that is not negative and never makes it
    negative, and a larger strength never gives a brighter value. *)
Theorem shadow_crush_never_brightens (s1 s2 l : R) :
  0 <= s1 <= s2 ->
  0 <= l ->
  0 <= shadowCrush (crushMinFactor s2) l
  /\ shadowCrush (crushMinFactor s2) l <= shadowCrush (crushMinFactor s1) l
  /\ shadowCrush (crushMinFactor s1) l <= l.
Proof.
  intros [H1 H12] Hl.
  pose proof (crushMinFactor_range s1 H1) as Hc1.
  pose proof (crushMinFactor_range s2 ltac:(lra)) as Hc2.
  pose proof (crushMinFactor_antitone s1 s2 H12) as Hc.
  revert Hc1 Hc2 Hc. generalize (crushMinFactor s1) (crushMinFactor s2).
  intros c1 c2 Hc1 Hc2 Hc. unfold shadowCrush.
  destruct (Rlt_dec l 0.65) as [Hlt|Hge]; [|lra].
  assert (l / 0.65 = l * (/ 0.65)) as -> by done.
  assert (0 <= l * / 0.65 < 1) as Hq by lra.
  revert Hq. generalize (l * / 0.65). intros q Hq.
  assert (0 <= c2 + q * (1.0 - c2)) as Hlo by nra.
  assert (c2 + q * (1.0 - c2) <= c1 + q * (1.0 - c1)) as Hmid by nra.
  assert (c1 + q * (1.0 - c1) <= 1) as Hhi by nra.
  revert Hlo Hmid Hhi.
  generalize (c2 + q * (1.0 - c2)) (c1 + q * (1.0 - c1)).
  intros u2 u1 Hlo Hmid Hhi. split_and!; nra.
Qed.

Lemma shadow_crush_never_brightens_witness :
  0 <= shadowCrush (crushMinFactor 50) 0.5
  /\ shadowCrush (crushMinFactor 50) 0.5 <= shadowCrush (crushMinFactor 0) 0.5
  /\ shadowCrush (crushMinFactor 0) 0.5 <= 0.5.
Proof. apply (shadow_crush_never_brightens 0 50 0.5); lra. Defined.

Lemma crushMinFactor_saturated (s : R) : 500 / 7 <= s -> crushMinFactor s = 0.
Proof. intros Hs. unfold crushMinFactor. minmax; lra. Qed.

(** X3: the shadow factor reaches 0 at strength 500/7 (about 71.4); from
    there on [processImageBuffer] returns what it returns at strength
    100. *)
Theorem shadow_strength_saturates (imgData : ImageData)
    (refStats tgtStats : ColorStats) (intensity_ s : R) (σ : store) :
  500 / 7 <= s ->
  crushMinFactor s = 0
  /\ processImageBuffer imgData refStats tgtStats intensity_ (Some s) σ
     = processImageBuffer imgData refStats tgtStats intensity_ (Some 100) σ.
Proof.
  intros Hs. split; [by apply crushMinFactor_saturated|].
  unfold processImageBuffer. cbn [default Datatypes.id].
  destruct (coefficients_Some refStats tgtStats intensity_)
    as (aL & bL & aa & ba & ab & bb & Hc).
  destruct (σ !! data imgData) as [src|]; [|done].
  cbn [mbind option_bind new_Uint8ClampedArray].
  destruct (new_ImageData _ _ _ _) as [output|]; [|done].
  cbn [mbind option_bind].
  rewrite (Hc s), (Hc 100), (crushMinFactor_saturated s Hs),
    (crushMinFactor_saturated 100) by lra. done.
Qed.

Lemma shadow_strength_saturates_witness :
  crushMinFactor 80 = 0
  /\ processImageBuffer (mkImageData 0 1 1) flat_ref wide_tgt 50 (Some 80) one_white
     = processImageBuffer (mkImageData 0 1 1) flat_ref wide_tgt 50 (Some 100) one_white.
Proof.
  apply (shadow_strength_saturates (mkImageData 0 1 1) flat_ref wide_tgt 50 80
           one_white). lra.
Defined.

Lemma rawScale_bounds (refStats tgtStats : ColorStats) (i : nat) :
  0 <= at3 (std refStats) i ->
  exists s : R, rawScale refStats tgtStats i = Some s /\ 0 <= s <= 3.
Proof.
  intros Href. destruct (rawScale_Some refStats tgtStats i) as (s & Hs & Hle & Heq).
  exists s. split; [done|]. split; [|done].
  rewrite Heq. destruct (Rgt_dec _ _) as [Ht|Ht]; [|lra].
  assert (0 <= Rmin (at3 (std refStats) i) 0.18) as Hcap by (minmax; lra).
  assert (0 <= Rmin (at3 (std refStats) i) 0.18 / at3 (std tgtStats) i) as Hq.
  { apply Rmult_le_pos; [done|]. left. apply Rinv_0_lt_compat. lra. }
  revert Hq. generalize (Rmin (at3 (std refStats) i) 0.18 / at3 (std tgtStats) i).
  intros q Hq. minmax; lra.
Qed.

Lemma gain_bounds (s kk : R) :
  0 <= s <= 3 -> 0 <= kk <= 100 / 114 ->
  1 / 6 <= 1 + (1.0 + (s - 1.0) * BLEND_STD - 1) * kk <= 8 / 3.
Proof. unfold BLEND_STD. intros Hs Hk. nra. Qed.

(** X4: for reference deviations that are not negative and an intensity
    within the slider's range 0..100, the coefficients are defined and the
    gain of each of the three channels lies in [1/6, 8/3]: the linear
    transfer never inverts a channel and never flattens it to a constant. *)
Theorem gains_bounded (refStats tgtStats : ColorStats)
    (intensity_ shadowStrength : R) :
  valid_stats refStats ->
  0 <= intensity_ <= 100 ->
  exists c : Coefficients,
    coefficients refStats tgtStats intensity_ shadowStrength = Some c
    /\ 1 / 6 <= A_L c <= 8 / 3
    /\ 1 / 6 <= A_a c <= 8 / 3
    /\ 1 / 6 <= A_b c <= 8 / 3.
Proof.
  intros (H0 & H1 & H2) Hi. unfold coefficients.
  destruct (rawScale_bounds refStats tgtStats 0 H0) as (sL & -> & HL).
  destruct (rawScale_bounds refStats tgtStats 1 H1) as (sA & -> & HA).
  destruct (rawScale_bounds refStats tgtStats 2 H2) as (sB & -> & HB).
  cbn [mbind option_bind]. eexists. split; [done|].
  cbn [A_L A_a A_b].
  assert (0 <= k intensity_ <= 100 / 114) as Hk by (unfold k; lra).
  split_and!; by apply gain_bounds.
Qed.

Lemma gains_bounded_witness :
  exists c : Coefficients,
    coefficients flat_ref wide_tgt 100 50 = Some c
    /\ 1 / 6 <= A_L c <= 8 / 3
    /\ 1 / 6 <= A_a c <= 8 / 3
    /\ 1 / 6 <= A_b c <= 8 / 3.
Proof.
  apply (gains_bounded flat_ref wide_tgt 100 50).
  - unfold valid_stats. cbn [at3 std fst snd flat_ref]. lra.
  - lra.
Defined.

(** ** Further properties of the statistics *)

Lemma solid_length (m : nat) (r g b a : Z) :
  length (solid m r g b a) = (4 * m)%nat.
Proof.
  unfold solid. induction m as [|m IH]; [done|].
  cbn [replicate concat]. rewrite length_app, IH. cbn [length]. lia.
Qed.

Lemma rgba_pixels_solid (m : nat) (r g b a : Z) :
  rgba_pixels (solid m r g b a) = replicate m (r, g, b).
Proof.
  unfold solid. induction m as [|m IH]; [done|].
  cbn [replicate concat app rgba_pixels]. by rewrite IH.
Qed.

Lemma Rsum_replicate (m : nat) (x : R) : Rsum (replicate m x) = INR m * x.
Proof.
  unfold Rsum. induction m as [|m IH]; [cbn; lra|].
  cbn [replicate foldr]. rewrite IH, S_INR. lra.
Qed.

Lemma mean_of_replicate (m : nat) (x : R) :
  (0 < m)%nat -> mean_of (replicate m x) = x.
Proof.
  intros Hm. unfold mean_of. rewrite Rsum_replicate, length_replicate.
  apply lt_INR in Hm. cbn [INR] in Hm. field. lra.
Qed.

Lemma std_of_replicate (m : nat) (x : R) :
  (0 < m)%nat -> std_of (replicate m x) = 0.
Proof.
  intros Hm. unfold std_of. rewrite mean_of_replicate by done.
  rewrite fmap_replicate, Rsum_replicate, length_replicate.
  replace (INR m * ((x - x) * (x - x)) / INR m) with 0; [apply sqrt_0|].
  apply lt_INR in Hm. cbn [INR] in Hm. field. lra.
Qed.

Lemma sampled_solid (conv : Z → Z → Z → option (R * R * R))
    (skip : Z → Z → Z → bool) (m : nat) (r g b a : Z) (lab : R * R * R) :
  conv r g b = Some lab -> skip r g b = false ->
  sampled conv skip (solid m r g b a) = Some (replicate m lab).
Proof.
  intros Hconv Hskip. unfold sampled. rewrite rgba_pixels_solid.
  induction m as [|m IH]; [done|].
  cbn [replicate]. rewrite filter_cons, decide_True.
  2:{ cbn [fst snd]. rewrite Hskip. by intros []. }
  cbn [mapM fst snd]. rewrite Hconv. cbn [mbind option_bind].
  rewrite IH. done.
Qed.

Lemma computeStats_with_solid (conv : Z → Z → Z → option (R * R * R))
    (skip : Z → Z → Z → bool) (m : nat) (r g b a : Z) (lab : R * R * R) :
  (0 < m)%nat -> conv r g b = Some lab -> skip r g b = false ->
  computeStats_with conv skip (solid m r g b a) = Some (mkStats lab (0, 0, 0)).
Proof.
  intros Hm Hconv Hskip.
  rewrite (computeStats_with_spec _ _ _ m (solid_length m r g b a)).
  rewrite (sampled_solid conv skip m r g b a lab Hconv Hskip).
  cbn [mbind option_bind]. rewrite stats_of_pushes.
  destruct m as [|m]; [lia|]. cbn [replicate].
  change (lab :: replicate m lab) with (replicate (S m) lab).
  cbv zeta. rewrite !fmap_replicate, !mean_of_replicate, !std_of_replicate by lia.
  by destruct lab as [[l a'] b'].
Qed.

(** X5: an image of one colour has that colour's coordinates as mean and
    deviation 0 on all three channels (over exact reals), in the current
    revision and, for a colour that is not clipped, in the first one; for
    such a target every raw scale is 1, whatever the reference. *)
Theorem solid_image_statistics (m : nat) (r g b a : Z) :
  (0 < m)%nat -> byte r -> byte g -> byte b ->
  (exists lab : R * R * R,
     rgb2lab r g b = Some lab
     /\ computeStats (solid m r g b a) = Some (mkStats lab (0, 0, 0))
     /\ forall (refStats : ColorStats) (i : nat),
          rawScale refStats (mkStats lab (0, 0, 0)) i = Some 1)
  /\ (clipped r g b = false ->
      exists lab : R * R * R,
        Rev1.rgb2lab r g b = Some lab
        /\ Rev1.computeStats (solid m r g b a) = Some (mkStats lab (0, 0, 0))).
Proof.
  intros Hm Hr Hg Hb. split.
  - destruct (rgb2lab_bytes r g b Hr Hg Hb) as [lab Hlab].
    exists lab. split; [done|]. split.
    + by apply computeStats_with_solid.
    + intros refStats i. unfold rawScale.
      destruct (Rgt_dec _ _) as [Hgt|]; [|done].
      exfalso. revert Hgt. destruct i as [|[|i]]; cbn [at3 std fst snd]; lra.
  - intros Hclip. destruct (Rev1_rgb2lab_bytes r g b Hr Hg Hb) as [lab Hlab].
    exists lab. split; [done|]. by apply computeStats_with_solid.
Qed.

Lemma solid_image_statistics_witness :
  (exists lab : R * R * R,
     rgb2lab 10 20 30 = Some lab
     /\ computeStats (solid 2 10 20 30 255) = Some (mkStats lab (0, 0, 0))
     /\ forall (refStats : ColorStats) (i : nat),
          rawScale refStats (mkStats lab (0, 0, 0)) i = Some 1)
  /\ (clipped 10 20 30 = false ->
      exists lab : R * R * R,
        Rev1.rgb2lab 10 20 30 = Some lab
        /\ Rev1.computeStats (solid 2 10 20 30 255) = Some (mkStats lab (0, 0, 0))).
Proof.
  apply (solid_image_statistics 2 10 20 30 255); unfold byte; lia.
Defined.

(** X6: the statistics do not read the alpha channel: two buffers with the
    same colour triples, pixel by pixel, have the same statistics in both
    revisions, whatever their alpha bytes. *)
Theorem computeStats_ignores_alpha (d1 d2 : list Z) (m : nat) :
  length d1 = (4 * m)%nat ->
  length d2 = (4 * m)%nat ->
  rgba_pixels d1 = rgba_pixels d2 ->
  computeStats d1 = computeStats d2
  /\ Rev1.computeStats d1 = Rev1.computeStats d2.
Proof.
  intros H1 H2 Hpx. unfold computeStats, Rev1.computeStats.
  rewrite !(computeStats_with_spec _ _ d1 m H1), !(computeStats_with_spec _ _ d2 m H2).
  unfold sampled. by rewrite Hpx.
Qed.

Lemma computeStats_ignores_alpha_witness :
  computeStats [10; 20; 30; 255]%Z = computeStats [10; 20; 30; 0]%Z
  /\ Rev1.computeStats [10; 20; 30; 255]%Z = Rev1.computeStats [10; 20; 30; 0]%Z.
Proof.
  apply (computeStats_ignores_alpha [10; 20; 30; 255]%Z [10; 20; 30; 0]%Z 1);
    reflexivity.
Defined.

(** ** Further properties of [processImageBuffer] *)

(** [processImageBuffer] through [processed_bytes]: the new image sits at
    a fresh address, and a length that does not fit makes the constructor
    of the output throw. *)
Lemma processImageBuffer_bytes (imgData : ImageData)
    (refStats tgtStats : ColorStats) (intensity_ : R)
    (shadowStrength : option R) (σ : store) (src : list Z) :
  σ !! data imgData = Some src ->
  processImageBuffer imgData refStats tgtStats intensity_ shadowStrength σ
  = new ← processed_bytes src (width imgData) (height imgData) refStats
            tgtStats intensity_ (default 50 shadowStrength);
    Some (mkImageData (fresh (dom σ)) (width imgData) (height imgData),
          <[fresh (dom σ) := new]> σ).
Proof.
  intros Hsrc. unfold processed_bytes.
  destruct (decide (length src = (4 * width imgData * height imgData)%nat
                    ∧ length src ≠ 0%nat)) as [[Hlen Hne]|Hbad].
  - rewrite option_guard_True by done. cbn [mbind option_bind].
    rewrite (processImageBuffer_spec _ _ _ _ _ _ src Hsrc Hlen Hne).
    by destruct (coefficients _ _ _ _).
  - rewrite option_guard_False by done. cbn [mbind option_bind].
    unfold processImageBuffer. rewrite Hsrc.
    cbn [mbind option_bind new_Uint8ClampedArray].
    unfold new_ImageData. rewrite lookup_insert_eq. cbn [mbind option_bind].
    by rewrite option_guard_False.
Qed.

Lemma processed_bytes_defined (src : list Z) (w h : nat)
    (refStats tgtStats : ColorStats) (intensity_ shadowStrength : R) :
  Forall byte src ->
  length src = (4 * w * h)%nat -> length src ≠ 0%nat ->
  exists new : list Z,
    processed_bytes src w h refStats tgtStats intensity_ shadowStrength = Some new
    /\ length new = length src.
Proof.
  intros Hb Hlen Hne. unfold processed_bytes.
  rewrite option_guard_True by done. cbn [mbind option_bind].
  destruct (coefficients_Some refStats tgtStats intensity_)
    as (aL & bL & aa & ba & ab & bb & Hc).
  rewrite Hc. cbn [mbind option_bind].
  destruct (map_pixels_bytes (mkCoefficients aL bL aa ba ab bb
              (crushMinFactor shadowStrength)) (w * h) src Hb ltac:(lia))
    as (new & Hnew & Hlen' & _).
  by exists new.
Qed.

(** X7: when [processImageBuffer] throws.  It throws when the array of the
    image is not in the store; on an array of bytes it throws exactly when
    the array is empty or does not hold [4 * width * height] bytes. *)
Theorem processImageBuffer_throws (imgData : ImageData)
    (refStats tgtStats : ColorStats) (intensity_ : R)
    (shadowStrength : option R) (σ : store) :
  (σ !! data imgData = None ->
   processImageBuffer imgData refStats tgtStats intensity_ shadowStrength σ = None)
  /\ forall src : list Z,
       σ !! data imgData = Some src -> Forall byte src ->
       (processImageBuffer imgData refStats tgtStats intensity_ shadowStrength σ
          = None
        <-> (length src ≠ (4 * width imgData * height imgData)%nat
             \/ length src = 0%nat)).
Proof.
  split.
  - intros Hnone. unfold processImageBuffer. by rewrite Hnone.
  - intros src Hsrc Hb. rewrite (processImageBuffer_bytes _ _ _ _ _ _ src Hsrc).
    destruct (decide (length src = (4 * width imgData * height imgData)%nat
                      ∧ length src ≠ 0%nat)) as [[Hlen Hne]|Hbad].
    + destruct (processed_bytes_defined src (width imgData) (height imgData)
                  refStats tgtStats intensity_ (default 50 shadowStrength)
                  Hb Hlen Hne) as (new & -> & _).
      cbn [mbind option_bind]. split; [done|]. intros [?|?]; done.
    + unfold processed_bytes. rewrite option_guard_False by done.
      cbn [mbind option_bind]. split; [|done]. intros _.
      destruct (decide (length src = (4 * width imgData * height imgData)%nat));
        [|by left].
      right. destruct (decide (length src = 0%nat)); [done|].
      exfalso. by apply Hbad.
Qed.

(** X8: the bytes [processImageBuffer] writes depend on the bytes, the
    size and the parameters only: two calls on images of the same size
    holding the same bytes, in any two stores, both throw or return
    arrays with the same content. *)
Theorem processImageBuffer_bytes_only (img1 img2 : ImageData)
    (refStats tgtStats : ColorStats) (intensity_ : R)
    (shadowStrength : option R) (σ1 σ2 : store) (src : list Z) :
  σ1 !! data img1 = Some src ->
  σ2 !! data img2 = Some src ->
  width img1 = width img2 ->
  height img1 = height img2 ->
  ('(out, σ') ← processImageBuffer img1 refStats tgtStats intensity_
                  shadowStrength σ1; σ' !! data out)
  = ('(out, σ') ← processImageBuffer img2 refStats tgtStats intensity_
                    shadowStrength σ2; σ' !! data out).
Proof.
  intros H1 H2 Hw Hh.
  rewrite (processImageBuffer_bytes _ _ _ _ _ _ src H1),
    (processImageBuffer_bytes _ _ _ _ _ _ src H2), Hw, Hh.
  destruct (processed_bytes _ _ _ _ _ _ _) as [new|]; [|done].
  cbn [mbind option_bind data]. by rewrite !lookup_insert_eq.
Qed.

Lemma processImageBuffer_bytes_only_witness :
  ('(out, σ') ← processImageBuffer (mkImageData 0 1 1) flat_ref wide_tgt 50
                  None one_white; σ' !! data out)
  = ('(out, σ') ← processImageBuffer (mkImageData 5 1 1) flat_ref wide_tgt 50
                    None (<[5%nat := white_pixel]> one_white); σ' !! data out).
Proof.
  apply (processImageBuffer_bytes_only (mkImageData 0 1 1) (mkImageData 5 1 1)
           flat_ref wide_tgt 50 None one_white (<[5%nat := white_pixel]> one_white)
           white_pixel); reflexivity.
Defined.

(** ** Resizing *)

Lemma Math_round_bounds (x : R) :
  IZR (Math_round x) - / 2 <= x < IZR (Math_round x) + / 2.
Proof.
  unfold Math_round. pose proof (Zfloor_bound (x + / 2)) as H. lra.
Qed.

Lemma Math_round_INR (n : nat) : Z.to_nat (Math_round (INR n)) = n.
Proof. rewrite INR_IZR_INZ, Math_round_IZR. lia. Qed.

Lemma Math_round_nonneg (x : R) : 0 <= x -> (0 <= Math_round x)%Z.
Proof.
  intros Hx. rewrite <- (Math_round_IZR 0). apply Math_round_le. done.
Qed.

(** The short side after scaling the long side [b] down to [L]. *)
Lemma scaled_side (a b L : nat) :
  (a <= b)%nat -> (0 < b)%nat ->
  exists q : R,
    div (INR L) (INR b) = Some q
    /\ ((L <= b)%nat -> (Z.to_nat (Math_round (INR a * q)) <= a)%nat)
    /\ (Z.to_nat (Math_round (INR a * q)) <= L)%nat
    /\ Rabs (INR (Z.to_nat (Math_round (INR a * q))) - INR a * INR L / INR b)
       <= / 2
    /\ (Z.to_nat (Math_round (INR a * q)) = 0%nat <-> (2 * a * L < b)%nat).
Proof.
  intros Hab HL.
  assert (0 < INR b) as Hb by (apply lt_0_INR; lia).
  assert (0 <= INR a) as Ha by apply pos_INR.
  assert (0 <= INR L) as HL0 by apply pos_INR.
  assert (INR a <= INR b) as Hab' by (by apply le_INR).
  exists (INR L / INR b). split; [apply div_Some; lra|].
  assert (0 <= INR L / INR b) as Hq.
  { apply Rmult_le_pos; [done|left; by apply Rinv_0_lt_compat]. }
  assert (INR a * (INR L / INR b) <= INR L) as HxL.
  { replace (INR a * (INR L / INR b)) with (INR L * (INR a / INR b)) by (field; lra).
    assert (INR a / INR b <= 1).
    { apply (Rmult_le_reg_r (INR b)); [done|]. field_simplify; lra. }
    nra. }
  assert (0 <= INR a * (INR L / INR b)) as Hx by nra.
  assert (INR L <= INR b -> INR a * (INR L / INR b) <= INR a) as Hxa.
  { intros HLb. assert (INR L / INR b <= 1).
    { apply (Rmult_le_reg_r (INR b)); [done|]. field_simplify; lra. }
    nra. }
  set (x := INR a * (INR L / INR b)) in *.
  pose proof (Math_round_nonneg x ltac:(lra)) as Hz.
  split_and!.
  - intros HLb. apply le_INR in HLb.
    pose proof (Math_round_le x (INR a) (Hxa HLb)) as Hle.
    rewrite INR_IZR_INZ, Math_round_IZR in Hle. lia.
  - pose proof (Math_round_le x (INR L) HxL) as Hle.
    rewrite INR_IZR_INZ, Math_round_IZR in Hle. lia.
  - rewrite INR_IZR_INZ, Z2Nat.id by done.
    pose proof (Math_round_bounds x) as Hr.
    replace (INR a * INR L / INR b) with x by (unfold x; field; lra).
    apply Rabs_le. lra.
  - pose proof (Math_round_bounds x) as Hr.
    assert (x * INR b = INR a * INR L) as Hxb by (unfold x; field; lra).
    split.
    + intros H0. assert (Math_round x = 0%Z) as E by lia. rewrite E in Hr.
      apply INR_lt. rewrite !mult_INR. cbn [INR]. nra.
    + intros Hlt. apply lt_INR in Hlt. rewrite !mult_INR in Hlt. cbn [INR] in Hlt.
      assert (x < / 2) as Hhalf by nra.
      rewrite (Math_round_eq x 0); [done|]. lra.
Qed.

Section Resize.

Variable HTMLImageElement : Type.
Variable img_width img_height : HTMLImageElement → nat.
Variable drawImage : HTMLImageElement → nat → nat → list Z.

Local Abbreviation resize :=
  (resizeImageCanvas HTMLImageElement img_width img_height drawImage).

(** The canvas [resizeImageCanvas] returns, by cases. *)
Lemma resize_cases (img : HTMLImageElement) (L : nat) :
  exists w h : nat,
    resize img L = Some (mkCanvas (drawImage img w h) w h)
    /\ (w <= img_width img)%nat /\ (h <= img_height img)%nat
    /\ (w <= L)%nat /\ (h <= L)%nat
    /\ ((img_width img <= L)%nat ∧ (img_height img <= L)%nat ->
        w = img_width img /\ h = img_height img)
    /\ ((L < img_width img)%nat ∨ (L < img_height img)%nat ->
        (if decide (img_height img < img_width img)%nat
         then w = L
              /\ Rabs (INR h - INR (img_height img) * INR L / INR (img_width img))
                 <= / 2
         else h = L
              /\ Rabs (INR w - INR (img_width img) * INR L / INR (img_height img))
                 <= / 2)
        /\ ((w = 0%nat \/ h = 0%nat)
            <-> (2 * Nat.min (img_width img) (img_height img) * L
                 < Nat.max (img_width img) (img_height img))%nat)).
Proof.
  unfold resizeImageCanvas.
  destruct (decide (L < img_width img ∨ L < img_height img)%nat) as [Hbig|Hfit].
  - destruct (decide (img_height img < img_width img)%nat) as [Hland|Hport].
    + destruct (scaled_side (img_height img) (img_width img) L ltac:(lia)
                  ltac:(lia)) as (q & -> & Hle & HleL & Habs & H0).
      specialize (Hle ltac:(lia)).
      cbn [mbind option_bind]. eexists _, _. split; [done|].
      split_and!; try done; try lia.
      intros _. split; [done|].
      rewrite Nat.min_r, Nat.max_l by lia. split.
      * intros [->|Hh]; [lia|]. by apply H0.
      * intros Hlt. right. by apply H0.
    + destruct (scaled_side (img_width img) (img_height img) L ltac:(lia)
                  ltac:(lia)) as (q & -> & Hle & HleL & Habs & H0).
      specialize (Hle ltac:(lia)).
      cbn [mbind option_bind]. eexists _, _. split; [done|].
      split_and!; try done; try lia.
      intros _. split; [done|].
      rewrite Nat.min_l, Nat.max_r by lia. split.
      * intros [Hw| ->]; [|lia]. by apply H0.
      * intros Hlt. left. by apply H0.
  - cbn [mbind option_bind]. eexists _, _. split; [done|].
    split_and!; try done; lia.
Qed.

(** X9: [resizeImageCanvas] always returns a canvas, never larger than the
    image and never larger than [longEdge] on either side.  An image that
    fits keeps its size.  Otherwise the long side becomes [longEdge] and
    the short side is within 1/2 of the scaled length; it is 0 when the
    long side is more than [2 * longEdge] times the short one, and not 0
    when it is less.  (When the two are equal the scaled length is
    exactly 1/2: which way that goes depends on the rounding of the
    binary64 quotient and product, and is left open.) *)
Theorem resizeImageCanvas_size (img : HTMLImageElement) (longEdge : nat) :
  exists c : Canvas,
    resize img longEdge = Some c
    /\ pixels c = drawImage img (canvas_width c) (canvas_height c)
    /\ (canvas_width c <= Nat.min (img_width img) longEdge)%nat
    /\ (canvas_height c <= Nat.min (img_height img) longEdge)%nat
    /\ ((img_width img <= longEdge)%nat ∧ (img_height img <= longEdge)%nat ->
        canvas_width c = img_width img /\ canvas_height c = img_height img)
    /\ ((longEdge < img_width img)%nat ∨ (longEdge < img_height img)%nat ->
        (if decide (img_height img < img_width img)%nat
         then canvas_width c = longEdge
              /\ Rabs (INR (canvas_height c)
                       - INR (img_height img) * INR longEdge / INR (img_width img))
                 <= / 2
         else canvas_height c = longEdge
              /\ Rabs (INR (canvas_width c)
                       - INR (img_width img) * INR longEdge / INR (img_height img))
                 <= / 2)
        /\ ((2 * Nat.min (img_width img) (img_height img) * longEdge
             < Nat.max (img_width img) (img_height img))%nat ->
            canvas_width c = 0%nat \/ canvas_height c = 0%nat)
        /\ ((Nat.max (img_width img) (img_height img)
             < 2 * Nat.min (img_width img) (img_height img) * longEdge)%nat ->
            canvas_width c ≠ 0%nat /\ canvas_height c ≠ 0%nat)).
Proof.
  destruct (resize_cases img longEdge)
    as (w & h & -> & Hw & Hh & HwL & HhL & Hfit & Hbig).
  eexists. split; [done|]. cbn [pixels canvas_width canvas_height].
  split_and!; try done; try lia.
  intros Hb. destruct (Hbig Hb) as [Hside H0]. split; [done|]. split.
  - intros Hlt. by apply H0.
  - intros Hlt. split; intros E; assert (w = 0 ∨ h = 0)%nat as Hz by tauto;
      apply H0 in Hz; lia.
Qed.

End Resize.

(** ** The slider handlers *)

Lemma fresh_lookup (σ : store) : σ !! fresh (dom σ) = None.
Proof. apply not_elem_of_dom, is_fresh. Qed.

Lemma store_grows (σ : store) (x : list Z) : σ ⊆ <[fresh (dom σ) := x]> σ.
Proof. apply insert_subseteq, fresh_lookup. Qed.

(** Reading a canvas and processing what was read, step by step: the two
    calls only add arrays to the store, and the array of the output holds
    the [rendered] bytes. *)
Lemma render_steps (c : Canvas) (w h : nat) (refStats tgtStats : ColorStats)
    (intensity_ : R) (shadowStrength : option R) (σ : store) :
  match getImageData c w h σ with
  | None => rendered c w h refStats tgtStats intensity_
              (default 50 shadowStrength) = None
  | Some (img, σ1) =>
      σ ⊆ σ1
      /\ match processImageBuffer img refStats tgtStats intensity_
                 shadowStrength σ1 with
         | None => rendered c w h refStats tgtStats intensity_
                     (default 50 shadowStrength) = None
         | Some (out, σ2) =>
             σ ⊆ σ2
             /\ exists px : list Z,
                  σ2 !! data out = Some px
                  /\ rendered c w h refStats tgtStats intensity_
                       (default 50 shadowStrength) = Some px
         end
  end.
Proof.
  unfold getImageData, rendered.
  destruct (decide (w ≠ 0 ∧ h ≠ 0)%nat) as [Hwh|Hwh].
  2:{ by rewrite !option_guard_False. }
  rewrite !option_guard_True by done.
  cbn [mbind option_bind new_Uint8ClampedArray].
  split; [apply store_grows|].
  rewrite (processImageBuffer_bytes _ _ _ _ _ _ (pixels c))
    by (cbn [data]; apply lookup_insert_eq).
  cbn [width height].
  destruct (processed_bytes _ _ _ _ _ _ _) as [new|]; [|done].
  cbn [mbind option_bind]. split.
  - etrans; [apply store_grows|]. apply store_grows.
  - exists new. cbn [data]. by rewrite lookup_insert_eq.
Qed.

Lemma update_id_compose (id_ : nat) (f g : ResultState → ResultState)
    (rs : list ResultState) :
  (forall r, id (g r) = id r) ->
  update_id id_ f (update_id id_ g rs) = update_id id_ (f ∘ g) rs.
Proof.
  intros Hg. unfold update_id. rewrite <- list_fmap_compose.
  apply list_fmap_ext. intros _ r _. cbn [compose].
  destruct (decide (id r = id_)) as [E|N].
  - by rewrite decide_True by (by rewrite Hg).
  - by rewrite decide_False.
Qed.

Lemma update_id_ext (id_ : nat) (f g : ResultState → ResultState)
    (rs : list ResultState) :
  (forall r, f r = g r) -> update_id id_ f rs = update_id id_ g rs.
Proof.
  intros Hfg. unfold update_id. apply list_fmap_ext. intros _ r _.
  destruct (decide _); [apply Hfg|done].
Qed.

Lemma find_update_id {A : Type} (proj : ResultState → A) (id_ : nat)
    (g : ResultState → ResultState) (rs : list ResultState) :
  (forall r, id (g r) = id r) -> (forall r, proj (g r) = proj r) ->
  proj <$> find (λ r, bool_decide (id r = id_)) (update_id id_ g rs)
  = proj <$> find (λ r, bool_decide (id r = id_)) rs.
Proof.
  intros Hid Hproj. unfold update_id.
  induction rs as [|r rs IH]; [done|]. cbn [fmap list_fmap find].
  destruct (decide (id r = id_)) as [E|N].
  - rewrite Hid, !bool_decide_eq_true_2 by done. cbn. by rewrite Hproj.
  - rewrite !bool_decide_eq_false_2 by done. apply IH.
Qed.

Lemma update_id_frame (id_ : nat) (f : ResultState → ResultState)
    (P : ResultState → ResultState → Prop) (rs : list ResultState) :
  (forall r, id r ≠ id_ -> P r r) -> (forall r, id r = id_ -> P r (f r)) ->
  Forall2 P rs (update_id id_ f rs).
Proof.
  intros Hrefl Hf. unfold update_id.
  induction rs as [|r rs IH]; [constructor|].
  cbn [fmap list_fmap]. constructor; [|done].
  destruct (decide _); [by apply Hf|by apply Hrefl].
Qed.

Section Sliders.

Variable HTMLImageElement : Type.
Variable toDataURL : list Z → nat → nat → R → string.

Local Abbreviation reprocess_ :=
  (reprocess HTMLImageElement toDataURL).

Lemma setResults_twice (F G H : list ResultState → list ResultState)
    (st : AppState HTMLImageElement) :
  F (G (results _ st)) = H (results _ st) ->
  setResults _ F (setResults _ G st) = setResults _ H st.
Proof. intros E. unfold setResults. cbn. by rewrite E. Qed.

(** The callback of the sliders on a cache hit: it throws when the picture
    cannot be rendered, and publishes the URL of the rendered bytes
    otherwise. *)
Lemma reprocess_hit (id_ : nat) (intensity_ shadow_ : R)
    (seen st : AppState HTMLImageElement) (σ : store)
    (target : ImageState HTMLImageElement) (e : CacheEntry) :
  targets _ seen !! id_ = Some target ->
  imageCache _ st !! id_ = Some e ->
  match rendered (entry_ctx e) (entry_width e) (entry_height e)
          (entry_refStats e) (entry_tgtStats e) intensity_ shadow_ with
  | None => reprocess_ id_ intensity_ shadow_ seen st σ = Throw (st, σ)
  | Some px =>
      exists σ' : store,
        σ ⊆ σ'
        /\ reprocess_ id_ intensity_ shadow_ seen st σ
           = Normal (setResults _
                       (update_id id_
                          (set_resultUrl
                             (toDataURL px (entry_width e) (entry_height e) 0.9)))
                       st, σ')
  end.
Proof.
  intros Ht He. unfold reprocess. rewrite Ht, He.
  pose proof (render_steps (entry_ctx e) (entry_width e) (entry_height e)
                (entry_refStats e) (entry_tgtStats e) intensity_
                (Some shadow_) σ) as H.
  cbn [default Datatypes.id] in H.
  destruct (getImageData _ _ _ _) as [[img σ1]|]; [|by rewrite H].
  destruct H as [_ H]. cbn [mbind option_bind].
  destruct (processImageBuffer _ _ _ _ _ _) as [[out σ2]|]; [|by rewrite H].
  destruct H as (Hsub & px & Hpx & ->). cbn [mbind option_bind].
  rewrite Hpx. cbn [mbind option_bind]. by exists σ2.
Qed.

Lemma reprocess_miss (id_ : nat) (intensity_ shadow_ : R)
    (seen st : AppState HTMLImageElement) (σ : store) :
  targets _ seen !! id_ = None \/ imageCache _ st !! id_ = None ->
  reprocess_ id_ intensity_ shadow_ seen st σ = Normal (st, σ).
Proof.
  intros H. unfold reprocess.
  destruct (targets _ seen !! id_); [|done].
  destruct H as [H|H]; [done|]. by rewrite H.
Qed.

(** What the callback leaves behind, however it ends: the state it was
    given with, at most, a new URL on the results of that identifier, and
    a store that only grew. *)
Lemma reprocess_left (id_ : nat) (intensity_ shadow_ : R)
    (seen st : AppState HTMLImageElement) (σ : store) :
  σ ⊆ (left_behind (reprocess_ id_ intensity_ shadow_ seen st σ)).2
  /\ exists f : ResultState → ResultState,
       (left_behind (reprocess_ id_ intensity_ shadow_ seen st σ)).1
         = setResults _ (update_id id_ f) st
       /\ (f = Datatypes.id \/ exists u, f = set_resultUrl u).
Proof.
  assert (st = setResults _ (update_id id_ Datatypes.id) st) as Hid.
  { destruct st. unfold setResults, update_id. cbn. f_equal.
    symmetry. etrans; [|apply list_fmap_id]. apply list_fmap_ext.
    intros _ r _. by destruct (decide _). }
  destruct (targets _ seen !! id_) as [t|] eqn:Ht.
  2:{ rewrite reprocess_miss by (by left). cbn [left_behind fst snd].
      split; [done|]. exists Datatypes.id. split; [done|by left]. }
  destruct (imageCache _ st !! id_) as [e|] eqn:He.
  2:{ rewrite reprocess_miss by (by right). cbn [left_behind fst snd].
      split; [done|]. exists Datatypes.id. split; [done|by left]. }
  pose proof (reprocess_hit id_ intensity_ shadow_ seen st σ t e Ht He) as Hhit.
  destruct (rendered _ _ _ _ _ _ _) as [px|].
  - destruct Hhit as (σ2 & Hsub & ->). cbn [left_behind fst snd].
    split; [done|]. eexists. split; [done|]. right. by eexists.
  - rewrite Hhit. cbn [left_behind fst snd].
    split; [done|]. exists Datatypes.id. split; [done|by left].
Qed.

(** What the results look like after a slider handler returned. *)
Lemma slider_results (id_ : nat) (f g : ResultState → ResultState)
    (st : AppState HTMLImageElement) :
  (forall r, id (f r) = id r /\ name (f r) = name r
             /\ originalUrl (f r) = originalUrl r) ->
  (g = Datatypes.id \/ exists u, g = set_resultUrl u) ->
  Forall2 (λ r r', id r' = id r /\ name r' = name r
                   /\ originalUrl r' = originalUrl r
                   /\ (id r ≠ id_ -> r' = r)
                   /\ (id r = id_ -> intensity r' = intensity (f r)
                                     /\ shadow r' = shadow (f r)))
    (results _ st)
    (results _ (setResults _ (update_id id_ g)
                  (setResults _ (update_id id_ f) st))).
Proof.
  intros Hf Hg. cbn [setResults results].
  rewrite update_id_compose by (intros r; apply Hf).
  apply update_id_frame.
  - intros r Hr. by split_and!.
  - intros r Hr. cbn [compose]. destruct (Hf r) as (Hi & Hn & Ho).
    destruct Hg as [->|[u ->]]; cbn; by split_and!.
Qed.

(** X10: however the work of a slider handler ends (its callback returns,
    or an exception leaves it), it changes nothing but the results that
    carry its identifier: reference, targets, error message and cache are
    kept, every array of the store is found unchanged, the results keep
    their number, order, identifiers, names and original URLs, and the
    results of every other identifier are left as they were.  On the
    results of its identifier the intensity handler records its value as
    intensity and keeps the shadow value; the shadow handler records its
    value as shadow and keeps the intensity. *)
Theorem slider_frame (id_ : nat) (val : R)
    (st : AppState HTMLImageElement) (σ : store) :
  (let '(st', σ') :=
     left_behind (handleIntensityChange _ toDataURL id_ val st σ) in
   reference _ st' = reference _ st
   /\ targets _ st' = targets _ st
   /\ errorMessage _ st' = errorMessage _ st
   /\ imageCache _ st' = imageCache _ st
   /\ σ ⊆ σ'
   /\ Forall2 (λ r r', id r' = id r /\ name r' = name r
                       /\ originalUrl r' = originalUrl r
                       /\ (id r ≠ id_ -> r' = r)
                       /\ (id r = id_ ->
                           intensity r' = val /\ shadow r' = shadow r))
        (results _ st) (results _ st'))
  /\ (let '(st', σ') :=
        left_behind (handleShadowChange _ toDataURL id_ val st σ) in
      reference _ st' = reference _ st
      /\ targets _ st' = targets _ st
      /\ errorMessage _ st' = errorMessage _ st
      /\ imageCache _ st' = imageCache _ st
      /\ σ ⊆ σ'
      /\ Forall2 (λ r r', id r' = id r /\ name r' = name r
                          /\ originalUrl r' = originalUrl r
                          /\ (id r ≠ id_ -> r' = r)
                          /\ (id r = id_ ->
                              shadow r' = val /\ intensity r' = intensity r))
           (results _ st) (results _ st')).
Proof.
  unfold handleIntensityChange, handleShadowChange. split.
  - match goal with |- context [left_behind ?c] =>
      destruct (left_behind c) as [st' σ'] eqn:E end.
    match type of E with left_behind (reprocess _ _ ?i ?v ?s ?seen ?st0 _) = _ =>
      destruct (reprocess_left i v s seen st0 σ) as (Hsub & g & Hst & Hg) end.
    rewrite E in Hsub, Hst. cbn [fst snd] in Hsub, Hst. subst st'.
    split_and!; try done.
    eapply Forall2_impl;
      [apply (slider_results id_ (set_intensity val) g st); [done|done]|].
    cbn. intros r r' (? & ? & ? & ? & Hv). by split_and!.
  - match goal with |- context [left_behind ?c] =>
      destruct (left_behind c) as [st' σ'] eqn:E end.
    match type of E with left_behind (reprocess _ _ ?i ?v ?s ?seen ?st0 _) = _ =>
      destruct (reprocess_left i v s seen st0 σ) as (Hsub & g & Hst & Hg) end.
    rewrite E in Hsub, Hst. cbn [fst snd] in Hsub, Hst. subst st'.
    split_and!; try done.
    eapply Forall2_impl;
      [apply (slider_results id_ (set_shadow val) g st); [done|done]|].
    cbn. intros r r' (? & ? & ? & ? & Hv). split_and!; try done.
    intros E'. destruct (Hv E'). done.
Qed.

(** The intensity handler, by cases. *)
Lemma handleIntensityChange_cases (id_ : nat) (val : R)
    (st : AppState HTMLImageElement) (σ : store) :
  let sh := default 50 (shadow <$> find (λ r, bool_decide (id r = id_))
                                     (results _ st)) in
  match targets _ st !! id_, imageCache _ st !! id_ with
  | Some _, Some e =>
      match rendered (entry_ctx e) (entry_width e) (entry_height e)
              (entry_refStats e) (entry_tgtStats e) val sh with
      | None =>
          handleIntensityChange _ toDataURL id_ val st σ
          = Throw (setResults _ (update_id id_ (set_intensity val)) st, σ)
      | Some px =>
          exists σ' : store,
            σ ⊆ σ'
            /\ handleIntensityChange _ toDataURL id_ val st σ
               = Normal (setResults _
                           (update_id id_
                              (set_resultUrl
                                 (toDataURL px (entry_width e) (entry_height e) 0.9)
                               ∘ set_intensity val)) st, σ')
      end
  | _, _ =>
      handleIntensityChange _ toDataURL id_ val st σ
      = Normal (setResults _ (update_id id_ (set_intensity val)) st, σ)
  end.
Proof.
  intros sh. unfold handleIntensityChange. fold sh.
  destruct (targets _ st !! id_) as [t|] eqn:Ht.
  2:{ apply reprocess_miss. by left. }
  destruct (imageCache _ st !! id_) as [e|] eqn:He.
  2:{ apply reprocess_miss. by right. }
  pose proof (reprocess_hit id_ val sh st
                (setResults _ (fmap (λ r, if decide (id r = id_)
                                          then set_intensity val r else r)) st)
                σ t e Ht He) as Hhit.
  destruct (rendered _ _ _ _ _ _ _) as [px|]; [|done].
  destruct Hhit as (σ' & Hsub & ->). exists σ'. split; [done|].
  do 2 f_equal. apply setResults_twice. by apply update_id_compose.
Qed.

(** X11: the picture a slider publishes is drawn from the cached preview,
    not from the picture shown before: moving the intensity slider to
    [v1] and then to [v2] leaves the state that moving it to [v2] at once
    leaves. *)
Theorem slider_path_independent (id_ : nat) (v1 v2 : R)
    (st st1 st2 : AppState HTMLImageElement) (σ σ1 σ2 : store) :
  handleIntensityChange _ toDataURL id_ v1 st σ = Normal (st1, σ1) ->
  handleIntensityChange _ toDataURL id_ v2 st σ = Normal (st2, σ2) ->
  exists σ3 : store,
    handleIntensityChange _ toDataURL id_ v2 st1 σ1 = Normal (st2, σ3).
Proof.
  intros H1 H2.
  pose proof (handleIntensityChange_cases id_ v1 st σ) as C1.
  pose proof (handleIntensityChange_cases id_ v2 st σ) as C2.
  pose proof (handleIntensityChange_cases id_ v2 st1 σ1) as C3.
  cbv zeta in C1, C2, C3.
  assert (forall g, (forall r, id (g r) = id r) -> (forall r, shadow (g r) = shadow r) ->
            st1 = setResults _ (update_id id_ g) st ->
            default 50 (shadow <$> find (λ r, bool_decide (id r = id_)) (results _ st1))
            = default 50 (shadow <$> find (λ r, bool_decide (id r = id_)) (results _ st))
            /\ targets _ st1 = targets _ st
            /\ imageCache _ st1 = imageCache _ st) as Hsame.
  { intros g Hid Hsh ->. cbn [setResults results targets imageCache].
    by rewrite find_update_id. }
  destruct (targets _ st !! id_) as [t|] eqn:Ht;
    [destruct (imageCache _ st !! id_) as [e|] eqn:He|].
  - destruct (rendered _ _ _ _ _ v1 _) as [px1|] eqn:R1; [|by rewrite C1 in H1].
    destruct (rendered _ _ _ _ _ v2 _) as [px2|] eqn:R2; [|by rewrite C2 in H2].
    destruct C1 as (σa & _ & E1). rewrite E1 in H1. injection H1 as <- <-.
    destruct C2 as (σb & _ & E2). rewrite E2 in H2. injection H2 as <- <-.
    destruct (Hsame (set_resultUrl
                       (toDataURL px1 (entry_width e) (entry_height e) 0.9)
                     ∘ set_intensity v1)) as (Hsh & Htg & Hca); [done..|].
    rewrite Hsh, Htg, Hca, Ht, He, R2 in C3.
    destruct C3 as (σ3 & _ & E3). exists σ3. rewrite E3. do 2 f_equal.
    apply setResults_twice. rewrite update_id_compose by done.
    by apply update_id_ext.
  - rewrite C1 in H1. injection H1 as <- <-.
    rewrite C2 in H2. injection H2 as <- <-.
    destruct (Hsame (set_intensity v1)) as (Hsh & Htg & Hca); [done..|].
    rewrite Htg, Hca, Ht, He in C3. exists σ. rewrite C3. do 2 f_equal.
    apply setResults_twice. rewrite update_id_compose by done.
    by apply update_id_ext.
  - rewrite C1 in H1. injection H1 as <- <-.
    rewrite C2 in H2. injection H2 as <- <-.
    destruct (Hsame (set_intensity v1)) as (Hsh & Htg & Hca); [done..|].
    rewrite Htg, Ht in C3. exists σ. rewrite C3. do 2 f_equal.
    apply setResults_twice. rewrite update_id_compose by done.
    by apply update_id_ext.
Qed.

End Sliders.

(** ** Export *)

(** On a canvas as the host draws it, with both sides positive, the
    statistics are defined and the picture can be rendered. *)
Lemma computeStats_ctx_defined (c : Canvas) :
  canvas_ok c -> canvas_width c ≠ 0%nat -> canvas_height c ≠ 0%nat ->
  exists s : ColorStats,
    computeStats_ctx c (canvas_width c) (canvas_height c) = Some s.
Proof.
  intros [Hb Hlen] Hw Hh. unfold computeStats_ctx.
  rewrite option_guard_True by done. cbn [mbind option_bind].
  destruct (computeStats_with_defined rgb2lab (λ _ _ _, false) (pixels c)
              (canvas_width c * canvas_height c) rgb2lab_bytes Hb ltac:(lia))
    as (s & Hs & _).
  by exists s.
Qed.

Lemma computeStats_ctx_empty (c : Canvas) (w h : nat) :
  w = 0%nat \/ h = 0%nat -> computeStats_ctx c w h = None.
Proof.
  intros H. unfold computeStats_ctx. rewrite option_guard_False; [done|lia].
Qed.

Lemma rendered_defined (c : Canvas) (refStats tgtStats : ColorStats)
    (intensity_ shadowStrength : R) :
  canvas_ok c -> canvas_width c ≠ 0%nat -> canvas_height c ≠ 0%nat ->
  exists px : list Z,
    rendered c (canvas_width c) (canvas_height c) refStats tgtStats
      intensity_ shadowStrength = Some px
    /\ length px = (4 * canvas_width c * canvas_height c)%nat.
Proof.
  intros [Hb Hlen] Hw Hh. unfold rendered.
  rewrite option_guard_True by done. cbn [mbind option_bind].
  destruct (processed_bytes_defined (pixels c) (canvas_width c) (canvas_height c)
              refStats tgtStats intensity_ shadowStrength Hb Hlen)
    as (px & Hpx & Hl).
  - rewrite Hlen. assert (0 < canvas_width c * canvas_height c)%nat by nia. lia.
  - exists px. split; [done|]. by rewrite Hl.
Qed.

Lemma names_of_seq {A : Type} (g : A → string) (l : list A) :
  ∀ (l' : list A) (j : nat) (names : list string),
    (forall k, l' !! k = l !! (j + k)%nat) ->
    Forall2 (λ i n, exists t, l !! i = Some t /\ n = g t)
      (seq j (length l')) names ->
    names = g <$> l'.
Proof.
  induction l' as [|t l' IH]; intros j names Hl H.
  - cbn in H. by inversion H.
  - cbn [length seq] in H. inversion H as [|i n is_ ns (t' & Ht' & Hn) Hrest]; subst.
    cbn [fmap list_fmap]. f_equal.
    + f_equal. specialize (Hl 0%nat). cbn in Hl.
      rewrite Nat.add_0_r in Hl. congruence.
    + apply (IH (S j)); [|done]. intros k. specialize (Hl (S k)).
      rewrite lookup_cons in Hl. rewrite Hl. f_equal. lia.
Qed.

Lemma clearly_resizable_resizable {HTMLImageElement : Type}
    (img_width img_height : HTMLImageElement → nat) (L : nat)
    (img : HTMLImageElement) :
  clearly_resizable img_width img_height L img ->
  resizable img_width img_height L img.
Proof. intros (? & ? & ? & _). unfold resizable. lia. Qed.

Section Zip.

Variable HTMLImageElement : Type.
Variable img_width img_height : HTMLImageElement → nat.
Variable drawImage : HTMLImageElement → nat → nat → list Z.
Variable toDataURL : list Z → nat → nat → R → string.
Variable strip_extension : string → string.
Variable after_comma : string → string.

Local Abbreviation resize :=
  (resizeImageCanvas HTMLImageElement img_width img_height drawImage).
Local Abbreviation zipEntry_ :=
  (zipEntry HTMLImageElement img_width img_height drawImage toDataURL
     strip_extension after_comma).
Local Abbreviation zipEntries_ :=
  (zipEntries HTMLImageElement img_width img_height drawImage toDataURL
     strip_extension after_comma).
Local Abbreviation handleDownloadZip_ :=
  (handleDownloadZip HTMLImageElement img_width img_height drawImage toDataURL
     strip_extension after_comma).
Local Abbreviation draws_bytes_ := (draws_bytes drawImage).
Local Abbreviation resizable_ := (resizable img_width img_height).
Local Abbreviation clearly_resizable_ :=
  (clearly_resizable img_width img_height).
Local Abbreviation entry_name_ := (entry_name strip_extension).

Lemma resize_resizable (L : nat) (img : HTMLImageElement) :
  draws_bytes_ -> resizable_ L img ->
  exists c : Canvas,
    resize img L = Some c /\ canvas_ok c
    /\ canvas_width c ≠ 0%nat /\ canvas_height c ≠ 0%nat.
Proof.
  intros Hdraw (Hw & Hh & Hr).
  destruct (resize_cases _ img_width img_height drawImage img L)
    as (w & h & Hc & _ & _ & _ & _ & Hfit & Hbig).
  eexists. split; [done|]. split; [apply Hdraw|].
  cbn [canvas_width canvas_height].
  destruct (decide (L < img_width img ∨ L < img_height img)%nat) as [Hb|Hf].
  - destruct (Hbig Hb) as [_ H0]. lia.
  - destruct Hfit as [-> ->]; lia.
Qed.


Lemma zipEntry_Some (refStats : ColorStats) (st : AppState HTMLImageElement)
    (i : nat) (σ σ' : store) (n u : string) :
  zipEntry_ refStats st i σ = Some (n, u, σ') ->
  σ ⊆ σ'
  /\ is_Some (results _ st !! i)
  /\ exists t, targets _ st !! i = Some t /\ n = entry_name_ t.
Proof.
  unfold zipEntry. intros H.
  destruct (targets _ st !! i) as [t|]; [|done].
  destruct (results _ st !! i) as [res|]; [|done].
  cbn [mbind option_bind] in H.
  destruct (resize _ _) as [c|]; [|done]. cbn [mbind option_bind] in H.
  destruct (computeStats_ctx _ _ _) as [s|]; [|done]. cbn [mbind option_bind] in H.
  pose proof (render_steps c (canvas_width c) (canvas_height c) refStats s
                (intensity res) None σ) as Hr.
  destruct (getImageData _ _ _ _) as [[img σ1]|]; [|done].
  destruct Hr as [_ Hr]. cbn [mbind option_bind] in H.
  destruct (processImageBuffer _ _ _ _ _ _) as [[out σ2]|]; [|done].
  destruct Hr as (Hsub & px & Hpx & _). cbn [mbind option_bind] in H.
  rewrite Hpx in H. cbn [mbind option_bind] in H. injection H as <- _ <-.
  split; [done|]. split; [done|]. by exists t.
Qed.

(** The export loop: what it has put into the archive when it went
    through.  [zip.file] is keyed by name, so the archive gains the names
    of the targets, and as many entries only when the names are distinct
    and new. *)
Lemma zipEntries_Some (refStats : ColorStats) (st : AppState HTMLImageElement) :
  ∀ (is_ : list nat) (σ σ' : store) (zip zip' : gmap string string),
    zipEntries_ refStats st is_ σ zip = Some (zip', σ') ->
    σ ⊆ σ'
    /\ Forall (λ i, is_Some (results _ st !! i)) is_
    /\ exists names : list string,
         Forall2 (λ i n, exists t, targets _ st !! i = Some t
                                   /\ n = entry_name_ t) is_ names
         /\ dom zip' = dom zip ∪ list_to_set names
         /\ (size zip' <= size zip + length names)%nat
         /\ (NoDup names -> (forall n, n ∈ names -> zip !! n = None) ->
             size zip' = (size zip + length names)%nat).
Proof.
  induction is_ as [|i is_ IH]; intros σ σ' zip zip' H.
  - injection H as <- <-. split; [done|]. split; [done|].
    exists []. split; [done|]. split; [cbn; by rewrite union_empty_r_L|].
    cbn [length]. split; [lia|]. intros _ _. lia.
  - cbn [zipEntries] in H.
    destruct (zipEntry_ refStats st i σ) as [[[n u] σ1]|] eqn:He; [|done].
    cbn [mbind option_bind] in H.
    apply zipEntry_Some in He as (Hsub & Hres & t & Ht & ->).
    apply IH in H as (Hsub' & Hall & names & Hnames & Hdom & Hle & Heq).
    split; [by etrans|]. split; [by constructor|].
    exists (entry_name_ t :: names). split; [constructor; [by exists t|done]|].
    unfold zip_file in *. split.
    { rewrite Hdom, dom_insert_L. cbn [list_to_set].
      by rewrite (union_comm_L {[entry_name_ t]} (dom zip)), <- (assoc_L (∪)). }
    cbn [length]. split.
    { pose proof (map_size_insert (entry_name_ t) u zip) as Hs.
      destruct (zip !! entry_name_ t); cbn in Hs; lia. }
    intros Hnd Hnew. apply NoDup_cons in Hnd as [Hnotin Hnd].
    rewrite Heq.
    + rewrite map_size_insert_None; [lia|]. apply Hnew. by left.
    + done.
    + intros n' Hn'. rewrite lookup_insert_ne.
      * apply Hnew. by right.
      * intros <-. done.
Qed.

Lemma zipEntry_defined (refStats : ColorStats) (st : AppState HTMLImageElement)
    (i : nat) (σ : store) (t : ImageState HTMLImageElement) :
  draws_bytes_ ->
  targets _ st !! i = Some t -> is_Some (results _ st !! i) ->
  resizable_ RESIZE_LONG_EDGE (element _ t) ->
  is_Some (zipEntry_ refStats st i σ).
Proof.
  intros Hdraw Ht [res Hres] Hok. unfold zipEntry. rewrite Ht, Hres.
  cbn [mbind option_bind].
  destruct (resize_resizable _ _ Hdraw Hok) as (c & -> & Hc & Hw & Hh).
  cbn [mbind option_bind].
  destruct (computeStats_ctx_defined c Hc Hw Hh) as [s ->].
  cbn [mbind option_bind].
  pose proof (render_steps c (canvas_width c) (canvas_height c) refStats s
                (intensity res) None σ) as Hr.
  destruct (rendered_defined c refStats s (intensity res) (default 50 None)
              Hc Hw Hh) as (px & Hpx & _).
  rewrite Hpx in Hr.
  destruct (getImageData _ _ _ _) as [[img σ1]|]; [|done].
  destruct Hr as [_ Hr]. cbn [mbind option_bind].
  destruct (processImageBuffer _ _ _ _ _ _) as [[out σ2]|]; [|done].
  destruct Hr as (_ & px' & Hpx' & _). cbn [mbind option_bind].
  rewrite Hpx'. done.
Qed.

Lemma zipEntries_defined (refStats : ColorStats) (st : AppState HTMLImageElement) :
  draws_bytes_ ->
  ∀ (is_ : list nat) (σ : store) (zip : gmap string string),
    Forall (λ i, is_Some (results _ st !! i)
                 /\ exists t, targets _ st !! i = Some t
                              /\ resizable_ RESIZE_LONG_EDGE (element _ t)) is_ ->
    is_Some (zipEntries_ refStats st is_ σ zip).
Proof.
  intros Hdraw. induction is_ as [|i is_ IH]; intros σ zip Hall; [done|].
  apply Forall_cons in Hall as [(Hres & t & Ht & Hok) Hall].
  cbn [zipEntries].
  destruct (zipEntry_defined refStats st i σ t Hdraw Ht Hres Hok)
    as [[[n u] σ1] ->].
  cbn [mbind option_bind]. by apply IH.
Qed.

(** The three ways [handleDownloadZip] ends. *)
Lemma handleDownloadZip_cases (msgZipFail : string)
    (st : AppState HTMLImageElement) (σ : store) :
  ((reference _ st = None \/ targets _ st = [] \/ results _ st = [])
   /\ handleDownloadZip_ msgZipFail st σ = (st, σ, None))
  \/ ((is_Some (reference _ st) /\ targets _ st ≠ [] /\ results _ st ≠ [])
      /\ (handleDownloadZip_ msgZipFail st σ
            = (setErrorMessage _ (Some msgZipFail) st, σ, None)
          \/ exists zip σ',
               handleDownloadZip_ msgZipFail st σ = (st, σ', Some zip)
               /\ σ ⊆ σ'
               /\ (length (targets _ st) <= length (results _ st))%nat
               /\ dom zip = list_to_set (entry_name_ <$> targets _ st)
               /\ (size zip <= length (targets _ st))%nat
               /\ (NoDup (entry_name_ <$> targets _ st) ->
                   size zip = length (targets _ st)))).
Proof.
  unfold handleDownloadZip.
  destruct (reference _ st) as [ref|]; [|left; split; [by left|done]].
  destruct (decide _) as [Hempty|Hne].
  { left. split; [|done]. right.
    destruct Hempty as [H|H]; [left|right]; by apply length_zero_iff_nil. }
  right. split.
  { split; [done|]. split; intros E; apply Hne; rewrite E; [by left|by right]. }
  destruct (resize _ _) as [c|]; [|by left]. cbn [mbind option_bind].
  destruct (computeStats_ctx _ _ _) as [refStats|]; [|by left].
  cbn [mbind option_bind].
  destruct (zipEntries_ _ _ _ _ _) as [[zip σ']|] eqn:Hz; [|by left].
  right. exists zip, σ'. split; [done|].
  apply zipEntries_Some in Hz
    as (Hsub & Hres & names & Hnames & Hdom & Hle & Heq).
  assert (names = entry_name_ <$> targets _ st) as ->
    by (by apply (names_of_seq _ (targets _ st) (targets _ st) 0)).
  rewrite length_fmap, map_size_empty in *.
  rewrite dom_empty_L, union_empty_l_L in Hdom.
  split; [done|]. split.
  { destruct (targets _ st) as [|t ts] eqn:Et using rev_ind; [cbn; lia|].
    rewrite length_app in Hres |- *. cbn [length] in Hres |- *.
    rewrite Forall_forall in Hres.
    destruct (Hres (length ts)) as [r Hr].
    { apply elem_of_seq. lia. }
    apply lookup_lt_Some in Hr. lia. }
  split; [done|]. split; [lia|].
  intros Hnd. rewrite Heq; [lia|done|]. intros n _. apply lookup_empty.
Qed.

(** X13: the three ways [handleDownloadZip] ends.  It returns at once,
    changing nothing, when there is no reference, no target or no result.
    Otherwise it either fails, leaving [msgZipFail] as error message and
    nothing else changed, or delivers an archive; then the state is as it
    was, the arrays of the store are found unchanged, there were at least
    as many results as targets, and the names in the archive are those of
    the targets' files with ["_adjusted.jpg"] in place of the extension:
    one entry for each target when these names are distinct, fewer when
    two targets share one (the later call of [zip.file] replaces the
    entry). *)
Theorem export_outcomes (msgZipFail : string)
    (st : AppState HTMLImageElement) (σ : store) :
  let '(st', σ', archive) := handleDownloadZip_ msgZipFail st σ in
  σ ⊆ σ'
  /\ match archive with
     | Some zip =>
         st' = st
         /\ is_Some (reference _ st)
         /\ (length (targets _ st) <= length (results _ st))%nat
         /\ dom zip = list_to_set (entry_name_ <$> targets _ st)
         /\ (size zip <= length (targets _ st))%nat
         /\ (NoDup (entry_name_ <$> targets _ st) ->
             size zip = length (targets _ st))
     | None =>
         σ' = σ
         /\ ((st' = st
              /\ (reference _ st = None \/ targets _ st = []
                  \/ results _ st = []))
             \/ (st' = setErrorMessage _ (Some msgZipFail) st
                 /\ is_Some (reference _ st) /\ targets _ st ≠ []
                 /\ results _ st ≠ []))
     end.
Proof.
  destruct (handleDownloadZip_cases msgZipFail st σ)
    as [[Hnone ->]|[Hsome [->|(zip & σ2 & -> & Hsub & Hlen & Hdom & Hle & Heq)]]].
  - split; [done|]. split; [done|]. by left.
  - split; [done|]. split; [done|]. by right.
  - split; [done|]. destruct Hsome as (? & _). by split_and!.
Qed.

(** X14: with fewer results than targets, which is the case after targets
    were added to a processed batch, the export fails: it delivers
    nothing, leaves [msgZipFail] as error message and changes nothing
    else. *)
Theorem export_needs_all_results (msgZipFail : string)
    (st : AppState HTMLImageElement) (σ : store) :
  is_Some (reference _ st) ->
  results _ st ≠ [] ->
  (length (results _ st) < length (targets _ st))%nat ->
  handleDownloadZip_ msgZipFail st σ
  = (setErrorMessage _ (Some msgZipFail) st, σ, None).
Proof.
  intros Href Hres Hlt.
  destruct (handleDownloadZip_cases msgZipFail st σ)
    as [[Hnone _]|[_ [E|(fs & σ2 & _ & _ & Hlen & _)]]]; [|done|lia].
  destruct Hnone as [E|[E|E]].
  - rewrite E in Href. by destruct Href.
  - rewrite E in Hlt. cbn in Hlt. lia.
  - done.
Qed.

(** X15: the export delivers an archive, and leaves the state as it was,
    when the host draws bytes, there is a result for each target, and the
    reference and every target are [clearly_resizable] at 3000 pixels.
    The archive holds the names of the targets, and one entry for each
    target when these names are distinct. *)
Theorem export_succeeds (msgZipFail : string)
    (st : AppState HTMLImageElement) (σ : store)
    (ref : ImageState HTMLImageElement) :
  draws_bytes_ ->
  reference _ st = Some ref ->
  targets _ st ≠ [] ->
  (length (targets _ st) <= length (results _ st))%nat ->
  clearly_resizable_ RESIZE_LONG_EDGE (element _ ref) ->
  Forall (λ t, clearly_resizable_ RESIZE_LONG_EDGE (element _ t))
    (targets _ st) ->
  exists (zip : gmap string string) (σ' : store),
    handleDownloadZip_ msgZipFail st σ = (st, σ', Some zip)
    /\ dom zip = list_to_set (entry_name_ <$> targets _ st)
    /\ (NoDup (entry_name_ <$> targets _ st) ->
        size zip = length (targets _ st)).
Proof.
  intros Hdraw Href Hts Hlen Hrefok Hok.
  apply clearly_resizable_resizable in Hrefok.
  assert (exists zip σ', handleDownloadZip_ msgZipFail st σ = (st, σ', Some zip))
    as (zip & σ' & E).
  { unfold handleDownloadZip. rewrite Href.
    rewrite decide_False.
    2:{ intros [H|H].
        - by apply length_zero_iff_nil in H.
        - apply Hts, length_zero_iff_nil. lia. }
    destruct (resize_resizable _ _ Hdraw Hrefok) as (c & -> & Hc & Hw & Hh).
    cbn [mbind option_bind].
    destruct (computeStats_ctx_defined c Hc Hw Hh) as [refStats ->].
    cbn [mbind option_bind].
    destruct (zipEntries_defined refStats st Hdraw
                (seq 0 (length (targets _ st))) σ ∅) as [[fs σ2] ->].
    - apply Forall_forall. intros i Hi. apply elem_of_seq in Hi.
      destruct (lookup_lt_is_Some_2 (targets _ st) i ltac:(lia)) as [t Ht].
      split; [apply lookup_lt_is_Some_2; lia|].
      exists t. split; [done|].
      apply clearly_resizable_resizable.
      apply (Forall_lookup_1 _ _ _ _ Hok Ht).
    - by exists fs, σ2. }
  exists zip, σ'. split; [done|].
  destruct (handleDownloadZip_cases msgZipFail st σ)
    as [[_ E']|[_ [E'|(z2 & σ2 & E' & _ & _ & Hdom & _ & Heq)]]];
    rewrite E' in E; try done.
  injection E as <- <-. done.
Qed.


End Zip.

(** ** Batch processing *)

Section BatchProps.

Variable HTMLImageElement : Type.
Variable img_width img_height : HTMLImageElement → nat.
Variable drawImage : HTMLImageElement → nat → nat → list Z.
Variable toDataURL : list Z → nat → nat → R → string.

Local Abbreviation resize :=
  (resizeImageCanvas HTMLImageElement img_width img_height drawImage).
Local Abbreviation processTarget_ :=
  (processTarget HTMLImageElement img_width img_height drawImage toDataURL).
Local Abbreviation processTargets_ :=
  (processTargets HTMLImageElement img_width img_height drawImage toDataURL).
Local Abbreviation executeColorTransfer_ :=
  (executeColorTransfer HTMLImageElement img_width img_height drawImage
     toDataURL).
Local Abbreviation preview_of_ :=
  (preview_of img_width img_height drawImage toDataURL).
Local Abbreviation draws_bytes_ := (draws_bytes drawImage).
Local Abbreviation resizable_ := (resizable img_width img_height).
Local Abbreviation clearly_resizable_ :=
  (clearly_resizable img_width img_height).

(** An image that is not [resizable] gives a canvas with an empty side,
    on which [computeStats] throws. *)
Lemma resize_not_resizable (L : nat) (img : HTMLImageElement) :
  ¬ resizable_ L img ->
  (c ← resize img L;
   computeStats_ctx c (canvas_width c) (canvas_height c)) = None.
Proof.
  intros Hr.
  destruct (resize_cases _ img_width img_height drawImage img L)
    as (w & h & -> & _ & _ & _ & _ & Hfit & Hbig).
  cbn [mbind option_bind canvas_width canvas_height].
  apply computeStats_ctx_empty. unfold resizable in Hr.
  destruct (decide (L < img_width img ∨ L < img_height img)%nat) as [Hb|Hf].
  - destruct (Hbig Hb) as [_ H0]. apply H0. nia.
  - destruct Hfit as [-> ->]; [lia|]. nia.
Qed.

(** One turn of the batch loop, by cases. *)
Lemma processTarget_cases (refStats : ColorStats) (i : nat)
    (t : ImageState HTMLImageElement) (cache : gmap nat CacheEntry) (σ : store) :
  exists (cache' : gmap nat CacheEntry) (σ' : store) (out : option ResultState),
    processTarget_ refStats i t cache σ = (cache', σ', out)
    /\ σ ⊆ σ'
    /\ (forall j, j ≠ i -> cache' !! j = cache !! j)
    /\ match out with
       | Some r => exists e, cache' !! i = Some e /\ preview_of_ refStats i t e r
       | None =>
           (c ← resize (element _ t) PREVIEW_EDGE;
            s ← computeStats_ctx c (canvas_width c) (canvas_height c);
            rendered c (canvas_width c) (canvas_height c) refStats s 50 50) = None
       end.
Proof.
  unfold processTarget.
  destruct (resize (element _ t) PREVIEW_EDGE) as [c|] eqn:Hc;
    [|by exists cache, σ, None].
  cbn [mbind option_bind].
  destruct (computeStats_ctx c _ _) as [s|] eqn:Hs; [|by exists cache, σ, None].
  cbn [mbind option_bind].
  pose proof (render_steps c (canvas_width c) (canvas_height c) refStats s 50
                (Some 50) σ) as Hr.
  cbn [default Datatypes.id] in Hr.
  assert (forall j, j ≠ i ->
            <[i := mkEntry c (canvas_width c) (canvas_height c) s refStats]> cache
              !! j = cache !! j) as Hframe
    by (intros j Hj; by rewrite lookup_insert_ne).
  destruct (getImageData _ _ _ _) as [[img σ1]|].
  2:{ eexists _, σ, None. by split_and!. }
  destruct Hr as [Hsub1 Hr].
  destruct (processImageBuffer _ _ _ _ _ _) as [[out σ2]|].
  2:{ eexists _, σ1, None. by split_and!. }
  destruct Hr as (Hsub2 & px & Hpx & Hrend). rewrite Hpx.
  eexists _, σ2, (Some _). split; [done|]. split; [done|]. split; [done|].
  eexists. split; [apply lookup_insert_eq|].
  exists c, s, px. by split_and!.
Qed.

(** The batch loop from index [i] on: it only adds arrays to the store and
    only writes the cache at the indices of its targets; when it goes
    through, it has appended one result and written one cache entry for
    each target. *)
Lemma processTargets_cases (refStats : ColorStats) :
  ∀ (ts : list (ImageState HTMLImageElement)) (i : nat)
    (cache : gmap nat CacheEntry) (σ : store) (acc : list ResultState),
  exists (cache' : gmap nat CacheEntry) (σ' : store)
         (out : option (list ResultState)),
    processTargets_ refStats i ts cache σ acc = (cache', σ', out)
    /\ σ ⊆ σ'
    /\ (forall j, (j < i ∨ i + length ts <= j)%nat -> cache' !! j = cache !! j)
    /\ match out with
       | Some rs =>
           exists new,
             rs = acc ++ new
             /\ length new = length ts
             /\ forall k t, ts !! k = Some t ->
                  exists e r, cache' !! (i + k)%nat = Some e
                              /\ new !! k = Some r
                              /\ preview_of_ refStats (i + k) t e r
       | None =>
           Exists (λ t, (c ← resize (element _ t) PREVIEW_EDGE;
                         s ← computeStats_ctx c (canvas_width c) (canvas_height c);
                         rendered c (canvas_width c) (canvas_height c)
                           refStats s 50 50) = None) ts
       end.
Proof.
  induction ts as [|t ts IH]; intros i cache σ acc.
  - exists cache, σ, (Some acc). cbn [processTargets]. split; [done|].
    split; [done|]. split; [done|]. exists []. rewrite app_nil_r.
    split; [done|]. split; [done|]. intros k t Hk. done.
  - cbn [processTargets].
    destruct (processTarget_cases refStats i t cache σ)
      as (cache1 & σ1 & out1 & -> & Hsub1 & Hframe1 & Hout1).
    destruct out1 as [r|].
    2:{ exists cache1, σ1, None. split; [done|]. split; [done|]. split.
        - intros j Hj. apply Hframe1. cbn [length] in Hj. lia.
        - by constructor. }
    destruct Hout1 as (e & He & Hprev).
    destruct (IH (S i) cache1 σ1 (acc ++ [r]))
      as (cache2 & σ2 & out2 & -> & Hsub2 & Hframe2 & Hout2).
    exists cache2, σ2, out2. split; [done|]. split; [by etrans|]. split.
    { intros j Hj. cbn [length] in Hj.
      rewrite Hframe2 by lia. apply Hframe1. lia. }
    destruct out2 as [rs|]; [|by apply Exists_cons_tl].
    destruct Hout2 as (new & -> & Hlen & Hall).
    exists (r :: new). split; [by rewrite <- app_assoc|].
    split; [cbn [length]; lia|].
    intros [|k] t' Ht'.
    + cbn in Ht'. injection Ht' as <-. exists e, r.
      rewrite Nat.add_0_r. split; [|done].
      rewrite Hframe2 by lia. done.
    + cbn in Ht'. destruct (Hall k t' Ht') as (e' & r' & He' & Hr' & Hp').
      exists e', r'. replace (i + S k)%nat with (S i + k)%nat by lia. done.
Qed.

(** The three ways [executeColorTransfer] ends. *)
Lemma executeColorTransfer_cases (st : AppState HTMLImageElement) (σ : store) :
  ((reference _ st = None \/ targets _ st = [])
   /\ executeColorTransfer_ st σ = (st, σ))
  \/ (exists ref, reference _ st = Some ref /\ targets _ st ≠ []
      /\ ((exists cache' σ',
             executeColorTransfer_ st σ
               = (setErrorMessage _ (Some "Processing failed.")
                    (setImageCache _ cache' st), σ')
             /\ σ ⊆ σ'
             /\ (forall j, (length (targets _ st) <= j)%nat -> cache' !! j = None)
             /\ ((c ← resize (element _ ref) RESIZE_LONG_EDGE;
                  computeStats_ctx c (canvas_width c) (canvas_height c)) = None
                 \/ exists refStats,
                      Exists (λ t, (c ← resize (element _ t) PREVIEW_EDGE;
                                    s ← computeStats_ctx c (canvas_width c)
                                          (canvas_height c);
                                    rendered c (canvas_width c) (canvas_height c)
                                      refStats s 50 50) = None) (targets _ st)))
          \/ (exists refStats cache' σ' rs,
                executeColorTransfer_ st σ
                  = (setResults _ (λ _, rs) (setImageCache _ cache' st), σ')
                /\ σ ⊆ σ'
                /\ (forall j, (length (targets _ st) <= j)%nat
                              -> cache' !! j = None)
                /\ length rs = length (targets _ st)
                /\ (c ← resize (element _ ref) RESIZE_LONG_EDGE;
                    computeStats_ctx c (canvas_width c) (canvas_height c))
                   = Some refStats
                /\ forall k t, targets _ st !! k = Some t ->
                     exists e r, cache' !! k = Some e /\ rs !! k = Some r
                                 /\ preview_of_ refStats k t e r))).
Proof.
  unfold executeColorTransfer.
  destruct (reference _ st) as [ref|]; [|left; split; [by left|done]].
  destruct (decide _) as [Hempty|Hne].
  { left. split; [|done]. right. by apply length_zero_iff_nil. }
  right. exists ref. split; [done|]. split.
  { intros E. apply Hne. by rewrite E. }
  destruct (resize (element _ ref) RESIZE_LONG_EDGE ≫= _) as [refStats|] eqn:Href.
  2:{ left. exists ∅, σ. split; [done|]. split; [done|].
      split; [intros; apply lookup_empty|]. by left. }
  cbn [setImageCache targets].
  destruct (processTargets_cases refStats (targets _ st) 0 ∅ σ [])
    as (cache' & σ' & out & -> & Hsub & Hframe & Hout).
  assert (forall j, (length (targets _ st) <= j)%nat -> cache' !! j = None) as Hdom.
  { intros j Hj. rewrite Hframe by lia. apply lookup_empty. }
  destruct out as [rs|].
  - right. destruct Hout as (new & -> & Hlen & Hall).
    exists refStats, cache', σ', new. by split_and!.
  - left. exists cache', σ'. split_and!; try done. right. by exists refStats.
Qed.

(** On images that are [resizable], drawn by a host that draws bytes,
    every step of a turn of the loop is defined. *)
Lemma preview_defined (refStats : ColorStats) (img : HTMLImageElement) (L : nat) :
  draws_bytes_ -> resizable_ L img ->
  exists c s px,
    resize img L = Some c
    /\ computeStats_ctx c (canvas_width c) (canvas_height c) = Some s
    /\ rendered c (canvas_width c) (canvas_height c) refStats s 50 50 = Some px.
Proof.
  intros Hdraw Hok.
  destruct (resize_resizable _ img_width img_height drawImage L img Hdraw Hok)
    as (c & Hc & Hcok & Hw & Hh).
  destruct (computeStats_ctx_defined c Hcok Hw Hh) as [s Hs].
  destruct (rendered_defined c refStats s 50 50 Hcok Hw Hh) as (px & Hpx & _).
  by exists c, s, px.
Qed.

Lemma preview_of_fields (refStats : ColorStats) (i : nat)
    (t : ImageState HTMLImageElement) (e : CacheEntry) (r : ResultState) :
  preview_of_ refStats i t e r ->
  id r = i /\ intensity r = 50 /\ shadow r = 50
  /\ name r = file_name _ t /\ originalUrl r = url _ t
  /\ (entry_width e <= PREVIEW_EDGE)%nat /\ (entry_height e <= PREVIEW_EDGE)%nat
  /\ entry_refStats e = refStats
  /\ exists px,
       rendered (entry_ctx e) (entry_width e) (entry_height e)
         (entry_refStats e) (entry_tgtStats e) 50 50 = Some px
       /\ resultUrl r = toDataURL px (entry_width e) (entry_height e) 0.9.
Proof.
  intros (c & s & px & Hc & Hs & Hpx & -> & ->).
  cbn [id intensity shadow name originalUrl resultUrl entry_width entry_height
       entry_ctx entry_refStats entry_tgtStats].
  destruct (resize_cases _ img_width img_height drawImage (element _ t)
              PREVIEW_EDGE) as (w & h & Hc' & _ & _ & HwL & HhL & _).
  rewrite Hc in Hc'. injection Hc' as ->. cbn [canvas_width canvas_height] in *.
  split_and!; try done. by exists px.
Qed.

(** X16: the three ways [executeColorTransfer] ends; it never changes the
    reference or the targets, and every array of the store is found
    unchanged.  Without a reference or without targets it does nothing.
    Otherwise the cache holds no entry beyond the targets, and either it
    fails, with ["Processing failed."] as error message and the results
    as they were, or it replaces the results by one result for each
    target, in order: identifier equal to the index, intensity and shadow
    50, name and original URL of the target, and as picture the rendering
    at 50/50 of the cache entry written at that index, whose sides are at
    most 1000. *)
Theorem batch_outcomes (st : AppState HTMLImageElement) (σ : store) :
  let '(st', σ') := executeColorTransfer_ st σ in
  reference _ st' = reference _ st
  /\ targets _ st' = targets _ st
  /\ σ ⊆ σ'
  /\ ((st' = st /\ σ' = σ
       /\ (reference _ st = None \/ targets _ st = []))
      \/ (is_Some (reference _ st) /\ targets _ st ≠ []
          /\ (forall j, (length (targets _ st) <= j)%nat
                        -> imageCache _ st' !! j = None)
          /\ ((errorMessage _ st' = Some "Processing failed."
               /\ results _ st' = results _ st)
              \/ (errorMessage _ st' = errorMessage _ st
                  /\ length (results _ st') = length (targets _ st)
                  /\ forall k t, targets _ st !! k = Some t ->
                       exists r e px,
                         results _ st' !! k = Some r
                         /\ imageCache _ st' !! k = Some e
                         /\ id r = k /\ intensity r = 50 /\ shadow r = 50
                         /\ name r = file_name _ t
                         /\ originalUrl r = url _ t
                         /\ (entry_width e <= PREVIEW_EDGE)%nat
                         /\ (entry_height e <= PREVIEW_EDGE)%nat
                         /\ rendered (entry_ctx e) (entry_width e)
                              (entry_height e) (entry_refStats e)
                              (entry_tgtStats e) 50 50 = Some px
                         /\ resultUrl r
                            = toDataURL px (entry_width e) (entry_height e)
                                0.9)))).
Proof.
  destruct (executeColorTransfer_cases st σ)
    as [[Hnone ->]|(ref & Href & Hts & [Hfail|Hok])].
  - split_and!; try done. by left.
  - destruct Hfail as (cache' & σ' & -> & Hsub & Hdom & _).
    split_and!; try done. right. split_and!; try done. by left.
  - destruct Hok as (refStats & cache' & σ' & rs & -> & Hsub & Hdom & Hlen
                     & _ & Hall).
    split_and!; try done. right. split_and!; try done. right.
    split_and!; try done. intros k t Ht.
    destruct (Hall k t Ht) as (e & r & He & Hr & Hprev).
    apply preview_of_fields in Hprev
      as (? & ? & ? & ? & ? & ? & ? & _ & px & ? & ?).
    exists r, e, px. by split_and!.
Qed.

Lemma batch_success (st : AppState HTMLImageElement) (σ : store)
    (ref : ImageState HTMLImageElement) :
  draws_bytes_ ->
  reference _ st = Some ref ->
  targets _ st ≠ [] ->
  resizable_ RESIZE_LONG_EDGE (element _ ref) ->
  Forall (λ t, resizable_ PREVIEW_EDGE (element _ t)) (targets _ st) ->
  exists refStats cache' σ' rs,
    executeColorTransfer_ st σ
      = (setResults _ (λ _, rs) (setImageCache _ cache' st), σ')
    /\ length rs = length (targets _ st)
    /\ (forall j, (length (targets _ st) <= j)%nat -> cache' !! j = None)
    /\ forall k t, targets _ st !! k = Some t ->
         exists e r, cache' !! k = Some e /\ rs !! k = Some r
                     /\ preview_of_ refStats k t e r.
Proof.
  intros Hdraw Href Hts Hrefok Hok.
  destruct (executeColorTransfer_cases st σ)
    as [[[Hnone|Hnone] _]|(ref' & Href' & _ & [Hfail|Hsucc])].
  - by rewrite Href in Hnone.
  - done.
  - exfalso. rewrite Href in Href'. injection Href' as <-.
    destruct Hfail as (cache' & σ' & _ & _ & _ & [Hbad|[refStats Hbad]]).
    + destruct (preview_defined sentinel (element _ ref) RESIZE_LONG_EDGE
                  Hdraw Hrefok) as (c & s & px & Hc & Hs & _).
      rewrite Hc in Hbad. cbn [mbind option_bind] in Hbad. by rewrite Hs in Hbad.
    + apply Exists_exists in Hbad as (t & Hin & Hbad).
      rewrite Forall_forall in Hok.
      destruct (preview_defined refStats (element _ t) PREVIEW_EDGE Hdraw
                  (Hok t Hin)) as (c & s & px & Hc & Hs & Hpx).
      rewrite Hc in Hbad. cbn [mbind option_bind] in Hbad.
      rewrite Hs in Hbad. cbn [mbind option_bind] in Hbad. by rewrite Hpx in Hbad.
  - destruct Hsucc as (refStats & cache' & σ' & rs & E & _ & Hdom & Hlen & _ & Hall).
    by exists refStats, cache', σ', rs.
Qed.

(** X17: the batch goes through when the host draws bytes, the reference
    is [clearly_resizable] at 3000 pixels and every target at 1000 pixels:
    the error message is left as it was, there is one result for each
    target, and the cache holds an entry at exactly the indices of the
    targets. *)
Theorem batch_succeeds (st : AppState HTMLImageElement) (σ : store)
    (ref : ImageState HTMLImageElement) :
  draws_bytes_ ->
  reference _ st = Some ref ->
  targets _ st ≠ [] ->
  clearly_resizable_ RESIZE_LONG_EDGE (element _ ref) ->
  Forall (λ t, clearly_resizable_ PREVIEW_EDGE (element _ t)) (targets _ st) ->
  exists st' σ',
    executeColorTransfer_ st σ = (st', σ')
    /\ errorMessage _ st' = errorMessage _ st
    /\ length (results _ st') = length (targets _ st)
    /\ forall j, is_Some (imageCache _ st' !! j)
                 <-> (j < length (targets _ st))%nat.
Proof.
  intros Hdraw Href Hts Hrefok Hok.
  apply clearly_resizable_resizable in Hrefok.
  assert (Forall (λ t, resizable_ PREVIEW_EDGE (element _ t)) (targets _ st))
    as Hok'.
  { eapply Forall_impl; [exact Hok|]. intros t.
    apply clearly_resizable_resizable. }
  destruct (batch_success st σ ref Hdraw Href Hts Hrefok Hok')
    as (refStats & cache' & σ' & rs & E & Hlen & Hdom & Hall).
  eexists _, _. split; [done|]. split; [done|]. split; [done|].
  cbn [setResults setImageCache imageCache]. intros j. split.
  - intros [e He]. destruct (decide (j < length (targets _ st))%nat); [done|].
    rewrite Hdom in He by lia. done.
  - intros Hj. destruct (lookup_lt_is_Some_2 (targets _ st) j Hj) as [t Ht].
    destruct (Hall j t Ht) as (e & _ & He & _). by exists e.
Qed.

(** X18: the batch fails when the reference at 3000 pixels, or a target at
    1000 pixels, has a side of 0 or is so elongated that its canvas has an
    empty side: the error message is ["Processing failed."], and the
    results, the reference and the targets are as they were. *)
Theorem batch_fails_on_empty_canvas (st : AppState HTMLImageElement) (σ : store)
    (ref : ImageState HTMLImageElement) :
  reference _ st = Some ref ->
  targets _ st ≠ [] ->
  ¬ resizable_ RESIZE_LONG_EDGE (element _ ref)
  \/ Exists (λ t, ¬ resizable_ PREVIEW_EDGE (element _ t)) (targets _ st) ->
  exists st' σ',
    executeColorTransfer_ st σ = (st', σ')
    /\ errorMessage _ st' = Some "Processing failed."
    /\ results _ st' = results _ st
    /\ reference _ st' = reference _ st
    /\ targets _ st' = targets _ st.
Proof.
  intros Href Hts Hbad.
  destruct (executeColorTransfer_cases st σ)
    as [[[Hnone|Hnone] _]|(ref' & Href' & _ & [Hfail|Hsucc])].
  - by rewrite Href in Hnone.
  - done.
  - destruct Hfail as (cache' & σ' & -> & _). by eexists _, _.
  - exfalso. rewrite Href in Href'. injection Href' as <-.
    destruct Hsucc as (refStats & cache' & σ' & rs & _ & _ & _ & _ & Hstats & Hall).
    destruct Hbad as [Hbad|Hbad].
    + by rewrite (resize_not_resizable _ _ Hbad) in Hstats.
    + apply Exists_exists in Hbad as (t & Hin & Hbad).
      apply list_elem_of_lookup in Hin as [k Hk].
      destruct (Hall k t Hk) as (e & r & _ & _ & c & s & px & Hc & Hs & _).
      pose proof (resize_not_resizable _ _ Hbad) as Hnone.
      rewrite Hc in Hnone. cbn [mbind option_bind] in Hnone.
      by rewrite Hs in Hnone.
Qed.

Lemma find_by_index (rs : list ResultState) :
  ∀ (i k : nat) (r : ResultState),
    (forall j r', rs !! j = Some r' -> id r' = (i + j)%nat) ->
    rs !! k = Some r ->
    find (λ r', bool_decide (id r' = (i + k)%nat)) rs = Some r.
Proof.
  induction rs as [|r0 rs IH]; intros i k r Hid Hk; [done|].
  cbn [find]. pose proof (Hid 0%nat r0 eq_refl) as H0.
  destruct k as [|k].
  - cbn in Hk. injection Hk as <-.
    by rewrite bool_decide_eq_true_2 by (rewrite H0; lia).
  - rewrite bool_decide_eq_false_2 by (rewrite H0; lia).
    replace (i + S k)%nat with (S i + k)%nat by lia.
    apply IH; [|done]. intros j r' Hj.
    rewrite (Hid (S j) r' Hj). lia.
Qed.

Lemma update_id_fixed (id_ : nat) (f : ResultState → ResultState)
    (rs : list ResultState) :
  (forall j r, rs !! j = Some r -> id r = id_ -> f r = r) ->
  update_id id_ f rs = rs.
Proof.
  intros Hf. unfold update_id. etrans; [|apply list_fmap_id].
  apply list_fmap_ext. intros j r Hr.
  destruct (decide _) as [E|]; [|done]. by apply (Hf j).
Qed.

(** X19: when the host draws bytes and the images are [clearly_resizable]
    (so that the batch goes through), moving the intensity slider of any
    target to 50 after the batch, the value the batch used, draws the
    picture that is already shown: the handler returns and leaves the
    state as the batch left it. *)
Theorem batch_then_slider (st : AppState HTMLImageElement) (σ : store)
    (ref : ImageState HTMLImageElement) (k : nat) :
  draws_bytes_ ->
  reference _ st = Some ref ->
  (k < length (targets _ st))%nat ->
  clearly_resizable_ RESIZE_LONG_EDGE (element _ ref) ->
  Forall (λ t, clearly_resizable_ PREVIEW_EDGE (element _ t)) (targets _ st) ->
  exists st' σ' σ'',
    executeColorTransfer_ st σ = (st', σ')
    /\ handleIntensityChange _ toDataURL k 50 st' σ' = Normal (st', σ'').
Proof.
  intros Hdraw Href Hk Hrefok Hok.
  assert (targets _ st ≠ []) as Hts by (intros E; rewrite E in Hk; cbn in Hk; lia).
  apply clearly_resizable_resizable in Hrefok.
  assert (Forall (λ t, resizable_ PREVIEW_EDGE (element _ t)) (targets _ st))
    as Hok'.
  { eapply Forall_impl; [exact Hok|]. intros t.
    apply clearly_resizable_resizable. }
  destruct (batch_success st σ ref Hdraw Href Hts Hrefok Hok')
    as (refStats & cache' & σ' & rs & E & Hlen & Hdom & Hall).
  destruct (lookup_lt_is_Some_2 (targets _ st) k Hk) as [t Ht].
  destruct (Hall k t Ht) as (e & r & He & Hr & Hprev).
  assert (forall j r', rs !! j = Some r' ->
            id r' = (0 + j)%nat /\ intensity r' = 50
            /\ (j = k -> r' = r)) as Hids.
  { intros j r' Hj. pose proof (lookup_lt_Some _ _ _ Hj) as Hlt.
    rewrite Hlen in Hlt.
    destruct (lookup_lt_is_Some_2 (targets _ st) j Hlt) as [t' Ht'].
    destruct (Hall j t' Ht') as (e' & r'' & _ & Hr'' & Hp').
    rewrite Hj in Hr''. injection Hr'' as <-.
    apply preview_of_fields in Hp' as (? & ? & _).
    split_and!; try done. intros ->. congruence. }
  pose proof (handleIntensityChange_cases _ toDataURL k 50
                (setResults _ (λ _, rs) (setImageCache _ cache' st)) σ') as Hc.
  cbv zeta in Hc. cbn [setResults setImageCache results targets imageCache] in Hc.
  rewrite Ht, He in Hc.
  assert (find (λ r', bool_decide (id r' = k)) rs = Some r) as Hfind.
  { apply (find_by_index rs 0 k r); [|done]. intros j r' Hj. by apply Hids. }
  rewrite Hfind in Hc.
  apply preview_of_fields in Hprev
    as (Hid & Hint & Hsh & _ & _ & _ & _ & _ & px & Hpx & Hurl).
  cbn [fmap option_fmap option_map default from_option Datatypes.id] in Hc.
  rewrite Hsh, Hpx in Hc.
  destruct Hc as (σ'' & _ & Hc).
  eexists _, σ', σ''. split; [done|]. rewrite Hc. do 2 f_equal.
  unfold setResults, setImageCache.
  cbn [results reference targets errorMessage imageCache].
  rewrite update_id_fixed; [done|]. intros j r' Hj Hidr'.
  destruct (Hids j r' Hj) as (Hidj & Hintj & Heq).
  rewrite (Heq ltac:(lia)). cbn [compose]. destruct r. cbn in *.
  unfold set_resultUrl, set_intensity. cbn. by rewrite Hint, Hurl.
Qed.

End BatchProps.

(** ** The first revision *)

Lemma Rev1_scaleL_range (refStats tgtStats : ColorStats) :
  exists sL : R,
    Rev1App.scaleL refStats tgtStats = Some sL /\ 0.3 <= sL <= 3.
Proof.
  unfold Rev1App.scaleL. destruct (Req_dec_T _ _) as [E|N].
  - exists 1. split; [done|lra].
  - rewrite div_Some by done. cbn [mbind option_bind]. eexists. split; [done|].
    generalize (at3 (std refStats) 0 / at3 (std tgtStats) 0). intros q.
    minmax; lra.
Qed.

Lemma Rev1_globalSatScale_range (refStats tgtStats : ColorStats) :
  exists g : R,
    Rev1App.globalSatScale refStats tgtStats = Some g /\ 0.3 <= g <= 1.25.
Proof.
  unfold Rev1App.globalSatScale. destruct (Req_dec_T _ _) as [E|N].
  - cbn [mbind option_bind]. eexists. split; [done|]. minmax; lra.
  - rewrite div_Some by done. cbn [mbind option_bind]. eexists. split; [done|].
    match goal with |- context [Math_max 0.3 ?q] => generalize q end. intros q.
    minmax; lra.
Qed.

(** X20: the per-pixel transfer of the first revision is defined for all
    statistics, with a lightness gain in [0.3, 3] and one saturation gain
    in [0.3, 1.25] for both chroma axes: the chroma of a pixel moves along
    the line through the target's mean chroma (no hue shift), a pixel at
    the target's mean keeps its chroma (no tint shift) and gets the
    reference's mean lightness plus 0.03. *)
Theorem rev1_transfer_gains (refStats tgtStats : ColorStats) :
  exists sL g : R,
    0.3 <= sL <= 3 /\ 0.3 <= g <= 1.25
    /\ (forall l a b : R,
          Rev1App.transferLab refStats tgtStats (l, a, b)
          = Some ((l - at3 (mean tgtStats) 0) * sL + at3 (mean refStats) 0 + 0.03,
                  at3 (mean tgtStats) 1 + g * (a - at3 (mean tgtStats) 1),
                  at3 (mean tgtStats) 2 + g * (b - at3 (mean tgtStats) 2)))
    /\ Rev1App.transferLab refStats tgtStats (mean tgtStats)
       = Some (at3 (mean refStats) 0 + 0.03, at3 (mean tgtStats) 1,
               at3 (mean tgtStats) 2).
Proof.
  destruct (Rev1_scaleL_range refStats tgtStats) as (sL & HsL & HL).
  destruct (Rev1_globalSatScale_range refStats tgtStats) as (g & Hg & HG).
  exists sL, g. split; [done|]. split; [done|].
  assert (forall l a b : R,
            Rev1App.transferLab refStats tgtStats (l, a, b)
            = Some ((l - at3 (mean tgtStats) 0) * sL + at3 (mean refStats) 0 + 0.03,
                    at3 (mean tgtStats) 1 + g * (a - at3 (mean tgtStats) 1),
                    at3 (mean tgtStats) 2 + g * (b - at3 (mean tgtStats) 2)))
    as Hall.
  { intros l a b. unfold Rev1App.transferLab. rewrite HsL, Hg.
    cbn [mbind option_bind]. do 2 f_equal; [f_equal|]; lra. }
  split; [done|].
  destruct (mean tgtStats) as [[ml ma] mb] eqn:Em. rewrite Hall.
  cbn [at3 fst snd]. do 2 f_equal; [f_equal|]; lra.
Qed.

Lemma ln_le (x y : R) : 0 < x -> x <= y -> ln x <= ln y.
Proof.
  intros Hx [Hlt| ->]; [|lra]. left. by apply ln_increasing.
Qed.

Lemma ln_10_pos : 0 < ln 10.
Proof. rewrite <- ln_1. apply ln_increasing; lra. Qed.

(** The logarithm the first revision takes, of a cone response clamped
    at [EPSILON] from below. *)
Lemma Math_log10_within (x : R) :
  0.0001 <= x <= 1 ->
  exists v : R, Math_log10 x = Some v /\ -4 <= v <= 0.
Proof.
  intros [Hlo Hhi]. rewrite Math_log10_Some by lra. eexists. split; [done|].
  pose proof ln_10_pos as H10.
  pose proof (ln_le x 1 ltac:(lra) Hhi) as H1. rewrite ln_1 in H1.
  pose proof (ln_le 0.0001 x ltac:(lra) Hlo) as H4.
  assert (ln 0.0001 = - (4 * ln 10)) as E.
  { replace 0.0001 with (/ 10 ^ 4) by lra. rewrite ln_Rinv by lra.
    rewrite ln_pow by lra. f_equal. f_equal. cbn. lra. }
  rewrite E in H4.
  assert (0 < / ln 10) as Hi by (by apply Rinv_0_lt_compat).
  assert (ln 10 * / ln 10 = 1) as Hone by (apply Rinv_r; lra).
  unfold Rdiv. split; nra.
Qed.

Lemma Rev1_sRGBToLinear_unit (x : Z) :
  byte x -> exists v : R, Rev1.sRGBToLinear x = Some v /\ 0 <= v <= 1.
Proof.
  intros [H0 H255]. apply IZR_le in H0, H255. unfold Rev1.sRGBToLinear. cbn zeta.
  destruct (Rle_dec _ _).
  - eexists. split; [done|]. lra.
  - rewrite Math_pow_pos by (apply Rdiv_lt_0_compat; lra).
    eexists. split; [done|]. split; [left; apply Rpower_pos|].
    apply Rpower_24_le_1. lra.
Qed.

(** The working space of the first revision, on bytes. *)
Lemma Rev1_rgb2lab_within (r g b : Z) :
  byte r -> byte g -> byte b ->
  exists l a bb : R,
    Rev1.rgb2lab r g b = Some (l, a, bb)
    /\ -7 <= l <= 0 /\ -3.3 <= a <= 3.3 /\ -2.9 <= bb <= 2.9.
Proof.
  intros Hr Hg Hb. unfold Rev1.rgb2lab.
  destruct (Rev1_sRGBToLinear_unit r Hr) as (rL & -> & HrL).
  destruct (Rev1_sRGBToLinear_unit g Hg) as (gL & -> & HgL).
  destruct (Rev1_sRGBToLinear_unit b Hb) as (bL & -> & HbL).
  cbn [mbind option_bind]. cbn zeta.
  destruct (Math_log10_within
              (Math_max 0.0001 (0.3811 * rL + 0.5783 * gL + 0.0402 * bL))
              ltac:(minmax; lra)) as (l_ & -> & Hl).
  destruct (Math_log10_within
              (Math_max 0.0001 (0.1967 * rL + 0.7244 * gL + 0.0782 * bL))
              ltac:(minmax; lra)) as (m_ & -> & Hm).
  destruct (Math_log10_within
              (Math_max 0.0001 (0.0241 * rL + 0.1288 * gL + 0.8444 * bL))
              ltac:(minmax; lra)) as (s_ & -> & Hs).
  cbn [mbind option_bind]. eexists _, _, _. split; [done|]. lra.
Qed.

Lemma pow_10_within (x : R) :
  -1e300 <= x <= 52 ->
  exists p : R, Math_pow 10 x ≫= fin = Some p /\ 0 <= p <= 1e52.
Proof.
  intros Hx. rewrite Math_pow_pos by lra. cbn [mbind option_bind].
  pose proof (Rpower_pos 10 x) as H0.
  assert (INR 52 = 52) as E52 by (rewrite INR_IZR_INZ; by f_equal).
  pose proof (Rle_Rpower 10 x (INR 52) ltac:(lra) ltac:(lra)) as Hle.
  rewrite Rpower_pow in Hle by lra.
  assert (10 ^ 52 = 1e52) as E by lra. rewrite E in Hle.
  rewrite fin_in by lra. eexists. split; [done|lra].
Qed.

(** On a lightness of at most 50 and chroma coordinates of at most 20 in
    size nothing overflows in [lab2rgb], and it returns bytes. *)
Lemma Rev1_lab2rgb_bytes (l a b : R) :
  -50 <= l <= 50 -> -20 <= a <= 20 -> -20 <= b <= 20 ->
  exists r g bb : Z,
    Rev1App.lab2rgb l a b = Some (r, g, bb) /\ byte r /\ byte g /\ byte bb.
Proof.
  intros Hl Ha Hb. unfold Rev1App.lab2rgb.
  rewrite !fin_in by lra. cbn [mbind option_bind].
  destruct (pow_10_within (0.5774 * l + 0.4082 * a + 0.7071 * b) ltac:(lra))
    as (L & -> & HL).
  destruct (pow_10_within (0.5774 * l + 0.4082 * a + -0.7071 * b) ltac:(lra))
    as (M & -> & HM).
  destruct (pow_10_within (0.5774 * l + -0.8165 * a + 0.0000 * b) ltac:(lra))
    as (S & -> & HS).
  cbn [mbind option_bind]. rewrite !fin_in by lra. cbn [mbind option_bind].
  rewrite !Finite_linearToSRGB_exact by lra.
  match goal with |- context [linearToSRGB ?x ≫= _] =>
    destruct (linearToSRGB_byte x) as (r & -> & Hr) end.
  cbn [mbind option_bind].
  match goal with |- context [linearToSRGB ?x ≫= _] =>
    destruct (linearToSRGB_byte x) as (g & -> & Hg) end.
  cbn [mbind option_bind].
  match goal with |- context [linearToSRGB ?x ≫= _] =>
    destruct (linearToSRGB_byte x) as (bb & -> & Hbb) end.
  cbn [mbind option_bind]. by exists r, g, bb.
Qed.

(** Without a bound the power of ten overflows: a lightness of 1000 is
    an exponent of 577.4. *)
Lemma Rev1_lab2rgb_overflows : Rev1App.lab2rgb 1000 0 0 = None.
Proof.
  unfold Rev1App.lab2rgb. rewrite !fin_in by lra. cbn [mbind option_bind].
  rewrite !Math_pow_pos by lra. cbn [mbind option_bind].
  rewrite (fin_big (Rpower 10 (0.5774 * 1000 + 0.4082 * 0 + 0.7071 * 0)));
    [reflexivity|].
  assert (INR 309 = 309) as E309 by (rewrite INR_IZR_INZ; by f_equal).
  pose proof (Rle_Rpower 10 (INR 309) (0.5774 * 1000 + 0.4082 * 0 + 0.7071 * 0)
                ltac:(lra) ltac:(lra)) as Hle.
  rewrite Rpower_pow in Hle by lra.
  assert (10 ^ 309 = 1e309) as E by lra. lra.
Qed.

(** The statistics the first revision finds on an image of bytes:
    means and deviations of at most 7. *)
Lemma Rev1_computeStats_bounded (data : list Z) (m : nat) (s : ColorStats) :
  Forall byte data -> length data = (4 * m)%nat ->
  Rev1.computeStats data = Some s -> Rev1App.bounded_stats s.
Proof.
  intros Hb Hlen Hs.
  destruct (computeStats_with_within Rev1.rgb2lab clipped
              (-7) 0 (-3.3) 3.3 (-2.9) 2.9 data m s) as [->|H]; try done.
  - intros r g b lab Hr Hg Hb' Hlab.
    destruct (Rev1_rgb2lab_within r g b Hr Hg Hb') as (l & a & bb & Hlab' & Hbd).
    assert (lab = (l, a, bb)) as -> by congruence. exact Hbd.
  - intros [|[|i]]; cbn; rewrite ?Rabs_R0; lra.
  - destruct H as ((? & ?) & (? & ?) & (? & ?)).
    intros [|[|i]]; (split; [apply Rabs_le|]);
      try change (at3 ?v (S (S ?j))) with (at3 v 2); lra.
Qed.

(** X21: for statistics with means and deviations of at most 7 in size,
    the body of the pixel loops of the first revision is defined on every
    triple of bytes (no operation yields NaN, none overflows) and returns
    a triple of bytes. *)
Theorem rev1_transferPixel_bytes (refStats tgtStats : ColorStats) (r g b : Z) :
  Rev1App.bounded_stats refStats -> Rev1App.bounded_stats tgtStats ->
  byte r -> byte g -> byte b ->
  exists r' g' b' : Z,
    Rev1App.transferPixel refStats tgtStats r g b = Some (r', g', b')
    /\ byte r' /\ byte g' /\ byte b'.
Proof.
  intros Href Htgt Hr Hg Hb. unfold Rev1App.transferPixel.
  destruct (Rev1_rgb2lab_within r g b Hr Hg Hb) as (l & a & bb & -> & Hl & Ha & Hbb).
  cbn [mbind option_bind].
  destruct (Href 0%nat) as [Hr0%Rabs_within _].
  destruct (Href 1%nat) as [_ Hrs1]. destruct (Href 2%nat) as [_ Hrs2].
  destruct (Htgt 0%nat) as [Ht0%Rabs_within _].
  destruct (Htgt 1%nat) as [Ht1%Rabs_within Hts1].
  destruct (Htgt 2%nat) as [Ht2%Rabs_within Hts2].
  rewrite !fin_in by lra. cbn [mbind option_bind].
  destruct (Rev1_scaleL_range refStats tgtStats) as (sL & HsL & HL).
  destruct (Rev1_globalSatScale_range refStats tgtStats) as (gs & Hgs & HG).
  unfold Rev1App.transferLab. rewrite HsL, Hgs. cbn [mbind option_bind].
  assert (-50 <= (l - at3 (mean tgtStats) 0) * sL + at3 (mean refStats) 0 + 0.03
          <= 50) as Hln by nra.
  assert (-20 <= (a - at3 (mean tgtStats) 1) * gs + at3 (mean tgtStats) 1 <= 20)
    as Han by nra.
  assert (-20 <= (bb - at3 (mean tgtStats) 2) * gs + at3 (mean tgtStats) 2 <= 20)
    as Hbn by nra.
  rewrite !fin_in by lra. cbn [mbind option_bind].
  by apply Rev1_lab2rgb_bytes.
Qed.

Lemma rev1_transferPixel_bytes_witness :
  exists r' g' b' : Z,
    Rev1App.transferPixel flat_ref wide_tgt 10 20 30 = Some (r', g', b')
    /\ byte r' /\ byte g' /\ byte b'.
Proof.
  apply (rev1_transferPixel_bytes flat_ref wide_tgt 10 20 30).
  - intros [|[|i]]; cbn [at3 mean std flat_ref fst snd];
      (split; [apply Rabs_le|]); lra.
  - intros [|[|i]]; cbn [at3 mean std wide_tgt fst snd];
      (split; [apply Rabs_le|]); lra.
  - unfold byte; lia.
  - unfold byte; lia.
  - unfold byte; lia.
Defined.



(** ** Cache hits, added targets *)

(** X12: on a cache hit whose entry holds a canvas of bytes of the
    recorded, positive size, the intensity handler does not throw: it
    records the value and publishes, on the results of that identifier,
    the encoding at quality 0.9 of the cached preview rendered at that
    intensity and at the shadow value of the first such result (50 when
    there is none). *)
Theorem slider_hit_publishes {HTMLImageElement : Type}
    (toDataURL : list Z → nat → nat → R → string)
    (id_ : nat) (val : R) (st : AppState HTMLImageElement) (σ : store)
    (t : ImageState HTMLImageElement) (e : CacheEntry) :
  targets _ st !! id_ = Some t ->
  imageCache _ st !! id_ = Some e ->
  canvas_ok (entry_ctx e) ->
  entry_width e = canvas_width (entry_ctx e) ->
  entry_height e = canvas_height (entry_ctx e) ->
  entry_width e ≠ 0%nat -> entry_height e ≠ 0%nat ->
  exists (px : list Z) (σ' : store),
    rendered (entry_ctx e) (entry_width e) (entry_height e) (entry_refStats e)
      (entry_tgtStats e) val
      (default 50 (shadow <$> find (λ r, bool_decide (id r = id_))
                                (results _ st))) = Some px
    /\ length px = (4 * entry_width e * entry_height e)%nat
    /\ σ ⊆ σ'
    /\ handleIntensityChange _ toDataURL id_ val st σ
       = Normal (setResults _
                   (fmap (λ r, if decide (id r = id_)
                               then set_resultUrl
                                      (toDataURL px (entry_width e)
                                         (entry_height e) 0.9)
                                      (set_intensity val r)
                               else r)) st, σ').
Proof.
  intros Ht He Hok Hw Hh Hw0 Hh0.
  pose proof (handleIntensityChange_cases _ toDataURL id_ val st σ) as Hc.
  cbv zeta in Hc. rewrite Ht, He in Hc. rewrite Hw, Hh in *.
  destruct (rendered_defined (entry_ctx e) (entry_refStats e) (entry_tgtStats e)
              val (default 50 (shadow <$> find (λ r, bool_decide (id r = id_))
                                         (results _ st))) Hok Hw0 Hh0)
    as (px & Hpx & Hlen).
  rewrite Hpx in Hc. destruct Hc as (σ' & Hsub & Hc).
  exists px, σ'. by split_and!.
Qed.

Lemma slider_hit_publishes_witness :
  exists (px : list Z) (σ' : store),
    rendered (mkCanvas white_pixel 1 1) 1 1 flat_ref wide_tgt 80
      (default 50 (shadow <$> find (λ r, bool_decide (id r = 0%nat))
                                (results _ cached))) = Some px
    /\ length px = (4 * 1 * 1)%nat
    /\ ∅ ⊆ σ'
    /\ handleIntensityChange unit data_url 0 80 cached ∅
       = Normal (setResults _
                   (fmap (λ r, if decide (id r = 0%nat)
                               then set_resultUrl (data_url px 1 1 0.9)
                                      (set_intensity 80 r)
                               else r)) cached, σ').
Proof.
  apply (slider_hit_publishes data_url 0 80 cached ∅ tgt_image
           (mkEntry (mkCanvas white_pixel 1 1) 1 1 wide_tgt flat_ref));
    try reflexivity; try (cbn; lia).
  split; [|reflexivity]. cbn. repeat constructor; unfold byte; lia.
Defined.

(** On the state [cached] the intensity slider hits the cache and draws
    the preview anew. *)
Lemma cached_slider (v : R) :
  exists σ' : store,
    handleIntensityChange unit data_url 0 v cached ∅
    = Normal (setResults unit
                (fmap (λ r, if decide (id r = 0%nat)
                            then set_resultUrl "data:" (set_intensity v r)
                            else r)) cached, σ').
Proof.
  pose proof (handleIntensityChange_cases unit data_url 0 v cached ∅) as Hc.
  cbv zeta in Hc.
  change (targets unit cached !! 0%nat) with (Some tgt_image) in Hc.
  assert (imageCache unit cached !! 0%nat
          = Some (mkEntry (mkCanvas white_pixel 1 1) 1 1 wide_tgt flat_ref))
    as E by reflexivity.
  rewrite E in Hc. cbn [entry_ctx entry_width entry_height entry_refStats
                        entry_tgtStats] in Hc.
  match type of Hc with match rendered ?c _ _ ?r ?t ?i ?s with _ => _ end =>
    destruct (rendered_defined c r t i s) as (px & Hpx & _) end.
  - split; [|reflexivity]. cbn. unfold byte. repeat constructor; lia.
  - cbn. lia.
  - cbn. lia.
  - cbn [canvas_width canvas_height] in Hpx. rewrite Hpx in Hc.
    destruct Hc as (σ' & _ & Hc). by exists σ'.
Qed.

Lemma slider_path_independent_witness :
  exists σ1 σ2 σ3 : store,
    handleIntensityChange unit data_url 0 30 cached ∅
    = Normal (setResults unit
                (fmap (λ r, if decide (id r = 0%nat)
                            then set_resultUrl "data:" (set_intensity 30 r)
                            else r)) cached, σ1)
    /\ handleIntensityChange unit data_url 0 80 cached ∅
       = Normal (setResults unit
                   (fmap (λ r, if decide (id r = 0%nat)
                               then set_resultUrl "data:" (set_intensity 80 r)
                               else r)) cached, σ2)
    /\ handleIntensityChange unit data_url 0 80
         (setResults unit
            (fmap (λ r, if decide (id r = 0%nat)
                        then set_resultUrl "data:" (set_intensity 30 r)
                        else r)) cached) σ1
       = Normal (setResults unit
                   (fmap (λ r, if decide (id r = 0%nat)
                               then set_resultUrl "data:" (set_intensity 80 r)
                               else r)) cached, σ3).
Proof.
  destruct (cached_slider 30) as [σ1 H1].
  destruct (cached_slider 80) as [σ2 H2].
  destruct (slider_path_independent unit data_url 0 30 80 cached _ _ ∅ σ1 σ2
              H1 H2) as [σ3 H3].
  by exists σ1, σ2, σ3.
Defined.

Lemma blank_draws_bytes : draws_bytes blank.
Proof.
  intros img w h. split; cbn [pixels canvas_width canvas_height]; unfold blank.
  - apply Forall_replicate. unfold byte. lia.
  - apply length_replicate.
Qed.

Lemma one_px_resizable (L : nat) :
  (0 < L)%nat -> clearly_resizable one_px one_px L ().
Proof. intros HL. unfold clearly_resizable, one_px. lia. Qed.

Lemma sliver_not_resizable : ¬ resizable one_px sliver_height 1000 ().
Proof. unfold resizable, one_px, sliver_height. lia. Qed.

Lemma export_needs_all_results_witness :
  handleDownloadZip unit one_px one_px blank data_url (λ s, s) (λ s, s)
    "ZIP failed." one_more ∅
  = (setErrorMessage _ (Some "ZIP failed.") one_more, ∅, None).
Proof.
  apply (export_needs_all_results unit one_px one_px blank data_url (λ s, s)
           (λ s, s) "ZIP failed." one_more ∅).
  - by eexists.
  - done.
  - cbn. lia.
Defined.

Lemma export_succeeds_witness :
  exists (zip : gmap string string) (σ' : store),
    handleDownloadZip unit one_px one_px blank data_url (λ s, s) (λ s, s)
      "ZIP failed." shown ∅ = (shown, σ', Some zip)
    /\ dom zip = list_to_set (entry_name (λ s, s) <$> targets _ shown)
    /\ (NoDup (entry_name (λ s, s) <$> targets _ shown) ->
        size zip = length (targets _ shown)).
Proof.
  apply (export_succeeds unit one_px one_px blank data_url (λ s, s) (λ s, s)
           "ZIP failed." shown ∅ ref_image).
  - exact blank_draws_bytes.
  - reflexivity.
  - done.
  - cbn. lia.
  - apply one_px_resizable. unfold RESIZE_LONG_EDGE. lia.
  - constructor; [|constructor].
    apply one_px_resizable. unfold RESIZE_LONG_EDGE. lia.
Defined.


Lemma batch_succeeds_witness :
  exists st' σ',
    executeColorTransfer unit one_px one_px blank data_url ready ∅ = (st', σ')
    /\ errorMessage _ st' = errorMessage _ ready
    /\ length (results _ st') = length (targets _ ready)
    /\ forall j, is_Some (imageCache _ st' !! j)
                 <-> (j < length (targets _ ready))%nat.
Proof.
  apply (batch_succeeds unit one_px one_px blank data_url ready ∅ ref_image).
  - exact blank_draws_bytes.
  - reflexivity.
  - done.
  - apply one_px_resizable. unfold RESIZE_LONG_EDGE. lia.
  - constructor; [|constructor].
    apply one_px_resizable. unfold PREVIEW_EDGE. lia.
Defined.

Lemma batch_fails_on_empty_canvas_witness :
  exists st' σ',
    executeColorTransfer unit one_px sliver_height blank data_url ready ∅
      = (st', σ')
    /\ errorMessage _ st' = Some "Processing failed."
    /\ results _ st' = results _ ready
    /\ reference _ st' = reference _ ready
    /\ targets _ st' = targets _ ready.
Proof.
  apply (batch_fails_on_empty_canvas unit one_px sliver_height blank data_url
           ready ∅ ref_image).
  - reflexivity.
  - done.
  - right. constructor. exact sliver_not_resizable.
Defined.

Lemma batch_then_slider_witness :
  exists st' σ' σ'',
    executeColorTransfer unit one_px one_px blank data_url ready ∅ = (st', σ')
    /\ handleIntensityChange _ data_url 0 50 st' σ' = Normal (st', σ'').
Proof.
  apply (batch_then_slider unit one_px one_px blank data_url ready ∅ ref_image 0).
  - exact blank_draws_bytes.
  - reflexivity.
  - cbn. lia.
  - apply one_px_resizable. unfold RESIZE_LONG_EDGE. lia.
  - constructor; [|constructor].
    apply one_px_resizable. unfold PREVIEW_EDGE. lia.
Defined.

(** ** Adding targets *)

Section AddTargets.

Variable HTMLImageElement : Type.
Variable img_width img_height : HTMLImageElement → nat.
Variable heic_to_jpg : string → string.
Variable drawImage : HTMLImageElement → nat → nat → list Z.
Variable toDataURL : list Z → nat → nat → R → string.
Variable strip_extension : string → string.
Variable after_comma : string → string.

Local Abbreviation File_ := (File HTMLImageElement).
Local Abbreviation loadTarget_ :=
  (loadTarget HTMLImageElement img_width img_height heic_to_jpg).
Local Abbreviation handleFileSelect_target_ :=
  (handleFileSelect_target HTMLImageElement img_width img_height heic_to_jpg).
Local Abbreviation positive_sides_ := (positive_sides img_width img_height).

Lemma loadTarget_positive (file : File_) :
  Forall positive_sides_ (loadTarget_ file).1.
Proof.
  unfold loadTarget. destruct (validateAndProcessFile _ _ _); [|constructor].
  destruct (loadImage _ file) as [img|]; [|constructor].
  destruct (decide _) as [|Hpos]; [constructor|].
  constructor; [|constructor]. unfold positive_sides. cbn [element]. lia.
Qed.

Lemma newTargets_positive (files : list File_) :
  Forall positive_sides_ (concat ((λ f, (loadTarget_ f).1) <$> files)).
Proof.
  induction files as [|f files IH]; [constructor|].
  cbn [fmap list_fmap concat]. apply Forall_app. split; [|done].
  apply loadTarget_positive.
Qed.

Lemma all_loaded (files : list File_) :
  Forall (λ f, hasValidExt _ f = true
               /\ exists t, loadTarget_ f = ([t], [])) files ->
  filter (λ f, hasValidExt _ f = false) files = []
  /\ concat ((λ f, (loadTarget_ f).2) <$> files) = []
  /\ (files ≠ [] -> concat ((λ f, (loadTarget_ f).1) <$> files) ≠ []).
Proof.
  induction 1 as [|f fs [Hv [t Ht]] _ (IH1 & IH2 & IH3)]; [done|].
  rewrite filter_cons, decide_False by (by rewrite Hv).
  cbn [fmap list_fmap concat]. rewrite Ht. cbn [fst snd app]. done.
Qed.

Lemma take_prefix_app {A : Type} (n : nat) (l k : list A) :
  (length l <= n)%nat ->
  (length (take n (l ++ k)) <= n)%nat /\ l `prefix_of` take n (l ++ k).
Proof.
  intros Hle. split; [rewrite length_take; lia|].
  rewrite take_app_ge by done. by eexists.
Qed.

(** X23: what adding targets does to the state.  Reference, results and
    cache are not touched.  The targets stay as they are, or become the
    first 10 of the old targets followed by the images that loaded from the
    first 10 files: never more than 10, the old ones keeping their places,
    every new one with positive sides.  When every file is accepted and
    loads, the earlier error message is cleared.  After targets were added
    to a state with as many results as targets, there are fewer results
    than targets, and the export fails until the batch is run again. *)
Theorem handleFileSelect_targets (msgInvalidExt msgLoadFail msgNoValid : string)
    (files : list File_) (st : AppState HTMLImageElement) :
  let st' := handleFileSelect_target_ msgInvalidExt msgLoadFail msgNoValid
               files st in
  let newTargets := concat ((λ f, (loadTarget_ f).1)
                              <$> take MAX_TARGET_FILES files) in
  reference _ st' = reference _ st
  /\ results _ st' = results _ st
  /\ imageCache _ st' = imageCache _ st
  /\ (targets _ st' = targets _ st
      \/ targets _ st' = take MAX_TARGET_FILES (targets _ st ++ newTargets))
  /\ ((length (targets _ st) <= MAX_TARGET_FILES)%nat ->
      (length (targets _ st') <= MAX_TARGET_FILES)%nat
      /\ targets _ st `prefix_of` targets _ st')
  /\ (Forall positive_sides_ (targets _ st) ->
      Forall positive_sides_ (targets _ st'))
  /\ (files ≠ [] ->
      Forall (λ f, hasValidExt _ f = true
                   /\ exists t, loadTarget_ f = ([t], [])) files ->
      errorMessage _ st' = None
      /\ targets _ st'
         = take MAX_TARGET_FILES (targets _ st ++ newTargets))
  /\ (is_Some (reference _ st) -> results _ st ≠ [] ->
      length (results _ st) = length (targets _ st) ->
      (length (targets _ st) < length (targets _ st'))%nat ->
      forall (msgZipFail : string) (σ : store),
        handleDownloadZip _ img_width img_height drawImage toDataURL
          strip_extension after_comma msgZipFail st' σ
        = (setErrorMessage _ (Some msgZipFail) st', σ, None)).
Proof.
  cbv zeta.
  set (new := concat ((λ f, (loadTarget_ f).1) <$> take MAX_TARGET_FILES files)).
  set (st' := handleFileSelect_target_ msgInvalidExt msgLoadFail msgNoValid
                files st).
  assert (reference _ st' = reference _ st /\ results _ st' = results _ st
          /\ imageCache _ st' = imageCache _ st
          /\ (targets _ st' = targets _ st
              \/ targets _ st' = take MAX_TARGET_FILES (targets _ st ++ new)))
    as (Href & Hres & Hcache & Hts).
  { unfold st', handleFileSelect_target. fold new.
    repeat (destruct (decide _)); try destruct (truthy _);
      cbn [setTargets setErrorMessage reference results imageCache targets];
      split_and!; try done; first [by left|by right]. }
  split; [done|]. split; [done|]. split; [done|]. split; [done|]. split.
  { intros Hle. destruct Hts as [->| ->]; [done|]. by apply take_prefix_app. }
  split.
  { intros Hpos. destruct Hts as [->| ->]; [done|].
    apply Forall_take, Forall_app. split; [done|]. apply newTargets_positive. }
  split.
  { intros Hne Hall.
    destruct (all_loaded files Hall) as (Hunsup & _ & _).
    assert (Forall (λ f, hasValidExt _ f = true
                         /\ exists t, loadTarget_ f = ([t], []))
              (take MAX_TARGET_FILES files)) as Hall'
      by (by apply Forall_take).
    destruct (all_loaded _ Hall') as (_ & Hfail & Hnew).
    assert (take MAX_TARGET_FILES files ≠ []) as Hne'
      by (by destruct files).
    specialize (Hnew Hne'). fold new in Hnew.
    unfold st', handleFileSelect_target. fold new.
    rewrite decide_False by done. rewrite Hunsup, Hfail.
    rewrite (decide_True (P := [] = [])) by done.
    rewrite decide_False by (intros (? & _); done).
    done. }
  intros HisRef Hr Hlen Hlt msgZipFail σ.
  destruct (handleDownloadZip_cases _ img_width img_height drawImage
              toDataURL strip_extension after_comma msgZipFail st' σ)
    as [[Hnone _]|[_ [E|(fs & σ2 & _ & _ & Hl & _)]]].
  - rewrite Href, Hres in Hnone. destruct Hnone as [E|[E|E]].
    + rewrite E in HisRef. by destruct HisRef.
    + rewrite E in Hlt. cbn [length] in Hlt. lia.
    + done.
  - done.
  - rewrite Hres in Hl. lia.
Qed.

End AddTargets.

(** ** Greys, and the intensity slider *)

(** X24: a grey pixel is neutral in the working space: for every byte
    [v], the pixel [(v, v, v)] has both chroma coordinates between 0 and
    4e-8, and its lightness is the cube root of its linear value to within
    1e-8. *)
Theorem grey_is_neutral (v : Z) :
  byte v ->
  exists x L a b : R,
    sRGBToLinear v = Some x
    /\ rgb2lab v v v = Some (L, a, b)
    /\ 0 <= a <= 0.00000000025
    /\ 0 <= b <= 0.00000004
    /\ Rabs (L - Math_cbrt x) <= 0.00000001.
Proof.
  intros Hv. destruct (TABLE_byte v Hv) as (x & Hx & Hx01 & _).
  unfold sRGBToLinear, rgb2lab, rgb2oklab. rewrite Hx. cbn [mbind option_bind].
  replace (0.4122214708 * x + 0.5363325363 * x + 0.0514459929 * x)
    with x by lra.
  replace (0.0883024619 * x + 0.2817188376 * x + 0.6299787005 * x)
    with x by lra.
  replace (0.2119034982 * x + 0.6806995451 * x + 0.1073969566 * x)
    with (0.9999999999 * x) by lra.
  pose proof (Math_cbrt_unit x Hx01) as Hc.
  pose proof (Math_cbrt_cube x) as Hcube.
  assert (0.9999999999 * Math_cbrt x <= Math_cbrt (0.9999999999 * x)
          <= Math_cbrt x) as Hc'.
  { apply Math_cbrt_bounds; [lra|lra|].
    set (c := Math_cbrt x) in *.
    replace (0.9999999999 * c * (0.9999999999 * c) * (0.9999999999 * c))
      with (0.9999999999 * 0.9999999999 * 0.9999999999 * (c * c * c)) by ring.
    rewrite Hcube. lra. }
  eexists x, _, _, _. split; [done|]. split; [done|].
  revert Hc Hc'. generalize (Math_cbrt x) (Math_cbrt (0.9999999999 * x)).
  intros c c' Hc Hc'. split; [lra|]. split; [lra|]. apply Rabs_le. lra.
Qed.

Lemma grey_is_neutral_witness :
  exists x L a b : R,
    sRGBToLinear 128 = Some x
    /\ rgb2lab 128 128 128 = Some (L, a, b)
    /\ 0 <= a <= 0.00000000025
    /\ 0 <= b <= 0.00000004
    /\ Rabs (L - Math_cbrt x) <= 0.00000001.
Proof. apply (grey_is_neutral 128). unfold byte. lia. Defined.

(** X25: the intensity acts linearly on the coefficients: at intensity
    [i] each gain differs from 1, and each offset from 0, by [i / 100]
    times what it does at intensity 100; the shadow factor does not depend
    on the intensity. *)
Theorem coefficients_linear_in_intensity (refStats tgtStats : ColorStats)
    (intensity_ shadowStrength : R) :
  exists c c100 : Coefficients,
    coefficients refStats tgtStats intensity_ shadowStrength = Some c
    /\ coefficients refStats tgtStats 100 shadowStrength = Some c100
    /\ A_L c - 1 = (A_L c100 - 1) * (intensity_ / 100)
    /\ A_a c - 1 = (A_a c100 - 1) * (intensity_ / 100)
    /\ A_b c - 1 = (A_b c100 - 1) * (intensity_ / 100)
    /\ B_L c = B_L c100 * (intensity_ / 100)
    /\ B_a c = B_a c100 * (intensity_ / 100)
    /\ B_b c = B_b c100 * (intensity_ / 100)
    /\ crush_min c = crush_min c100.
Proof.
  unfold coefficients.
  destruct (rawScale_Some refStats tgtStats 0) as (sL & -> & _).
  destruct (rawScale_Some refStats tgtStats 1) as (sA & -> & _).
  destruct (rawScale_Some refStats tgtStats 2) as (sB & -> & _).
  cbn [mbind option_bind]. eexists _, _. split; [done|]. split; [done|].
  cbn [A_L A_a A_b B_L B_a B_b crush_min]. unfold k.
  unfold BLEND_STD, BLEND_MEAN_L, BLEND_MEAN_C.
  split_and!; try done; field; lra.
Qed.
